(** * Sproingle: a shallow embedding of the turn engine

    The repository holds two stages of the main component [App]:

    - [V1]: [App.tsx] with [constants.ts] and [types.ts]
      (bomb fuse 6, blast in a wall-stopped plus shape, enemies on the
      player's screen only);
    - [V2]: the later [App] with its own constants (bomb fuse 4, blast in a
      Euclidean radius, every enemy acts, altars and augments).

    Both are embedded, each in its own module, from the code.

    Conventions of the embedding.

    - A JavaScript number that holds an integer is a [Z].
    - [Math.random()] is an oracle: the successive results that reach the
      game logic are a list of rationals, consumed from the head.  The draws
      that only build the id of a floating damage number are left out, like
      the damage numbers themselves, the messages and the sounds.
    - A React state setter queues an update.  [setGameState(f)] queues
      [UFn f], [setGameState(v)] queues [USet v]; the next render folds the
      queue over the current state.  A handler reads [gameState] from the
      render it was created in, which is the state the queue is applied to.
    - [setTimeout] callbacks are returned as a list of [Timer]s.
    - A [TypeError] (indexing [undefined]) is [None]. *)

From Stdlib Require Import ZArith QArith Qround Lia List Bool String.
From stdpp Require Import base option list gmap sets.
Import ListNotations.
Open Scope Z_scope.

(** ** Shared vocabulary ([types.ts], the enumerations of the constants) *)

Inductive Direction := ArrowUp | ArrowDown | ArrowLeft | ArrowRight.
Inductive PlayerClass := Knight | Ranger | Sapper.
Inductive TileType := FLOOR | WALL.
Inductive ItemType := POTION | GOLD | ARROWS | BOMB | ANTIDOTE.

Definition AugmentId := string.

Record Position := mkPosition { pos_x : Z; pos_y : Z }.

Record Item := mkItem { item_x : Z; item_y : Z; item_type : ItemType }.

Record Bomb := mkBomb
  { bomb_x : Z; bomb_y : Z; bomb_id : Z; stepsRemaining : Z }.

Record Doodad := mkDoodad { doodad_x : Z; doodad_y : Z; doodad_char : string }.

Record DamageNumber := mkDamageNumber
  { dn_id : Z; dn_x : Z; dn_y : Z; dn_amount : Z; dn_onPlayer : bool }.

Record ArrowProjectile := mkArrow
  { arrow_x : Z; arrow_y : Z; arrow_visible : bool; arrow_direction : Direction }.

Definition GameMap := list (list TileType).

#[global] Instance Direction_eq_dec : EqDecision Direction.
Proof. solve_decision. Defined.
#[global] Instance PlayerClass_eq_dec : EqDecision PlayerClass.
Proof. solve_decision. Defined.
#[global] Instance TileType_eq_dec : EqDecision TileType.
Proof. solve_decision. Defined.
#[global] Instance ItemType_eq_dec : EqDecision ItemType.
Proof. solve_decision. Defined.
#[global] Instance Position_eq_dec : EqDecision Position.
Proof. solve_decision. Defined.

(** [arr[i]]: [undefined] out of range. *)
Definition index {A} (l : list A) (i : Z) : option A :=
  if i <? 0 then None else l !! Z.to_nat i.

(** [map[y]?.[x]] *)
Definition tileAt (m : GameMap) (x y : Z) : option TileType :=
  match index m y with
  | Some row => index row x
  | None => None
  end.

(** [map[y][x]]: a missing row is a [TypeError] (outer [None]), a missing
    column is [undefined] (inner [None]). *)
Definition tileAtStrict (m : GameMap) (x y : Z) : option (option TileType) :=
  match index m y with
  | Some row => Some (index row x)
  | None => None
  end.

(** [a.x === b.x && a.y === b.y] *)
Definition samePos (x1 y1 x2 y2 : Z) : bool := (x1 =? x2) && (y1 =? y2).

(** [p?.x === x && p?.y === y] for a nullable position *)
Definition atOpt (p : option Position) (x y : Z) : bool :=
  match p with
  | Some q => samePos (pos_x q) (pos_y q) x y
  | None => false
  end.

(** The target of a step in a direction, as every handler computes it. *)
Definition stepDir (d : Direction) (x y : Z) : Z * Z :=
  match d with
  | ArrowUp => (x, y - 1)
  | ArrowDown => (x, y + 1)
  | ArrowLeft => (x - 1, y)
  | ArrowRight => (x + 1, y)
  end.

(** *** The [Math.random()] oracle *)

Definition Rng := list Q.

Definition draw (g : Rng) : Q * Rng :=
  match g with
  | [] => (0%Q, [])
  | r :: g' => (r, g')
  end.

(** [Math.floor(Math.random() * n)] for the draw [r] *)
Definition randInt (n : Z) (r : Q) : Z := Qfloor (r * inject_Z n).

(** [Math.random() > 0.5] and [Math.random() < 0.3] *)
Definition gtHalf (r : Q) : bool := negb (Qle_bool r (1 # 2)).
Definition ltThreeTenths (r : Q) : bool := negb (Qle_bool (3 # 10) r).

(** *** The queue of state updates of a React state cell *)

Inductive Update (S : Type) :=
| UFn (f : S -> S)
| USet (v : S).
Arguments UFn {S} f.
Arguments USet {S} v.

Definition applyUpdate {S} (s : S) (u : Update S) : S :=
  match u with
  | UFn f => f s
  | USet v => v
  end.

Definition applyUpdates {S} (s : S) (us : list (Update S)) : S :=
  fold_left applyUpdate us s.

(** The picked-up set: a [Set<string>] of keys [`${x},${y}`]; the key of a
    position is the position itself. *)
Definition ItemKey := (Z * Z)%type.
Definition itemKey (it : Item) : ItemKey := (item_x it, item_y it).

(** [{...r, k: v}]: one notation for every record of the model. *)
Class Upd (R P : Type) := upd : R -> P -> R.
Notation "r <| p |>" := (upd r p) (at level 1, left associativity, format "r  <| p |>").

(** [{...r, ...o}] where [o] lists its properties in order: later
    properties win. *)
Definition spread {R P} `{Upd R P} (r : R) (o : list P) : R := fold_left upd o r.

(** * Stage 1: [App.tsx], [constants.ts], [types.ts] *)

Module V1.

(** ** [constants.ts] *)

Definition VIEWPORT_WIDTH : Z := 13.
Definition VIEWPORT_HEIGHT : Z := 20.
Definition WORLD_SCREENS_W : Z := 3.
Definition WORLD_SCREENS_H : Z := 3.
Definition BOMB_FUSE_STEPS : Z := 6.
Definition BOMB_RANGE : nat := 6.
Definition POISON_TICK_STEPS : Z := 3.
Definition POISON_DAMAGE : Z := 5.

Inductive EnemyType := GOBLIN | SLIME | SKELETON | SPIDER.
Inductive HazardType := SPIKES | FIRE | PIT.

#[global] Instance EnemyType_eq_dec : EqDecision EnemyType.
Proof. solve_decision. Defined.

Record Hazard := mkHazard { hazard_x : Z; hazard_y : Z; hazard_type : HazardType }.

Record ColorScheme := mkColorScheme
  { cs_name : string; cs_bg : string; cs_text : string; cs_wall : string;
    cs_floor : string; cs_accent1 : string; cs_accent2 : string;
    cs_doodad : string }.

(** [undefined] as a theme: [THEMES[i]] out of range. *)
Definition noTheme : ColorScheme :=
  mkColorScheme EmptyString EmptyString EmptyString EmptyString
                EmptyString EmptyString EmptyString EmptyString.

Definition THEMES : list ColorScheme :=
  [ mkColorScheme "Default" "#1a1a1a" "#f0f0f0" "#4a4a4a" "#303030" "#a855f7" "#bef264" "#78716c";
    mkColorScheme "Crypt" "#2c3e50" "#ecf0f1" "#5D6D7E" "#34495e" "#5dade2" "#a9cce3" "#95a5a6";
    mkColorScheme "Lava Caves" "#270808" "#fadbd8" "#641e16" "#421b1b" "#f5b041" "#f1c40f" "#4a2323";
    mkColorScheme "Forest" "#143d2E" "#e8f8f5" "#1e8449" "#196f3d" "#a3e4d7" "#fdebd0" "#7d6608" ].

(** ** [types.ts] *)

Record Player := mkPlayer
  { player_x : Z;
    player_y : Z;
    hp : Z;
    maxHp : Z;
    attack : Z;
    arrows : Z;
    maxArrows : Z;
    bombCount : Z;
    maxBombs : Z;
    potions : Z;
    antidotes : Z;
    gold : Z;
    level : Z;
    xp : Z;
    xpToNextLevel : Z;
    playerClass : PlayerClass;
    lastMoveDirection : option Direction;
    isPoisoned : bool;
    poisonStepCounter : Z;
    meleeDamageBonus : Z;
    arrowDamageBonus : Z;
    bombDamageBonus : Z;
    corruption : Z;
    activeAugments : list AugmentId }.

Inductive PlayerProp :=
| F_player_x (v : Z)
| F_player_y (v : Z)
| F_hp (v : Z)
| F_maxHp (v : Z)
| F_attack (v : Z)
| F_arrows (v : Z)
| F_maxArrows (v : Z)
| F_bombCount (v : Z)
| F_maxBombs (v : Z)
| F_potions (v : Z)
| F_antidotes (v : Z)
| F_gold (v : Z)
| F_level (v : Z)
| F_xp (v : Z)
| F_xpToNextLevel (v : Z)
| F_playerClass (v : PlayerClass)
| F_lastMoveDirection (v : option Direction)
| F_isPoisoned (v : bool)
| F_poisonStepCounter (v : Z)
| F_meleeDamageBonus (v : Z)
| F_arrowDamageBonus (v : Z)
| F_bombDamageBonus (v : Z)
| F_corruption (v : Z)
| F_activeAugments (v : list AugmentId).

(** [{...p, k: v}] for one property [k: v] of an object literal of type [Partial<Player>]. *)
Definition assign (p : Player) (a : PlayerProp) : Player :=
  match a with
  | F_player_x v =>
      mkPlayer v (player_y p) (hp p) (maxHp p) (attack p) (arrows p) (maxArrows p) (bombCount p) (maxBombs p) (potions p) (antidotes p) (gold p) (level p) (xp p) (xpToNextLevel p) (playerClass p) (lastMoveDirection p) (isPoisoned p) (poisonStepCounter p) (meleeDamageBonus p) (arrowDamageBonus p) (bombDamageBonus p) (corruption p) (activeAugments p)
  | F_player_y v =>
      mkPlayer (player_x p) v (hp p) (maxHp p) (attack p) (arrows p) (maxArrows p) (bombCount p) (maxBombs p) (potions p) (antidotes p) (gold p) (level p) (xp p) (xpToNextLevel p) (playerClass p) (lastMoveDirection p) (isPoisoned p) (poisonStepCounter p) (meleeDamageBonus p) (arrowDamageBonus p) (bombDamageBonus p) (corruption p) (activeAugments p)
  | F_hp v =>
      mkPlayer (player_x p) (player_y p) v (maxHp p) (attack p) (arrows p) (maxArrows p) (bombCount p) (maxBombs p) (potions p) (antidotes p) (gold p) (level p) (xp p) (xpToNextLevel p) (playerClass p) (lastMoveDirection p) (isPoisoned p) (poisonStepCounter p) (meleeDamageBonus p) (arrowDamageBonus p) (bombDamageBonus p) (corruption p) (activeAugments p)
  | F_maxHp v =>
      mkPlayer (player_x p) (player_y p) (hp p) v (attack p) (arrows p) (maxArrows p) (bombCount p) (maxBombs p) (potions p) (antidotes p) (gold p) (level p) (xp p) (xpToNextLevel p) (playerClass p) (lastMoveDirection p) (isPoisoned p) (poisonStepCounter p) (meleeDamageBonus p) (arrowDamageBonus p) (bombDamageBonus p) (corruption p) (activeAugments p)
  | F_attack v =>
      mkPlayer (player_x p) (player_y p) (hp p) (maxHp p) v (arrows p) (maxArrows p) (bombCount p) (maxBombs p) (potions p) (antidotes p) (gold p) (level p) (xp p) (xpToNextLevel p) (playerClass p) (lastMoveDirection p) (isPoisoned p) (poisonStepCounter p) (meleeDamageBonus p) (arrowDamageBonus p) (bombDamageBonus p) (corruption p) (activeAugments p)
  | F_arrows v =>
      mkPlayer (player_x p) (player_y p) (hp p) (maxHp p) (attack p) v (maxArrows p) (bombCount p) (maxBombs p) (potions p) (antidotes p) (gold p) (level p) (xp p) (xpToNextLevel p) (playerClass p) (lastMoveDirection p) (isPoisoned p) (poisonStepCounter p) (meleeDamageBonus p) (arrowDamageBonus p) (bombDamageBonus p) (corruption p) (activeAugments p)
  | F_maxArrows v =>
      mkPlayer (player_x p) (player_y p) (hp p) (maxHp p) (attack p) (arrows p) v (bombCount p) (maxBombs p) (potions p) (antidotes p) (gold p) (level p) (xp p) (xpToNextLevel p) (playerClass p) (lastMoveDirection p) (isPoisoned p) (poisonStepCounter p) (meleeDamageBonus p) (arrowDamageBonus p) (bombDamageBonus p) (corruption p) (activeAugments p)
  | F_bombCount v =>
      mkPlayer (player_x p) (player_y p) (hp p) (maxHp p) (attack p) (arrows p) (maxArrows p) v (maxBombs p) (potions p) (antidotes p) (gold p) (level p) (xp p) (xpToNextLevel p) (playerClass p) (lastMoveDirection p) (isPoisoned p) (poisonStepCounter p) (meleeDamageBonus p) (arrowDamageBonus p) (bombDamageBonus p) (corruption p) (activeAugments p)
  | F_maxBombs v =>
      mkPlayer (player_x p) (player_y p) (hp p) (maxHp p) (attack p) (arrows p) (maxArrows p) (bombCount p) v (potions p) (antidotes p) (gold p) (level p) (xp p) (xpToNextLevel p) (playerClass p) (lastMoveDirection p) (isPoisoned p) (poisonStepCounter p) (meleeDamageBonus p) (arrowDamageBonus p) (bombDamageBonus p) (corruption p) (activeAugments p)
  | F_potions v =>
      mkPlayer (player_x p) (player_y p) (hp p) (maxHp p) (attack p) (arrows p) (maxArrows p) (bombCount p) (maxBombs p) v (antidotes p) (gold p) (level p) (xp p) (xpToNextLevel p) (playerClass p) (lastMoveDirection p) (isPoisoned p) (poisonStepCounter p) (meleeDamageBonus p) (arrowDamageBonus p) (bombDamageBonus p) (corruption p) (activeAugments p)
  | F_antidotes v =>
      mkPlayer (player_x p) (player_y p) (hp p) (maxHp p) (attack p) (arrows p) (maxArrows p) (bombCount p) (maxBombs p) (potions p) v (gold p) (level p) (xp p) (xpToNextLevel p) (playerClass p) (lastMoveDirection p) (isPoisoned p) (poisonStepCounter p) (meleeDamageBonus p) (arrowDamageBonus p) (bombDamageBonus p) (corruption p) (activeAugments p)
  | F_gold v =>
      mkPlayer (player_x p) (player_y p) (hp p) (maxHp p) (attack p) (arrows p) (maxArrows p) (bombCount p) (maxBombs p) (potions p) (antidotes p) v (level p) (xp p) (xpToNextLevel p) (playerClass p) (lastMoveDirection p) (isPoisoned p) (poisonStepCounter p) (meleeDamageBonus p) (arrowDamageBonus p) (bombDamageBonus p) (corruption p) (activeAugments p)
  | F_level v =>
      mkPlayer (player_x p) (player_y p) (hp p) (maxHp p) (attack p) (arrows p) (maxArrows p) (bombCount p) (maxBombs p) (potions p) (antidotes p) (gold p) v (xp p) (xpToNextLevel p) (playerClass p) (lastMoveDirection p) (isPoisoned p) (poisonStepCounter p) (meleeDamageBonus p) (arrowDamageBonus p) (bombDamageBonus p) (corruption p) (activeAugments p)
  | F_xp v =>
      mkPlayer (player_x p) (player_y p) (hp p) (maxHp p) (attack p) (arrows p) (maxArrows p) (bombCount p) (maxBombs p) (potions p) (antidotes p) (gold p) (level p) v (xpToNextLevel p) (playerClass p) (lastMoveDirection p) (isPoisoned p) (poisonStepCounter p) (meleeDamageBonus p) (arrowDamageBonus p) (bombDamageBonus p) (corruption p) (activeAugments p)
  | F_xpToNextLevel v =>
      mkPlayer (player_x p) (player_y p) (hp p) (maxHp p) (attack p) (arrows p) (maxArrows p) (bombCount p) (maxBombs p) (potions p) (antidotes p) (gold p) (level p) (xp p) v (playerClass p) (lastMoveDirection p) (isPoisoned p) (poisonStepCounter p) (meleeDamageBonus p) (arrowDamageBonus p) (bombDamageBonus p) (corruption p) (activeAugments p)
  | F_playerClass v =>
      mkPlayer (player_x p) (player_y p) (hp p) (maxHp p) (attack p) (arrows p) (maxArrows p) (bombCount p) (maxBombs p) (potions p) (antidotes p) (gold p) (level p) (xp p) (xpToNextLevel p) v (lastMoveDirection p) (isPoisoned p) (poisonStepCounter p) (meleeDamageBonus p) (arrowDamageBonus p) (bombDamageBonus p) (corruption p) (activeAugments p)
  | F_lastMoveDirection v =>
      mkPlayer (player_x p) (player_y p) (hp p) (maxHp p) (attack p) (arrows p) (maxArrows p) (bombCount p) (maxBombs p) (potions p) (antidotes p) (gold p) (level p) (xp p) (xpToNextLevel p) (playerClass p) v (isPoisoned p) (poisonStepCounter p) (meleeDamageBonus p) (arrowDamageBonus p) (bombDamageBonus p) (corruption p) (activeAugments p)
  | F_isPoisoned v =>
      mkPlayer (player_x p) (player_y p) (hp p) (maxHp p) (attack p) (arrows p) (maxArrows p) (bombCount p) (maxBombs p) (potions p) (antidotes p) (gold p) (level p) (xp p) (xpToNextLevel p) (playerClass p) (lastMoveDirection p) v (poisonStepCounter p) (meleeDamageBonus p) (arrowDamageBonus p) (bombDamageBonus p) (corruption p) (activeAugments p)
  | F_poisonStepCounter v =>
      mkPlayer (player_x p) (player_y p) (hp p) (maxHp p) (attack p) (arrows p) (maxArrows p) (bombCount p) (maxBombs p) (potions p) (antidotes p) (gold p) (level p) (xp p) (xpToNextLevel p) (playerClass p) (lastMoveDirection p) (isPoisoned p) v (meleeDamageBonus p) (arrowDamageBonus p) (bombDamageBonus p) (corruption p) (activeAugments p)
  | F_meleeDamageBonus v =>
      mkPlayer (player_x p) (player_y p) (hp p) (maxHp p) (attack p) (arrows p) (maxArrows p) (bombCount p) (maxBombs p) (potions p) (antidotes p) (gold p) (level p) (xp p) (xpToNextLevel p) (playerClass p) (lastMoveDirection p) (isPoisoned p) (poisonStepCounter p) v (arrowDamageBonus p) (bombDamageBonus p) (corruption p) (activeAugments p)
  | F_arrowDamageBonus v =>
      mkPlayer (player_x p) (player_y p) (hp p) (maxHp p) (attack p) (arrows p) (maxArrows p) (bombCount p) (maxBombs p) (potions p) (antidotes p) (gold p) (level p) (xp p) (xpToNextLevel p) (playerClass p) (lastMoveDirection p) (isPoisoned p) (poisonStepCounter p) (meleeDamageBonus p) v (bombDamageBonus p) (corruption p) (activeAugments p)
  | F_bombDamageBonus v =>
      mkPlayer (player_x p) (player_y p) (hp p) (maxHp p) (attack p) (arrows p) (maxArrows p) (bombCount p) (maxBombs p) (potions p) (antidotes p) (gold p) (level p) (xp p) (xpToNextLevel p) (playerClass p) (lastMoveDirection p) (isPoisoned p) (poisonStepCounter p) (meleeDamageBonus p) (arrowDamageBonus p) v (corruption p) (activeAugments p)
  | F_corruption v =>
      mkPlayer (player_x p) (player_y p) (hp p) (maxHp p) (attack p) (arrows p) (maxArrows p) (bombCount p) (maxBombs p) (potions p) (antidotes p) (gold p) (level p) (xp p) (xpToNextLevel p) (playerClass p) (lastMoveDirection p) (isPoisoned p) (poisonStepCounter p) (meleeDamageBonus p) (arrowDamageBonus p) (bombDamageBonus p) v (activeAugments p)
  | F_activeAugments v =>
      mkPlayer (player_x p) (player_y p) (hp p) (maxHp p) (attack p) (arrows p) (maxArrows p) (bombCount p) (maxBombs p) (potions p) (antidotes p) (gold p) (level p) (xp p) (xpToNextLevel p) (playerClass p) (lastMoveDirection p) (isPoisoned p) (poisonStepCounter p) (meleeDamageBonus p) (arrowDamageBonus p) (bombDamageBonus p) (corruption p) v
  end.

Record Enemy := mkEnemy
  { enemy_x : Z;
    enemy_y : Z;
    enemy_id : Z;
    enemy_type : EnemyType;
    enemy_hp : Z;
    enemy_attack : Z;
    isHit : option bool }.

Inductive EnemyProp :=
| E_enemy_x (v : Z)
| E_enemy_y (v : Z)
| E_enemy_id (v : Z)
| E_enemy_type (v : EnemyType)
| E_enemy_hp (v : Z)
| E_enemy_attack (v : Z)
| E_isHit (v : option bool).

(** [{...e, k: v}] on an enemy. *)
Definition assignE (p : Enemy) (a : EnemyProp) : Enemy :=
  match a with
  | E_enemy_x v =>
      mkEnemy v (enemy_y p) (enemy_id p) (enemy_type p) (enemy_hp p) (enemy_attack p) (isHit p)
  | E_enemy_y v =>
      mkEnemy (enemy_x p) v (enemy_id p) (enemy_type p) (enemy_hp p) (enemy_attack p) (isHit p)
  | E_enemy_id v =>
      mkEnemy (enemy_x p) (enemy_y p) v (enemy_type p) (enemy_hp p) (enemy_attack p) (isHit p)
  | E_enemy_type v =>
      mkEnemy (enemy_x p) (enemy_y p) (enemy_id p) v (enemy_hp p) (enemy_attack p) (isHit p)
  | E_enemy_hp v =>
      mkEnemy (enemy_x p) (enemy_y p) (enemy_id p) (enemy_type p) v (enemy_attack p) (isHit p)
  | E_enemy_attack v =>
      mkEnemy (enemy_x p) (enemy_y p) (enemy_id p) (enemy_type p) (enemy_hp p) v (isHit p)
  | E_isHit v =>
      mkEnemy (enemy_x p) (enemy_y p) (enemy_id p) (enemy_type p) (enemy_hp p) (enemy_attack p) v
  end.

Record GameState := mkGameState
  { gs_map : GameMap;
    player : Player;
    enemies : list Enemy;
    items : list Item;
    exit : option Position;
    wizard : option Position;
    hazards : list Hazard;
    doodads : list Doodad;
    bombs : list Bomb;
    activeBlasts : list Position;
    damageNumbers : list DamageNumber;
    pickedUpItems : gset ItemKey;
    gs_level : Z;
    theme : ColorScheme;
    camera : Position;
    altars : list Position }.

Inductive GameStateProp :=
| G_gs_map (v : GameMap)
| G_player (v : Player)
| G_enemies (v : list Enemy)
| G_items (v : list Item)
| G_exit (v : option Position)
| G_wizard (v : option Position)
| G_hazards (v : list Hazard)
| G_doodads (v : list Doodad)
| G_bombs (v : list Bomb)
| G_activeBlasts (v : list Position)
| G_damageNumbers (v : list DamageNumber)
| G_pickedUpItems (v : gset ItemKey)
| G_gs_level (v : Z)
| G_theme (v : ColorScheme)
| G_camera (v : Position)
| G_altars (v : list Position).

(** [{...s, k: v}] on the game state. *)
Definition assignG (p : GameState) (a : GameStateProp) : GameState :=
  match a with
  | G_gs_map v =>
      mkGameState v (player p) (enemies p) (items p) (exit p) (wizard p) (hazards p) (doodads p) (bombs p) (activeBlasts p) (damageNumbers p) (pickedUpItems p) (gs_level p) (theme p) (camera p) (altars p)
  | G_player v =>
      mkGameState (gs_map p) v (enemies p) (items p) (exit p) (wizard p) (hazards p) (doodads p) (bombs p) (activeBlasts p) (damageNumbers p) (pickedUpItems p) (gs_level p) (theme p) (camera p) (altars p)
  | G_enemies v =>
      mkGameState (gs_map p) (player p) v (items p) (exit p) (wizard p) (hazards p) (doodads p) (bombs p) (activeBlasts p) (damageNumbers p) (pickedUpItems p) (gs_level p) (theme p) (camera p) (altars p)
  | G_items v =>
      mkGameState (gs_map p) (player p) (enemies p) v (exit p) (wizard p) (hazards p) (doodads p) (bombs p) (activeBlasts p) (damageNumbers p) (pickedUpItems p) (gs_level p) (theme p) (camera p) (altars p)
  | G_exit v =>
      mkGameState (gs_map p) (player p) (enemies p) (items p) v (wizard p) (hazards p) (doodads p) (bombs p) (activeBlasts p) (damageNumbers p) (pickedUpItems p) (gs_level p) (theme p) (camera p) (altars p)
  | G_wizard v =>
      mkGameState (gs_map p) (player p) (enemies p) (items p) (exit p) v (hazards p) (doodads p) (bombs p) (activeBlasts p) (damageNumbers p) (pickedUpItems p) (gs_level p) (theme p) (camera p) (altars p)
  | G_hazards v =>
      mkGameState (gs_map p) (player p) (enemies p) (items p) (exit p) (wizard p) v (doodads p) (bombs p) (activeBlasts p) (damageNumbers p) (pickedUpItems p) (gs_level p) (theme p) (camera p) (altars p)
  | G_doodads v =>
      mkGameState (gs_map p) (player p) (enemies p) (items p) (exit p) (wizard p) (hazards p) v (bombs p) (activeBlasts p) (damageNumbers p) (pickedUpItems p) (gs_level p) (theme p) (camera p) (altars p)
  | G_bombs v =>
      mkGameState (gs_map p) (player p) (enemies p) (items p) (exit p) (wizard p) (hazards p) (doodads p) v (activeBlasts p) (damageNumbers p) (pickedUpItems p) (gs_level p) (theme p) (camera p) (altars p)
  | G_activeBlasts v =>
      mkGameState (gs_map p) (player p) (enemies p) (items p) (exit p) (wizard p) (hazards p) (doodads p) (bombs p) v (damageNumbers p) (pickedUpItems p) (gs_level p) (theme p) (camera p) (altars p)
  | G_damageNumbers v =>
      mkGameState (gs_map p) (player p) (enemies p) (items p) (exit p) (wizard p) (hazards p) (doodads p) (bombs p) (activeBlasts p) v (pickedUpItems p) (gs_level p) (theme p) (camera p) (altars p)
  | G_pickedUpItems v =>
      mkGameState (gs_map p) (player p) (enemies p) (items p) (exit p) (wizard p) (hazards p) (doodads p) (bombs p) (activeBlasts p) (damageNumbers p) v (gs_level p) (theme p) (camera p) (altars p)
  | G_gs_level v =>
      mkGameState (gs_map p) (player p) (enemies p) (items p) (exit p) (wizard p) (hazards p) (doodads p) (bombs p) (activeBlasts p) (damageNumbers p) (pickedUpItems p) v (theme p) (camera p) (altars p)
  | G_theme v =>
      mkGameState (gs_map p) (player p) (enemies p) (items p) (exit p) (wizard p) (hazards p) (doodads p) (bombs p) (activeBlasts p) (damageNumbers p) (pickedUpItems p) (gs_level p) v (camera p) (altars p)
  | G_camera v =>
      mkGameState (gs_map p) (player p) (enemies p) (items p) (exit p) (wizard p) (hazards p) (doodads p) (bombs p) (activeBlasts p) (damageNumbers p) (pickedUpItems p) (gs_level p) (theme p) v (altars p)
  | G_altars v =>
      mkGameState (gs_map p) (player p) (enemies p) (items p) (exit p) (wizard p) (hazards p) (doodads p) (bombs p) (activeBlasts p) (damageNumbers p) (pickedUpItems p) (gs_level p) (theme p) (camera p) v
  end.

Record App := mkApp
  { gameState : GameState;
    isGameOver : bool;
    isPaused : bool;
    animating : bool;
    isInspecting : bool;
    isLevelingUp : bool;
    isShopping : bool;
    isTransitioning : bool;
    arrowProjectile : option ArrowProjectile }.

Inductive AppProp :=
| A_gameState (v : GameState)
| A_isGameOver (v : bool)
| A_isPaused (v : bool)
| A_animating (v : bool)
| A_isInspecting (v : bool)
| A_isLevelingUp (v : bool)
| A_isShopping (v : bool)
| A_isTransitioning (v : bool)
| A_arrowProjectile (v : option ArrowProjectile).

(** One React state setter of the component: the game state, the modal flags,
    [animatingRef.current] and the arrow in flight. *)
Definition assignA (p : App) (a : AppProp) : App :=
  match a with
  | A_gameState v =>
      mkApp v (isGameOver p) (isPaused p) (animating p) (isInspecting p) (isLevelingUp p) (isShopping p) (isTransitioning p) (arrowProjectile p)
  | A_isGameOver v =>
      mkApp (gameState p) v (isPaused p) (animating p) (isInspecting p) (isLevelingUp p) (isShopping p) (isTransitioning p) (arrowProjectile p)
  | A_isPaused v =>
      mkApp (gameState p) (isGameOver p) v (animating p) (isInspecting p) (isLevelingUp p) (isShopping p) (isTransitioning p) (arrowProjectile p)
  | A_animating v =>
      mkApp (gameState p) (isGameOver p) (isPaused p) v (isInspecting p) (isLevelingUp p) (isShopping p) (isTransitioning p) (arrowProjectile p)
  | A_isInspecting v =>
      mkApp (gameState p) (isGameOver p) (isPaused p) (animating p) v (isLevelingUp p) (isShopping p) (isTransitioning p) (arrowProjectile p)
  | A_isLevelingUp v =>
      mkApp (gameState p) (isGameOver p) (isPaused p) (animating p) (isInspecting p) v (isShopping p) (isTransitioning p) (arrowProjectile p)
  | A_isShopping v =>
      mkApp (gameState p) (isGameOver p) (isPaused p) (animating p) (isInspecting p) (isLevelingUp p) v (isTransitioning p) (arrowProjectile p)
  | A_isTransitioning v =>
      mkApp (gameState p) (isGameOver p) (isPaused p) (animating p) (isInspecting p) (isLevelingUp p) (isShopping p) v (arrowProjectile p)
  | A_arrowProjectile v =>
      mkApp (gameState p) (isGameOver p) (isPaused p) (animating p) (isInspecting p) (isLevelingUp p) (isShopping p) (isTransitioning p) v
  end.

#[global] Instance upd_Player : Upd Player PlayerProp := assign.
#[global] Instance upd_Enemy : Upd Enemy EnemyProp := assignE.
#[global] Instance upd_GameState : Upd GameState GameStateProp := assignG.
#[global] Instance upd_App : Upd App AppProp := assignA.

(** [PLAYER_CLASSES[c].stats], in the order of the literal. *)
Definition PLAYER_CLASSES (c : PlayerClass) : list PlayerProp :=
  match c with
  | Knight =>
      [ F_maxHp 120; F_hp 120; F_attack 12; F_gold 0;
        F_arrows 0; F_maxArrows 3; F_bombCount 0; F_maxBombs 3; F_potions 1; F_antidotes 0;
        F_meleeDamageBonus 2; F_arrowDamageBonus 0; F_bombDamageBonus (-15) ]
  | Ranger =>
      [ F_maxHp 100; F_hp 100; F_attack 10; F_gold 0;
        F_arrows 6; F_maxArrows 9; F_bombCount 0; F_maxBombs 3; F_potions 0; F_antidotes 1;
        F_meleeDamageBonus (-2); F_arrowDamageBonus 5; F_bombDamageBonus (-10) ]
  | Sapper =>
      [ F_maxHp 100; F_hp 100; F_attack 10; F_gold 10;
        F_arrows 0; F_maxArrows 3; F_bombCount 3; F_maxBombs 5; F_potions 1; F_antidotes 0;
        F_meleeDamageBonus 0; F_arrowDamageBonus (-5); F_bombDamageBonus 25 ]
  end.

(** [ENEMY_STYLES[t].baseXp] *)
Definition baseXp (t : EnemyType) : Z :=
  match t with
  | GOBLIN => 10
  | SLIME => 8
  | SKELETON => 12
  | SPIDER => 15
  end.

(** The properties of [{...p}], in declaration order. *)
Definition propsOf (p : Player) : list PlayerProp :=
  [ F_player_x (player_x p);
    F_player_y (player_y p);
    F_hp (hp p);
    F_maxHp (maxHp p);
    F_attack (attack p);
    F_arrows (arrows p);
    F_maxArrows (maxArrows p);
    F_bombCount (bombCount p);
    F_maxBombs (maxBombs p);
    F_potions (potions p);
    F_antidotes (antidotes p);
    F_gold (gold p);
    F_level (level p);
    F_xp (xp p);
    F_xpToNextLevel (xpToNextLevel p);
    F_playerClass (playerClass p);
    F_lastMoveDirection (lastMoveDirection p);
    F_isPoisoned (isPoisoned p);
    F_poisonStepCounter (poisonStepCounter p);
    F_meleeDamageBonus (meleeDamageBonus p);
    F_arrowDamageBonus (arrowDamageBonus p);
    F_bombDamageBonus (bombDamageBonus p);
    F_corruption (corruption p);
    F_activeAugments (activeAugments p) ].

(** ** Helpers for the array methods the component uses *)

(** [arr.findIndex(f)], [None] for -1 *)
Fixpoint findIndex {A} (f : A -> bool) (l : list A) : option nat :=
  match l with
  | [] => None
  | a :: l' => if f a then Some 0%nat else option_map S (findIndex f l')
  end.

(** A [map] whose callback also updates variables of the enclosing scope. *)
Fixpoint mapAccum {A B St} (f : St -> A -> St * B) (st : St) (l : list A)
  : St * list B :=
  match l with
  | [] => (st, [])
  | a :: l' =>
      let '(st1, b) := f st a in
      let '(st2, bs) := mapAccum f st1 l' in
      (st2, b :: bs)
  end.

(** [if (!blasts.some(p => p.x === x && p.y === y)) blasts.push({x, y})] *)
Definition pushIfAbsent (blasts : list Position) (x y : Z) : list Position :=
  if existsb (fun p => samePos (pos_x p) (pos_y p) x y) blasts then blasts
  else blasts ++ [mkPosition x y].

Definition inBlast (blasts : list Position) (x y : Z) : bool :=
  existsb (fun p => samePos (pos_x p) (pos_y p) x y) blasts.

(** [Math.floor(x / VIEWPORT_WIDTH)], [Math.floor(y / VIEWPORT_HEIGHT)] *)
Definition screenOf (x y : Z) : Position :=
  mkPosition (x / VIEWPORT_WIDTH) (y / VIEWPORT_HEIGHT).

(** [setGameState(prev => f(prev))] *)
Definition onGame (f : GameState -> GameState) : Update App :=
  UFn (fun a => a <|A_gameState (f (gameState a))|>).

(** Callbacks handed to [setTimeout].  A callback that reads [gameState]
    carries the state of the render its handler was created in. *)
Inductive Timer :=
| TUnlock                      (* animatingRef.current = false *)
| TAfterTurn (closure : GameState) (shouldExit shouldEnemiesMove : bool)
| TClearBlasts
| TAfterMelee (alive : bool)
| TScreenCross (x y : Z) (screen : Position)
| TNewLevel (closure : GameState)
| TMoveArrow (closure : GameState) (direction : Direction) (x y : Z)
| TClearHit.

Section Engine.

(** Results of services that are not part of the component:
    [generateDungeon(level)], and the double-precision value of
    [Math.floor(ENEMY_STYLES[type].baseXp * (1 + level / 10))]. *)
Variable generateDungeon : Z -> GameState.
Variable xpGained : EnemyType -> Z -> Z.

(** ** [newGame], [restartGame], [handleNextLevel] *)

Definition newGame (r : Q) (lvl : Z) (playerOverride : option (list PlayerProp))
    (a : App) : App :=
  let theme := default noTheme
                 (index THEMES (randInt (Z.of_nat (length THEMES)) r)) in
  let dungeon := generateDungeon lvl in
  let playerStats := spread (player dungeon) (default [] playerOverride) in
  a <|A_gameState (dungeon <|G_theme theme|> <|G_gs_level lvl|> <|G_player playerStats|>)|>
    <|A_isGameOver false|> <|A_isPaused false|>.

Definition restartGame (r : Q) (a : App) : App :=
  let gs := gameState a in
  let playerClass := playerClass (player gs) in
  let classDefaults := PLAYER_CLASSES playerClass in
  let retainedPlayer :=
    [ F_playerClass playerClass;
      F_level (level (player gs));
      F_maxHp (maxHp (player gs));
      F_attack (attack (player gs));
      F_gold (gold (player gs) / 2);
      F_xp 0 ]
    ++ classDefaults
    ++ [ F_corruption (corruption (player gs));
         F_activeAugments (activeAugments (player gs)) ] in
  newGame r 1 (Some retainedPlayer) a.

Definition handleNextLevel (a : App) (closure : GameState) : App * list Timer :=
  (a <|A_isTransitioning true|>, [TNewLevel closure]).

(** ** [handleEnemyDefeated] *)

Definition handleEnemyDefeated (closure : GameState) (enemy : Enemy) : Update App :=
  let gained := xpGained (enemy_type enemy) (gs_level closure) in
  UFn (fun a =>
    let prev := gameState a in
    let newPlayerState := (player prev) <|F_xp (xp (player prev) + gained)|> in
    let a1 := if xpToNextLevel newPlayerState <=? xp newPlayerState
              then a <|A_isLevelingUp true|> else a in
    a1 <|A_gameState (prev <|G_player newPlayerState|>)|>).

(** ** [processEnemyTurn] *)

(** The callback of [enemies.map]: [prev] is the state the updater received,
    the pair is [newPlayerState] and the oracle. *)
Definition enemyTurnStep (prev : GameState) (st : Player * Rng) (enemy : Enemy)
  : (Player * Rng) * Enemy :=
  let '(newPlayerState, g) := st in
  let player := player prev in
  if enemy_hp enemy <=? 0 then (st, enemy) else
  let playerScreen := screenOf (player_x player) (player_y player) in
  let enemyScreen := screenOf (enemy_x enemy) (enemy_y enemy) in
  if negb (pos_x playerScreen =? pos_x enemyScreen)
     || negb (pos_y playerScreen =? pos_y enemyScreen) then (st, enemy) else
  let dx := player_x player - enemy_x enemy in
  let dy := player_y player - enemy_y enemy in
  let '(newEx, newEy, g1) :=
    if Z.abs dx >? Z.abs dy then (enemy_x enemy + Z.sgn dx, enemy_y enemy, g)
    else if Z.abs dy >? Z.abs dx then (enemy_x enemy, enemy_y enemy + Z.sgn dy, g)
    else if negb (dx =? 0) then
      let '(r, g') := draw g in
      if gtHalf r then (enemy_x enemy + Z.sgn dx, enemy_y enemy, g')
      else (enemy_x enemy, enemy_y enemy + Z.sgn dy, g')
    else (enemy_x enemy, enemy_y enemy, g) in
  if samePos newEx newEy (player_x player) (player_y player) then
    let '(r, g2) := draw g1 in
    let corruptionBonus := 0 in
    let enemyDamage := enemy_attack enemy + corruptionBonus + randInt 3 r in
    let p1 := newPlayerState <|F_hp (hp newPlayerState - enemyDamage)|> in
    let p2 := if bool_decide (enemy_type enemy = SPIDER) && negb (isPoisoned p1)
              then p1 <|F_isPoisoned true|> <|F_poisonStepCounter 0|>
              else p1 in
    ((p2, g2), enemy)
  else
    let isWall := bool_decide (tileAt (gs_map prev) newEx newEy = Some WALL) in
    let isOccupied :=
      existsb (fun e => negb (enemy_id e =? enemy_id enemy)
                        && (enemy_x e =? newEx) && (enemy_y e =? newEy)
                        && (enemy_hp e >? 0)) (enemies prev) in
    if negb isWall && negb isOccupied
    then ((newPlayerState, g1), enemy <|E_enemy_x newEx|> <|E_enemy_y newEy|>)
    else ((newPlayerState, g1), enemy).

(** The updater of [processEnemyTurn] on the game state, with its call of
    [setIsGameOver]. *)
Definition enemyTurnState (prev : GameState) (g : Rng) : GameState * bool * Rng :=
  let '((newPlayerState, g'), updatedEnemies) :=
    mapAccum (enemyTurnStep prev) (player prev, g) (enemies prev) in
  let died := (hp newPlayerState <=? 0) && (hp (player prev) >? 0) in
  (prev <|G_enemies updatedEnemies|> <|G_player newPlayerState|>, died, g').

Definition processEnemyTurn (g : Rng) (a : App) : App * list Timer * Rng :=
  let '(s, died, g') := enemyTurnState (gameState a) g in
  let a1 := if died then a <|A_isGameOver true|> else a in
  (a1 <|A_gameState s|>, [TUnlock], g').

(** ** [processTurn] *)

(** The inner loop [for (let j = 1; j <= BOMB_RANGE; j++)] of one arm of the
    blast: [n] iterations are left, the arm stops at the first wall. *)
Fixpoint blastArm (m : GameMap) (bx by_ : Z) (i : nat) (j : Z) (n : nat)
    (blasts : list Position) : list Position :=
  match n with
  | O => blasts
  | S n' =>
      let dx := match i with 0%nat => j | 1%nat => - j | _ => 0 end in
      let dy := match i with 2%nat => j | 3%nat => - j | _ => 0 end in
      let tileX := bx + dx in
      let tileY := by_ + dy in
      if bool_decide (tileAt m tileX tileY = Some WALL) then blasts
      else blastArm m bx by_ i (j + 1) n' (pushIfAbsent blasts tileX tileY)
  end.

(** The body of [explodingBombs.forEach]. *)
Definition blastOf (m : GameMap) (blasts : list Position) (bomb : Bomb)
  : list Position :=
  let arms :=
    fold_left (fun bl i => blastArm m (bomb_x bomb) (bomb_y bomb) i 1 BOMB_RANGE bl)
              [0%nat; 1%nat; 2%nat; 3%nat] blasts in
  pushIfAbsent arms (bomb_x bomb) (bomb_y bomb).

Definition tickBomb (b : Bomb) : Bomb :=
  mkBomb (bomb_x b) (bomb_y b) (bomb_id b) (stepsRemaining b - 1).

(** [newBombs.filter(b => b.stepsRemaining <= 0)] and
    [newBombs.filter(b => b.stepsRemaining > 0)] after the decrement. *)
Definition explodingBombs (bs : list Bomb) : list Bomb :=
  filter (fun b => stepsRemaining b <= 0) (map tickBomb bs).
Definition remainingBombs (bs : list Bomb) : list Bomb :=
  filter (fun b => 0 < stepsRemaining b) (map tickBomb bs).

(** The poison block: [newPlayerState] after it. *)
Definition poisonTick (p : Player) : Player :=
  if isPoisoned p then
    let p1 := p <|F_poisonStepCounter (poisonStepCounter p + 1)|> in
    if POISON_TICK_STEPS <=? poisonStepCounter p1
    then p1 <|F_poisonStepCounter 0|> <|F_hp (hp p1 - POISON_DAMAGE)|>
    else p1
  else p.

(** The [switch (itemAtPos.type)] of the pickup. *)
Definition pickUp (lvl : Z) (t : ItemType) (p : Player) : Player :=
  match t with
  | POTION =>
      if hp p <? maxHp p then p <|F_hp (Z.min (maxHp p) (hp p + 20))|>
      else p <|F_potions (Z.min 3 (potions p + 1))|>
  | GOLD => p <|F_gold (gold p + (5 + lvl))|>
  | ARROWS => p <|F_arrows (Z.min (maxArrows p) (arrows p + 3))|>
  | BOMB => p <|F_bombCount (Z.min (maxBombs p) (bombCount p + 1))|>
  | ANTIDOTE => p <|F_antidotes (Z.min 3 (antidotes p + 1))|>
  end.

(** The hazard block. *)
Definition hazardHit (lvl : Z) (t : HazardType) (p : Player) : Player :=
  let '(damage, isInstantDeath) :=
    match t with
    | PIT => (0, true)
    | SPIKES => (5 + lvl, false)
    | FIRE => (8 + lvl, false)
    end in
  let p1 := p <|F_hp (hp p - damage)|> in
  if isInstantDeath then p1 <|F_hp 0|> else p1.

Record TurnResult := mkTurnResult
  { finalState : GameState;
    openShop : bool;
    shouldExit : bool;
    shouldEnemiesMove : bool;
    playerDied : bool;
    defeated : list Enemy }.

(** The updater of [processTurn]: the state it returns, the flags its timer
    reads, the setters it calls and the enemies it hands to
    [handleEnemyDefeated]. *)
Definition turnState (prev : GameState) (newPlayerPos : Position) : TurnResult :=
  let nx := pos_x newPlayerPos in
  let ny := pos_y newPlayerPos in
  let p0 := (player prev) <|F_player_x nx|> <|F_player_y ny|> in
  (* Poison Tick *)
  let p1 := poisonTick p0 in
  (* Bomb Detonation *)
  let exploding := explodingBombs (bombs prev) in
  let newBombs := remainingBombs (bombs prev) in
  let newActiveBlasts :=
    if bool_decide (exploding = []) then []
    else fold_left (blastOf (gs_map prev)) exploding [] in
  let bombDamage := 50 + bombDamageBonus p1 in
  let hitByBlast (enemy : Enemy) :=
    (enemy_hp enemy >? 0) && inBlast newActiveBlasts (enemy_x enemy) (enemy_y enemy) in
  let newEnemies :=
    if bool_decide (exploding = []) then enemies prev
    else map (fun enemy =>
                if hitByBlast enemy
                then enemy <|E_enemy_hp (enemy_hp enemy - bombDamage)|> <|E_isHit (Some true)|>
                else enemy) (enemies prev) in
  let killed :=
    if bool_decide (exploding = []) then []
    else List.filter (fun enemy => hitByBlast enemy && (enemy_hp enemy - bombDamage <=? 0))
                     (enemies prev) in
  let p2 :=
    if negb (bool_decide (exploding = []))
       && inBlast newActiveBlasts (player_x p1) (player_y p1)
    then p1 <|F_hp (hp p1 - bombDamage)|> else p1 in
  (* Interaction Logic *)
  let atWizard := atOpt (wizard prev) nx ny in
  let atExit := atOpt (exit prev) nx ny in
  let '(p3, picked) :=
    if atWizard || atExit then (p2, pickedUpItems prev) else
    let '(pa, picked) :=
      match List.find (fun i => samePos (item_x i) (item_y i) nx ny) (items prev) with
      | Some itemAtPos =>
          if bool_decide (itemKey itemAtPos ∈ pickedUpItems prev)
          then (p2, pickedUpItems prev)
          else (pickUp (gs_level prev) (item_type itemAtPos) p2,
                {[ itemKey itemAtPos ]} ∪ pickedUpItems prev)
      | None => (p2, pickedUpItems prev)
      end in
    match List.find (fun t => samePos (hazard_x t) (hazard_y t) nx ny) (hazards prev) with
    | Some hazardAtPos => (hazardHit (gs_level prev) (hazard_type hazardAtPos) pa, picked)
    | None => (pa, picked)
    end in
  let died := (hp p3 <=? 0) && (hp (player prev) >? 0) in
  let p4 := if died then p3 <|F_hp 0|> else p3 in
  mkTurnResult
    (prev <|G_player p4|> <|G_bombs newBombs|>
          <|G_enemies (map (fun e => e <|E_isHit (Some false)|>) newEnemies)|>
          <|G_pickedUpItems picked|> <|G_activeBlasts newActiveBlasts|>)
    atWizard
    (negb atWizard && atExit)
    (negb atWizard && negb atExit && negb died)
    died
    killed.

(** [processTurn(newPlayerPos)]: [closure] is the [gameState] of the render
    the calling handler belongs to, [a] the state its updater receives.  The
    updater runs first; the updates that [handleEnemyDefeated] queues from
    inside it follow. *)
Definition processTurn (closure : GameState) (newPlayerPos : Position) (a : App)
  : App * list Timer :=
  if animating a then (a, []) else
  let r := turnState (gameState a) newPlayerPos in
  let a1 := a <|A_animating true|> in
  let a2 := if openShop r then a1 <|A_isShopping true|> else a1 in
  let a3 := if playerDied r then a2 <|A_isGameOver true|> else a2 in
  let a4 := a3 <|A_gameState (finalState r)|> in
  (applyUpdates a4 (map (handleEnemyDefeated closure) (defeated r)),
   TAfterTurn closure (shouldExit r) (shouldEnemiesMove r)
   :: (if bool_decide (activeBlasts (finalState r) = []) then [] else [TClearBlasts])).

(** ** The input handlers *)

(** The guard that opens [handleMove] and [handleFireArrow]. *)
Definition inputLocked (a : App) : bool :=
  isGameOver a || isInspecting a || animating a
  || bool_decide (arrowProjectile a <> None)
  || isPaused a || isLevelingUp a || isShopping a || isTransitioning a.

(** [enemies.map(e => ({...e, isHit: false}))] *)
Definition clearHits (s : GameState) : GameState :=
  s <|G_enemies (map (fun e => e <|E_isHit (Some false)|>) (enemies s))|>.

Definition setLastMoveDirection (direction : Direction) : Update App :=
  onGame (fun prev =>
    prev <|G_player ((player prev) <|F_lastMoveDirection (Some direction)|>)|>).

Definition handleMove (direction : Direction) (g : Rng) (a : App)
  : App * list Timer * Rng :=
  if inputLocked a then (a, [], g) else
  let gs := gameState a in
  let aDir := applyUpdate a (setLastMoveDirection direction) in
  let '(nextX, nextY) := stepDir direction (player_x (player gs)) (player_y (player gs)) in
  if bool_decide (tileAt (gs_map gs) nextX nextY = Some WALL) then (aDir, [], g) else
  let currentScreen := camera gs in
  let nextScreen := screenOf nextX nextY in
  if negb (pos_x currentScreen =? pos_x nextScreen)
     || negb (pos_y currentScreen =? pos_y nextScreen) then
    if (0 <=? pos_x nextScreen) && (pos_x nextScreen <? WORLD_SCREENS_W)
       && (0 <=? pos_y nextScreen) && (pos_y nextScreen <? WORLD_SCREENS_H)
    then (aDir <|A_isTransitioning true|>, [TScreenCross nextX nextY nextScreen], g)
    else (aDir, [], g)
  else
  match List.find (fun enemy => (enemy_x enemy =? nextX) && (enemy_y enemy =? nextY)
                                && (enemy_hp enemy >? 0)) (enemies gs) with
  | Some enemyAtPos =>
      let newPlayerState := player gs in
      let '(r1, g1) := draw g in
      let playerDamage :=
        attack newPlayerState + meleeDamageBonus newPlayerState + randInt 5 r1 in
      match findIndex (fun e => enemy_id e =? enemy_id enemyAtPos) (enemies gs) with
      | None => (aDir, [], g)          (* not reached: enemyAtPos is in the list *)
      | Some enemyIndex =>
          let target := default enemyAtPos (enemies gs !! enemyIndex) in
          let newEnemyHp := enemy_hp target - playerDamage in
          let newEnemiesState :=
            <[enemyIndex := target <|E_enemy_hp newEnemyHp|> <|E_isHit (Some true)|>]>
              (enemies gs) in
          let '(p1, queued, g2) :=
            if newEnemyHp >? 0 then
              let '(r2, g2) := draw g1 in
              let enemyDamage := enemy_attack enemyAtPos + randInt 3 r2 in
              (newPlayerState <|F_hp (hp newPlayerState - enemyDamage)|>, [], g2)
            else (newPlayerState, [handleEnemyDefeated gs enemyAtPos], g1) in
          let dead := hp p1 <=? 0 in
          let p2 := if dead then p1 <|F_hp 0|> else p1 in
          let a1 := applyUpdates (aDir <|A_animating true|>) queued in
          let a2 := if dead then a1 <|A_isGameOver true|> else a1 in
          (applyUpdate a2 (onGame (fun prev =>
             prev <|G_player p2|> <|G_enemies newEnemiesState|>)),
           [TAfterMelee (hp p2 >? 0)], g2)
      end
  | None =>
      let '(a', timers) := processTurn gs (mkPosition nextX nextY) aDir in
      (a', timers, g)
  end.

(** One run of [moveArrow]: the arrow is at ([x], [y]) before it. *)
Definition moveArrow (closure : GameState) (direction : Direction) (x y : Z)
    (g : Rng) (a : App) : App * list Timer * Rng :=
  let '(ax, ay) := stepDir direction x y in
  let a1 := a <|A_arrowProjectile (Some (mkArrow ax ay true direction))|> in
  if bool_decide (tileAt (gs_map closure) ax ay = Some WALL)
  then (a1 <|A_arrowProjectile None|>, [], g) else
  match findIndex (fun e => (enemy_x e =? ax) && (enemy_y e =? ay) && (enemy_hp e >? 0))
                  (enemies closure) with
  | Some enemyHitIndex =>
      let '(r, g') := draw g in
      let arrowDamage :=
        (4 * (attack (player closure) + arrowDamageBonus (player closure))) / 5
        + randInt 4 r in
      let prev := gameState a1 in
      match enemies prev !! enemyHitIndex with
      | None => (a1 <|A_arrowProjectile None|>, [], g')
          (* not reached: the enemies do not change while the arrow flies *)
      | Some e =>
          let updatedEnemy :=
            e <|E_enemy_hp (enemy_hp e - arrowDamage)|> <|E_isHit (Some true)|> in
          let a2 := a1 <|A_gameState
                         (prev <|G_enemies (<[enemyHitIndex := updatedEnemy]> (enemies prev))|>)|> in
          let a3 := if enemy_hp updatedEnemy <=? 0
                    then applyUpdate a2 (handleEnemyDefeated closure updatedEnemy)
                    else a2 in
          (a3 <|A_arrowProjectile None|>, [TClearHit], g')
      end
  | None => (a1, [TMoveArrow closure direction ax ay], g)
  end.

Definition handleFireArrow (g : Rng) (a : App) : App * list Timer * Rng :=
  let player := player (gameState a) in
  match lastMoveDirection player with
  | Some direction =>
      if inputLocked a || (arrows player <=? 0) then (a, [], g) else
      let a1 := applyUpdate a (onGame (fun prev =>
                  prev <|G_player ((V1.player prev) <|F_arrows (arrows (V1.player prev) - 1)|>)|>)) in
      moveArrow (gameState a) direction (player_x player) (player_y player) g a1
  | None => (a, [], g)
  end.

(** [now] is [Date.now()]. *)
Definition handleDropBomb (now : Z) (a : App) : App :=
  let player := player (gameState a) in
  let bombs := bombs (gameState a) in
  if isGameOver a || isInspecting a || animating a || isPaused a
     || (bombCount player <=? 0) || isLevelingUp a || isShopping a || isTransitioning a
  then a else
  if existsb (fun b => samePos (bomb_x b) (bomb_y b) (player_x player) (player_y player)) bombs
  then a else
  applyUpdate a (onGame (fun prev =>
    prev <|G_player ((V1.player prev) <|F_bombCount (bombCount (V1.player prev) - 1)|>)|>
         <|G_bombs (V1.bombs prev
                    ++ [mkBomb (player_x player) (player_y player) now BOMB_FUSE_STEPS])|>)).

Definition handleUsePotion (a : App) : App :=
  let player := player (gameState a) in
  if (potions player <=? 0) || (hp player =? maxHp player) then a else
  applyUpdate a (onGame (fun prev =>
    let p := V1.player prev in
    prev <|G_player (p <|F_potions (potions p - 1)|>
                       <|F_hp (Z.min (maxHp p) (hp p + 50))|>)|>)).

Definition handleUseAntidote (a : App) : App :=
  let player := player (gameState a) in
  if (antidotes player <=? 0) || negb (isPoisoned player) then a else
  applyUpdate a (onGame (fun prev =>
    let p := V1.player prev in
    prev <|G_player (p <|F_antidotes (antidotes p - 1)|> <|F_isPoisoned false|>)|>)).

(** ** The timers *)

Definition fire (t : Timer) (g : Rng) (a : App) : App * list Timer * Rng :=
  match t with
  | TUnlock => (a <|A_animating false|>, [], g)
  | TAfterTurn closure shouldExit shouldEnemiesMove =>
      if shouldExit then let '(a', ts) := handleNextLevel a closure in (a', ts, g)
      else if shouldEnemiesMove then processEnemyTurn g a
      else (a <|A_animating false|>, [], g)
  | TClearBlasts => (a <|A_gameState ((gameState a) <|G_activeBlasts []|>)|>, [], g)
  | TAfterMelee alive =>
      let a1 := a <|A_gameState (clearHits (gameState a))|> in
      if alive then processEnemyTurn g a1 else (a1 <|A_animating false|>, [], g)
  | TScreenCross x y screen =>
      let prev := gameState a in
      (a <|A_gameState (prev <|G_player ((player prev) <|F_player_x x|> <|F_player_y y|>)|>
                             <|G_camera screen|>)|>
         <|A_isTransitioning false|>, [], g)
  | TNewLevel closure =>
      let '(r, g') := draw g in
      let retainedPlayer := propsOf (player closure) ++ [F_hp (maxHp (player closure))] in
      ((newGame r (gs_level closure + 1) (Some retainedPlayer) a) <|A_isTransitioning false|>,
       [], g')
  | TMoveArrow closure direction x y => moveArrow closure direction x y g a
  | TClearHit => (a <|A_gameState (clearHits (gameState a))|>, [], g)
  end.

(** The chain of [setTimeout(moveArrow, 60)]: up to [n] more runs of
    [moveArrow], as long as one is pending. *)
Fixpoint flyOn (n : nat) (st : App * list Timer * Rng) : App * list Timer * Rng :=
  match n, st with
  | S n', (a, [TMoveArrow closure direction x y], g) =>
      flyOn n' (moveArrow closure direction x y g a)
  | _, _ => st
  end.

(** ** [GAME_STATE] of [constants.ts] *)

Definition initialPlayer : Player :=
  spread (mkPlayer 1 1 0 0 0 0 0 0 0 0 0 0 1 0 100 Knight None false 0 0 0 0 0 [])
         (PLAYER_CLASSES Knight).

Definition GAME_STATE : GameState :=
  mkGameState
    (replicate (Z.to_nat VIEWPORT_HEIGHT) (replicate (Z.to_nat VIEWPORT_WIDTH) WALL))
    initialPlayer [] [] None None [] [] [] [] [] ∅ 1
    (default noTheme (THEMES !! 0%nat))
    (mkPosition 0 0) [].

(** ** The component as a state machine *)

(** What can happen to the component within a run: a key or button, or a
    timer that comes due. *)
Inductive Event :=
| EMove (direction : Direction)
| EFireArrow
| EDropBomb (now : Z)
| EUsePotion
| EUseAntidote
| ERestart
| ETimer (t : Timer).

Definition step (e : Event) (g : Rng) (a : App) : App * list Timer * Rng :=
  match e with
  | EMove direction => handleMove direction g a
  | EFireArrow => handleFireArrow g a
  | EDropBomb now => (handleDropBomb now a, [], g)
  | EUsePotion => (handleUsePotion a, [], g)
  | EUseAntidote => (handleUseAntidote a, [], g)
  | ERestart => let '(r, g') := draw g in (restartGame r a, [], g')
  | ETimer t => fire t g a
  end.

(** Each event comes with the draws of the oracle it may consume. *)
Definition run (evs : list (Event * Rng)) (a : App) : App :=
  fold_left (fun a '(e, g) => (step e g a).1.1) evs a.

(** The events that replace the dungeon. *)
Definition leavesLevel (e : Event) : bool :=
  match e with
  | ERestart | ETimer (TNewLevel _) => true
  | _ => false
  end.

(** The tile a move resolves a turn on: [Some] exactly when [handleMove]
    gets to its call of [processTurn], the only one in the component. *)
Definition turnOf (e : Event) (a : App) : option Position :=
  match e with
  | EMove direction =>
      let gs := gameState a in
      let '(nextX, nextY) :=
        stepDir direction (player_x (player gs)) (player_y (player gs)) in
      if inputLocked a then None
      else if bool_decide (tileAt (gs_map gs) nextX nextY = Some WALL) then None
      else if negb (pos_x (camera gs) =? pos_x (screenOf nextX nextY))
              || negb (pos_y (camera gs) =? pos_y (screenOf nextX nextY)) then None
      else match List.find (fun enemy => (enemy_x enemy =? nextX) && (enemy_y enemy =? nextY)
                                         && (enemy_hp enemy >? 0)) (enemies gs) with
           | Some _ => None
           | None => Some (mkPosition nextX nextY)
           end
  | _ => None
  end.

(** The bombs that go off in each resolved turn of a run, in order. *)
Fixpoint detonations (evs : list (Event * Rng)) (a : App) : list (list Bomb) :=
  match evs with
  | [] => []
  | (e, g) :: evs' =>
      let rest := detonations evs' (step e g a).1.1 in
      match turnOf e a with
      | Some _ => explodingBombs (bombs (gameState a)) :: rest
      | None => rest
      end
  end.

(** The tiles that hold an armed bomb, one entry per bomb. *)
Definition bombTiles (bs : list Bomb) : list (Z * Z) :=
  (fun b => (bomb_x b, bomb_y b)) <$> bs.

(** ** What one enemy decides *)

(** The tile an enemy heads for and whether the tie between the two axes
    took a draw; [r] is the draw. *)
Definition heading (player : Player) (enemy : Enemy) (r : Q) : Z * Z * bool :=
  let dx := player_x player - enemy_x enemy in
  let dy := player_y player - enemy_y enemy in
  if Z.abs dx >? Z.abs dy then (enemy_x enemy + Z.sgn dx, enemy_y enemy, false)
  else if Z.abs dy >? Z.abs dx then (enemy_x enemy, enemy_y enemy + Z.sgn dy, false)
  else if negb (dx =? 0) then
    if gtHalf r then (enemy_x enemy + Z.sgn dx, enemy_y enemy, true)
    else (enemy_x enemy, enemy_y enemy + Z.sgn dy, true)
  else (enemy_x enemy, enemy_y enemy, false).

(** The outcome of the callback of [processEnemyTurn] for one enemy: the
    enemy it returns, the damage it deals and whether it can poison, and
    whether it took a draw. *)
Record Outcome := mkOutcome
  { moved : Enemy; hit : option (Z * bool); drew : bool }.

Definition decision (prev : GameState) (enemy : Enemy) (r : Q) : Outcome :=
  let player := player prev in
  if enemy_hp enemy <=? 0 then mkOutcome enemy None false else
  if negb (pos_x (screenOf (player_x player) (player_y player))
           =? pos_x (screenOf (enemy_x enemy) (enemy_y enemy)))
     || negb (pos_y (screenOf (player_x player) (player_y player))
              =? pos_y (screenOf (enemy_x enemy) (enemy_y enemy)))
  then mkOutcome enemy None false else
  let '(newEx, newEy, tie) := heading player enemy r in
  if samePos newEx newEy (player_x player) (player_y player) then
    mkOutcome enemy
      (Some (enemy_attack enemy + 0 + randInt 3 r, bool_decide (enemy_type enemy = SPIDER)))
      true
  else
    let isWall := bool_decide (tileAt (gs_map prev) newEx newEy = Some WALL) in
    let isOccupied :=
      existsb (fun e => negb (enemy_id e =? enemy_id enemy)
                        && (enemy_x e =? newEx) && (enemy_y e =? newEy)
                        && (enemy_hp e >? 0)) (enemies prev) in
    mkOutcome (if negb isWall && negb isOccupied
                then enemy <|E_enemy_x newEx|> <|E_enemy_y newEy|> else enemy)
               None tie.

(** What a hit does to [newPlayerState]. *)
Definition applyHit (h : option (Z * bool)) (p : Player) : Player :=
  match h with
  | None => p
  | Some (damage, poisons) =>
      let p1 := p <|F_hp (hp p - damage)|> in
      if poisons && negb (isPoisoned p1)
      then p1 <|F_isPoisoned true|> <|F_poisonStepCounter 0|>
      else p1
  end.

(** ** The shop, the level-up and the class selection *)

(** An entry of [SHOP_ITEMS]. *)
Record ShopItem := mkShopItem
  { shop_name : string; shop_type : ItemType; shop_cost : Z }.

Definition SHOP_ITEMS : list ShopItem :=
  [ mkShopItem "Potion" POTION 25;
    mkShopItem "Antidote" ANTIDOTE 30;
    mkShopItem "Arrows (3)" ARROWS 15;
    mkShopItem "Bomb" BOMB 40 ].

Definition handleBuyItem (item : ShopItem) (a : App) : App :=
  if gold (player (gameState a)) <? shop_cost item then a else
  applyUpdate a (onGame (fun prev =>
    let newPlayer := (V1.player prev) <|F_gold (gold (V1.player prev) - shop_cost item)|> in
    prev <|G_player
      match shop_type item with
      | POTION => newPlayer <|F_potions (Z.min 3 (potions newPlayer + 1))|>
      | ARROWS => newPlayer <|F_arrows (Z.min (maxArrows newPlayer) (arrows newPlayer + 3))|>
      | BOMB => newPlayer <|F_bombCount (Z.min (maxBombs newPlayer) (bombCount newPlayer + 1))|>
      | ANTIDOTE => newPlayer <|F_antidotes (Z.min 3 (antidotes newPlayer + 1))|>
      | GOLD => newPlayer
      end|>)).

(** The double-precision value of
    [Math.floor(XP_BASE * Math.pow(level, XP_GROWTH_FACTOR))]. *)
Variable xpForLevel : Z -> Z.



Definition handleClassSelect (r : Q) (playerClass : PlayerClass) (a : App) : App :=
  let playerStart :=
    PLAYER_CLASSES playerClass
    ++ [F_playerClass playerClass; F_corruption 0; F_activeAugments []] in
  newGame r 1 (Some playerStart) a.

End Engine.

End V1.

(** * Stage 2: the later [App] and its constants *)

Module V2.

Definition XP_BASE : Z := 100.
Definition BOMB_FUSE_STEPS : Z := 4.
Definition BOMB_RANGE : Z := 2.
Definition POISON_TICK_STEPS : Z := 3.
Definition POISON_DAMAGE : Z := 5.

Inductive EnemyType := GOBLIN | SLIME | SKELETON | SPIDER | SLIME_MINI.
Inductive HazardType := SPIKES | FIRE | PIT | POISON.

#[global] Instance EnemyType_eq_dec : EqDecision EnemyType.
Proof. solve_decision. Defined.

Record Hazard := mkHazard { hazard_x : Z; hazard_y : Z; hazard_type : HazardType }.

Record ColorScheme := mkColorScheme
  { cs_name : string; cs_bg : string; cs_text : string; cs_wall : string;
    cs_floor : string; cs_accent1 : string; cs_accent2 : string;
    cs_doodad : string }.

(** [undefined] as a theme: [THEMES[i]] out of range. *)
Definition noTheme : ColorScheme :=
  mkColorScheme EmptyString EmptyString EmptyString EmptyString
                EmptyString EmptyString EmptyString EmptyString.

Record Player := mkPlayer
  { player_x : Z;
    player_y : Z;
    hp : Z;
    maxHp : Z;
    attack : Z;
    arrows : Z;
    maxArrows : Z;
    bombCount : Z;
    maxBombs : Z;
    potions : Z;
    antidotes : Z;
    gold : Z;
    level : Z;
    xp : Z;
    xpToNextLevel : Z;
    playerClass : PlayerClass;
    lastMoveDirection : option Direction;
    isPoisoned : bool;
    poisonStepCounter : Z;
    meleeDamageBonus : Z;
    arrowDamageBonus : Z;
    bombDamageBonus : Z;
    corruption : Z;
    activeAugments : list AugmentId;
    stepsTaken : Z }.

Inductive PlayerProp :=
| F_player_x (v : Z)
| F_player_y (v : Z)
| F_hp (v : Z)
| F_maxHp (v : Z)
| F_attack (v : Z)
| F_arrows (v : Z)
| F_maxArrows (v : Z)
| F_bombCount (v : Z)
| F_maxBombs (v : Z)
| F_potions (v : Z)
| F_antidotes (v : Z)
| F_gold (v : Z)
| F_level (v : Z)
| F_xp (v : Z)
| F_xpToNextLevel (v : Z)
| F_playerClass (v : PlayerClass)
| F_lastMoveDirection (v : option Direction)
| F_isPoisoned (v : bool)
| F_poisonStepCounter (v : Z)
| F_meleeDamageBonus (v : Z)
| F_arrowDamageBonus (v : Z)
| F_bombDamageBonus (v : Z)
| F_corruption (v : Z)
| F_activeAugments (v : list AugmentId)
| F_stepsTaken (v : Z).

(** [{...p, k: v}] for one property [k: v] of an object literal of type [Partial<Player>]. *)
Definition assign (p : Player) (a : PlayerProp) : Player :=
  match a with
  | F_player_x v =>
      mkPlayer v (player_y p) (hp p) (maxHp p) (attack p) (arrows p) (maxArrows p) (bombCount p) (maxBombs p) (potions p) (antidotes p) (gold p) (level p) (xp p) (xpToNextLevel p) (playerClass p) (lastMoveDirection p) (isPoisoned p) (poisonStepCounter p) (meleeDamageBonus p) (arrowDamageBonus p) (bombDamageBonus p) (corruption p) (activeAugments p) (stepsTaken p)
  | F_player_y v =>
      mkPlayer (player_x p) v (hp p) (maxHp p) (attack p) (arrows p) (maxArrows p) (bombCount p) (maxBombs p) (potions p) (antidotes p) (gold p) (level p) (xp p) (xpToNextLevel p) (playerClass p) (lastMoveDirection p) (isPoisoned p) (poisonStepCounter p) (meleeDamageBonus p) (arrowDamageBonus p) (bombDamageBonus p) (corruption p) (activeAugments p) (stepsTaken p)
  | F_hp v =>
      mkPlayer (player_x p) (player_y p) v (maxHp p) (attack p) (arrows p) (maxArrows p) (bombCount p) (maxBombs p) (potions p) (antidotes p) (gold p) (level p) (xp p) (xpToNextLevel p) (playerClass p) (lastMoveDirection p) (isPoisoned p) (poisonStepCounter p) (meleeDamageBonus p) (arrowDamageBonus p) (bombDamageBonus p) (corruption p) (activeAugments p) (stepsTaken p)
  | F_maxHp v =>
      mkPlayer (player_x p) (player_y p) (hp p) v (attack p) (arrows p) (maxArrows p) (bombCount p) (maxBombs p) (potions p) (antidotes p) (gold p) (level p) (xp p) (xpToNextLevel p) (playerClass p) (lastMoveDirection p) (isPoisoned p) (poisonStepCounter p) (meleeDamageBonus p) (arrowDamageBonus p) (bombDamageBonus p) (corruption p) (activeAugments p) (stepsTaken p)
  | F_attack v =>
      mkPlayer (player_x p) (player_y p) (hp p) (maxHp p) v (arrows p) (maxArrows p) (bombCount p) (maxBombs p) (potions p) (antidotes p) (gold p) (level p) (xp p) (xpToNextLevel p) (playerClass p) (lastMoveDirection p) (isPoisoned p) (poisonStepCounter p) (meleeDamageBonus p) (arrowDamageBonus p) (bombDamageBonus p) (corruption p) (activeAugments p) (stepsTaken p)
  | F_arrows v =>
      mkPlayer (player_x p) (player_y p) (hp p) (maxHp p) (attack p) v (maxArrows p) (bombCount p) (maxBombs p) (potions p) (antidotes p) (gold p) (level p) (xp p) (xpToNextLevel p) (playerClass p) (lastMoveDirection p) (isPoisoned p) (poisonStepCounter p) (meleeDamageBonus p) (arrowDamageBonus p) (bombDamageBonus p) (corruption p) (activeAugments p) (stepsTaken p)
  | F_maxArrows v =>
      mkPlayer (player_x p) (player_y p) (hp p) (maxHp p) (attack p) (arrows p) v (bombCount p) (maxBombs p) (potions p) (antidotes p) (gold p) (level p) (xp p) (xpToNextLevel p) (playerClass p) (lastMoveDirection p) (isPoisoned p) (poisonStepCounter p) (meleeDamageBonus p) (arrowDamageBonus p) (bombDamageBonus p) (corruption p) (activeAugments p) (stepsTaken p)
  | F_bombCount v =>
      mkPlayer (player_x p) (player_y p) (hp p) (maxHp p) (attack p) (arrows p) (maxArrows p) v (maxBombs p) (potions p) (antidotes p) (gold p) (level p) (xp p) (xpToNextLevel p) (playerClass p) (lastMoveDirection p) (isPoisoned p) (poisonStepCounter p) (meleeDamageBonus p) (arrowDamageBonus p) (bombDamageBonus p) (corruption p) (activeAugments p) (stepsTaken p)
  | F_maxBombs v =>
      mkPlayer (player_x p) (player_y p) (hp p) (maxHp p) (attack p) (arrows p) (maxArrows p) (bombCount p) v (potions p) (antidotes p) (gold p) (level p) (xp p) (xpToNextLevel p) (playerClass p) (lastMoveDirection p) (isPoisoned p) (poisonStepCounter p) (meleeDamageBonus p) (arrowDamageBonus p) (bombDamageBonus p) (corruption p) (activeAugments p) (stepsTaken p)
  | F_potions v =>
      mkPlayer (player_x p) (player_y p) (hp p) (maxHp p) (attack p) (arrows p) (maxArrows p) (bombCount p) (maxBombs p) v (antidotes p) (gold p) (level p) (xp p) (xpToNextLevel p) (playerClass p) (lastMoveDirection p) (isPoisoned p) (poisonStepCounter p) (meleeDamageBonus p) (arrowDamageBonus p) (bombDamageBonus p) (corruption p) (activeAugments p) (stepsTaken p)
  | F_antidotes v =>
      mkPlayer (player_x p) (player_y p) (hp p) (maxHp p) (attack p) (arrows p) (maxArrows p) (bombCount p) (maxBombs p) (potions p) v (gold p) (level p) (xp p) (xpToNextLevel p) (playerClass p) (lastMoveDirection p) (isPoisoned p) (poisonStepCounter p) (meleeDamageBonus p) (arrowDamageBonus p) (bombDamageBonus p) (corruption p) (activeAugments p) (stepsTaken p)
  | F_gold v =>
      mkPlayer (player_x p) (player_y p) (hp p) (maxHp p) (attack p) (arrows p) (maxArrows p) (bombCount p) (maxBombs p) (potions p) (antidotes p) v (level p) (xp p) (xpToNextLevel p) (playerClass p) (lastMoveDirection p) (isPoisoned p) (poisonStepCounter p) (meleeDamageBonus p) (arrowDamageBonus p) (bombDamageBonus p) (corruption p) (activeAugments p) (stepsTaken p)
  | F_level v =>
      mkPlayer (player_x p) (player_y p) (hp p) (maxHp p) (attack p) (arrows p) (maxArrows p) (bombCount p) (maxBombs p) (potions p) (antidotes p) (gold p) v (xp p) (xpToNextLevel p) (playerClass p) (lastMoveDirection p) (isPoisoned p) (poisonStepCounter p) (meleeDamageBonus p) (arrowDamageBonus p) (bombDamageBonus p) (corruption p) (activeAugments p) (stepsTaken p)
  | F_xp v =>
      mkPlayer (player_x p) (player_y p) (hp p) (maxHp p) (attack p) (arrows p) (maxArrows p) (bombCount p) (maxBombs p) (potions p) (antidotes p) (gold p) (level p) v (xpToNextLevel p) (playerClass p) (lastMoveDirection p) (isPoisoned p) (poisonStepCounter p) (meleeDamageBonus p) (arrowDamageBonus p) (bombDamageBonus p) (corruption p) (activeAugments p) (stepsTaken p)
  | F_xpToNextLevel v =>
      mkPlayer (player_x p) (player_y p) (hp p) (maxHp p) (attack p) (arrows p) (maxArrows p) (bombCount p) (maxBombs p) (potions p) (antidotes p) (gold p) (level p) (xp p) v (playerClass p) (lastMoveDirection p) (isPoisoned p) (poisonStepCounter p) (meleeDamageBonus p) (arrowDamageBonus p) (bombDamageBonus p) (corruption p) (activeAugments p) (stepsTaken p)
  | F_playerClass v =>
      mkPlayer (player_x p) (player_y p) (hp p) (maxHp p) (attack p) (arrows p) (maxArrows p) (bombCount p) (maxBombs p) (potions p) (antidotes p) (gold p) (level p) (xp p) (xpToNextLevel p) v (lastMoveDirection p) (isPoisoned p) (poisonStepCounter p) (meleeDamageBonus p) (arrowDamageBonus p) (bombDamageBonus p) (corruption p) (activeAugments p) (stepsTaken p)
  | F_lastMoveDirection v =>
      mkPlayer (player_x p) (player_y p) (hp p) (maxHp p) (attack p) (arrows p) (maxArrows p) (bombCount p) (maxBombs p) (potions p) (antidotes p) (gold p) (level p) (xp p) (xpToNextLevel p) (playerClass p) v (isPoisoned p) (poisonStepCounter p) (meleeDamageBonus p) (arrowDamageBonus p) (bombDamageBonus p) (corruption p) (activeAugments p) (stepsTaken p)
  | F_isPoisoned v =>
      mkPlayer (player_x p) (player_y p) (hp p) (maxHp p) (attack p) (arrows p) (maxArrows p) (bombCount p) (maxBombs p) (potions p) (antidotes p) (gold p) (level p) (xp p) (xpToNextLevel p) (playerClass p) (lastMoveDirection p) v (poisonStepCounter p) (meleeDamageBonus p) (arrowDamageBonus p) (bombDamageBonus p) (corruption p) (activeAugments p) (stepsTaken p)
  | F_poisonStepCounter v =>
      mkPlayer (player_x p) (player_y p) (hp p) (maxHp p) (attack p) (arrows p) (maxArrows p) (bombCount p) (maxBombs p) (potions p) (antidotes p) (gold p) (level p) (xp p) (xpToNextLevel p) (playerClass p) (lastMoveDirection p) (isPoisoned p) v (meleeDamageBonus p) (arrowDamageBonus p) (bombDamageBonus p) (corruption p) (activeAugments p) (stepsTaken p)
  | F_meleeDamageBonus v =>
      mkPlayer (player_x p) (player_y p) (hp p) (maxHp p) (attack p) (arrows p) (maxArrows p) (bombCount p) (maxBombs p) (potions p) (antidotes p) (gold p) (level p) (xp p) (xpToNextLevel p) (playerClass p) (lastMoveDirection p) (isPoisoned p) (poisonStepCounter p) v (arrowDamageBonus p) (bombDamageBonus p) (corruption p) (activeAugments p) (stepsTaken p)
  | F_arrowDamageBonus v =>
      mkPlayer (player_x p) (player_y p) (hp p) (maxHp p) (attack p) (arrows p) (maxArrows p) (bombCount p) (maxBombs p) (potions p) (antidotes p) (gold p) (level p) (xp p) (xpToNextLevel p) (playerClass p) (lastMoveDirection p) (isPoisoned p) (poisonStepCounter p) (meleeDamageBonus p) v (bombDamageBonus p) (corruption p) (activeAugments p) (stepsTaken p)
  | F_bombDamageBonus v =>
      mkPlayer (player_x p) (player_y p) (hp p) (maxHp p) (attack p) (arrows p) (maxArrows p) (bombCount p) (maxBombs p) (potions p) (antidotes p) (gold p) (level p) (xp p) (xpToNextLevel p) (playerClass p) (lastMoveDirection p) (isPoisoned p) (poisonStepCounter p) (meleeDamageBonus p) (arrowDamageBonus p) v (corruption p) (activeAugments p) (stepsTaken p)
  | F_corruption v =>
      mkPlayer (player_x p) (player_y p) (hp p) (maxHp p) (attack p) (arrows p) (maxArrows p) (bombCount p) (maxBombs p) (potions p) (antidotes p) (gold p) (level p) (xp p) (xpToNextLevel p) (playerClass p) (lastMoveDirection p) (isPoisoned p) (poisonStepCounter p) (meleeDamageBonus p) (arrowDamageBonus p) (bombDamageBonus p) v (activeAugments p) (stepsTaken p)
  | F_activeAugments v =>
      mkPlayer (player_x p) (player_y p) (hp p) (maxHp p) (attack p) (arrows p) (maxArrows p) (bombCount p) (maxBombs p) (potions p) (antidotes p) (gold p) (level p) (xp p) (xpToNextLevel p) (playerClass p) (lastMoveDirection p) (isPoisoned p) (poisonStepCounter p) (meleeDamageBonus p) (arrowDamageBonus p) (bombDamageBonus p) (corruption p) v (stepsTaken p)
  | F_stepsTaken v =>
      mkPlayer (player_x p) (player_y p) (hp p) (maxHp p) (attack p) (arrows p) (maxArrows p) (bombCount p) (maxBombs p) (potions p) (antidotes p) (gold p) (level p) (xp p) (xpToNextLevel p) (playerClass p) (lastMoveDirection p) (isPoisoned p) (poisonStepCounter p) (meleeDamageBonus p) (arrowDamageBonus p) (bombDamageBonus p) (corruption p) (activeAugments p) v
  end.

Record Enemy := mkEnemy
  { enemy_x : Z;
    enemy_y : Z;
    enemy_id : Z;
    enemy_type : EnemyType;
    enemy_hp : Z;
    enemy_attack : Z;
    isHit : option bool }.

Inductive EnemyProp :=
| E_enemy_x (v : Z)
| E_enemy_y (v : Z)
| E_enemy_id (v : Z)
| E_enemy_type (v : EnemyType)
| E_enemy_hp (v : Z)
| E_enemy_attack (v : Z)
| E_isHit (v : option bool).

(** [{...e, k: v}] on an enemy. *)
Definition assignE (p : Enemy) (a : EnemyProp) : Enemy :=
  match a with
  | E_enemy_x v =>
      mkEnemy v (enemy_y p) (enemy_id p) (enemy_type p) (enemy_hp p) (enemy_attack p) (isHit p)
  | E_enemy_y v =>
      mkEnemy (enemy_x p) v (enemy_id p) (enemy_type p) (enemy_hp p) (enemy_attack p) (isHit p)
  | E_enemy_id v =>
      mkEnemy (enemy_x p) (enemy_y p) v (enemy_type p) (enemy_hp p) (enemy_attack p) (isHit p)
  | E_enemy_type v =>
      mkEnemy (enemy_x p) (enemy_y p) (enemy_id p) v (enemy_hp p) (enemy_attack p) (isHit p)
  | E_enemy_hp v =>
      mkEnemy (enemy_x p) (enemy_y p) (enemy_id p) (enemy_type p) v (enemy_attack p) (isHit p)
  | E_enemy_attack v =>
      mkEnemy (enemy_x p) (enemy_y p) (enemy_id p) (enemy_type p) (enemy_hp p) v (isHit p)
  | E_isHit v =>
      mkEnemy (enemy_x p) (enemy_y p) (enemy_id p) (enemy_type p) (enemy_hp p) (enemy_attack p) v
  end.

Record GameState := mkGameState
  { gs_map : GameMap;
    player : Player;
    enemies : list Enemy;
    items : list Item;
    exit : option Position;
    wizard : option Position;
    hazards : list Hazard;
    doodads : list Doodad;
    bombs : list Bomb;
    activeBlasts : list Position;
    damageNumbers : list DamageNumber;
    pickedUpItems : gset ItemKey;
    gs_level : Z;
    theme : ColorScheme;
    camera : Position;
    altars : list Position }.

Inductive GameStateProp :=
| G_gs_map (v : GameMap)
| G_player (v : Player)
| G_enemies (v : list Enemy)
| G_items (v : list Item)
| G_exit (v : option Position)
| G_wizard (v : option Position)
| G_hazards (v : list Hazard)
| G_doodads (v : list Doodad)
| G_bombs (v : list Bomb)
| G_activeBlasts (v : list Position)
| G_damageNumbers (v : list DamageNumber)
| G_pickedUpItems (v : gset ItemKey)
| G_gs_level (v : Z)
| G_theme (v : ColorScheme)
| G_camera (v : Position)
| G_altars (v : list Position).

(** [{...s, k: v}] on the game state. *)
Definition assignG (p : GameState) (a : GameStateProp) : GameState :=
  match a with
  | G_gs_map v =>
      mkGameState v (player p) (enemies p) (items p) (exit p) (wizard p) (hazards p) (doodads p) (bombs p) (activeBlasts p) (damageNumbers p) (pickedUpItems p) (gs_level p) (theme p) (camera p) (altars p)
  | G_player v =>
      mkGameState (gs_map p) v (enemies p) (items p) (exit p) (wizard p) (hazards p) (doodads p) (bombs p) (activeBlasts p) (damageNumbers p) (pickedUpItems p) (gs_level p) (theme p) (camera p) (altars p)
  | G_enemies v =>
      mkGameState (gs_map p) (player p) v (items p) (exit p) (wizard p) (hazards p) (doodads p) (bombs p) (activeBlasts p) (damageNumbers p) (pickedUpItems p) (gs_level p) (theme p) (camera p) (altars p)
  | G_items v =>
      mkGameState (gs_map p) (player p) (enemies p) v (exit p) (wizard p) (hazards p) (doodads p) (bombs p) (activeBlasts p) (damageNumbers p) (pickedUpItems p) (gs_level p) (theme p) (camera p) (altars p)
  | G_exit v =>
      mkGameState (gs_map p) (player p) (enemies p) (items p) v (wizard p) (hazards p) (doodads p) (bombs p) (activeBlasts p) (damageNumbers p) (pickedUpItems p) (gs_level p) (theme p) (camera p) (altars p)
  | G_wizard v =>
      mkGameState (gs_map p) (player p) (enemies p) (items p) (exit p) v (hazards p) (doodads p) (bombs p) (activeBlasts p) (damageNumbers p) (pickedUpItems p) (gs_level p) (theme p) (camera p) (altars p)
  | G_hazards v =>
      mkGameState (gs_map p) (player p) (enemies p) (items p) (exit p) (wizard p) v (doodads p) (bombs p) (activeBlasts p) (damageNumbers p) (pickedUpItems p) (gs_level p) (theme p) (camera p) (altars p)
  | G_doodads v =>
      mkGameState (gs_map p) (player p) (enemies p) (items p) (exit p) (wizard p) (hazards p) v (bombs p) (activeBlasts p) (damageNumbers p) (pickedUpItems p) (gs_level p) (theme p) (camera p) (altars p)
  | G_bombs v =>
      mkGameState (gs_map p) (player p) (enemies p) (items p) (exit p) (wizard p) (hazards p) (doodads p) v (activeBlasts p) (damageNumbers p) (pickedUpItems p) (gs_level p) (theme p) (camera p) (altars p)
  | G_activeBlasts v =>
      mkGameState (gs_map p) (player p) (enemies p) (items p) (exit p) (wizard p) (hazards p) (doodads p) (bombs p) v (damageNumbers p) (pickedUpItems p) (gs_level p) (theme p) (camera p) (altars p)
  | G_damageNumbers v =>
      mkGameState (gs_map p) (player p) (enemies p) (items p) (exit p) (wizard p) (hazards p) (doodads p) (bombs p) (activeBlasts p) v (pickedUpItems p) (gs_level p) (theme p) (camera p) (altars p)
  | G_pickedUpItems v =>
      mkGameState (gs_map p) (player p) (enemies p) (items p) (exit p) (wizard p) (hazards p) (doodads p) (bombs p) (activeBlasts p) (damageNumbers p) v (gs_level p) (theme p) (camera p) (altars p)
  | G_gs_level v =>
      mkGameState (gs_map p) (player p) (enemies p) (items p) (exit p) (wizard p) (hazards p) (doodads p) (bombs p) (activeBlasts p) (damageNumbers p) (pickedUpItems p) v (theme p) (camera p) (altars p)
  | G_theme v =>
      mkGameState (gs_map p) (player p) (enemies p) (items p) (exit p) (wizard p) (hazards p) (doodads p) (bombs p) (activeBlasts p) (damageNumbers p) (pickedUpItems p) (gs_level p) v (camera p) (altars p)
  | G_camera v =>
      mkGameState (gs_map p) (player p) (enemies p) (items p) (exit p) (wizard p) (hazards p) (doodads p) (bombs p) (activeBlasts p) (damageNumbers p) (pickedUpItems p) (gs_level p) (theme p) v (altars p)
  | G_altars v =>
      mkGameState (gs_map p) (player p) (enemies p) (items p) (exit p) (wizard p) (hazards p) (doodads p) (bombs p) (activeBlasts p) (damageNumbers p) (pickedUpItems p) (gs_level p) (theme p) (camera p) v
  end.

Record App := mkApp
  { gameState : GameState;
    isGameOver : bool;
    isPaused : bool;
    animating : bool;
    isInspecting : bool;
    isLevelingUp : bool;
    isShopping : bool;
    isTransitioning : bool;
    arrowProjectile : option ArrowProjectile }.

Inductive AppProp :=
| A_gameState (v : GameState)
| A_isGameOver (v : bool)
| A_isPaused (v : bool)
| A_animating (v : bool)
| A_isInspecting (v : bool)
| A_isLevelingUp (v : bool)
| A_isShopping (v : bool)
| A_isTransitioning (v : bool)
| A_arrowProjectile (v : option ArrowProjectile).

(** One React state setter of the component: the game state, the modal flags,
    [animatingRef.current] and the arrow in flight. *)
Definition assignA (p : App) (a : AppProp) : App :=
  match a with
  | A_gameState v =>
      mkApp v (isGameOver p) (isPaused p) (animating p) (isInspecting p) (isLevelingUp p) (isShopping p) (isTransitioning p) (arrowProjectile p)
  | A_isGameOver v =>
      mkApp (gameState p) v (isPaused p) (animating p) (isInspecting p) (isLevelingUp p) (isShopping p) (isTransitioning p) (arrowProjectile p)
  | A_isPaused v =>
      mkApp (gameState p) (isGameOver p) v (animating p) (isInspecting p) (isLevelingUp p) (isShopping p) (isTransitioning p) (arrowProjectile p)
  | A_animating v =>
      mkApp (gameState p) (isGameOver p) (isPaused p) v (isInspecting p) (isLevelingUp p) (isShopping p) (isTransitioning p) (arrowProjectile p)
  | A_isInspecting v =>
      mkApp (gameState p) (isGameOver p) (isPaused p) (animating p) v (isLevelingUp p) (isShopping p) (isTransitioning p) (arrowProjectile p)
  | A_isLevelingUp v =>
      mkApp (gameState p) (isGameOver p) (isPaused p) (animating p) (isInspecting p) v (isShopping p) (isTransitioning p) (arrowProjectile p)
  | A_isShopping v =>
      mkApp (gameState p) (isGameOver p) (isPaused p) (animating p) (isInspecting p) (isLevelingUp p) v (isTransitioning p) (arrowProjectile p)
  | A_isTransitioning v =>
      mkApp (gameState p) (isGameOver p) (isPaused p) (animating p) (isInspecting p) (isLevelingUp p) (isShopping p) v (arrowProjectile p)
  | A_arrowProjectile v =>
      mkApp (gameState p) (isGameOver p) (isPaused p) (animating p) (isInspecting p) (isLevelingUp p) (isShopping p) (isTransitioning p) v
  end.

#[global] Instance upd_Player : Upd Player PlayerProp := assign.
#[global] Instance upd_Enemy : Upd Enemy EnemyProp := assignE.
#[global] Instance upd_GameState : Upd GameState GameStateProp := assignG.
#[global] Instance upd_App : Upd App AppProp := assignA.

(** A key [k] of a numeric property of the player, for [newPlayer[k]]. *)
Inductive Stat :=
| S_player_x
| S_player_y
| S_hp
| S_maxHp
| S_attack
| S_arrows
| S_maxArrows
| S_bombCount
| S_maxBombs
| S_potions
| S_antidotes
| S_gold
| S_level
| S_xp
| S_xpToNextLevel
| S_poisonStepCounter
| S_meleeDamageBonus
| S_arrowDamageBonus
| S_bombDamageBonus
| S_corruption
| S_stepsTaken.

Definition getStat (k : Stat) (p : Player) : Z :=
  match k with
  | S_player_x => player_x p
  | S_player_y => player_y p
  | S_hp => hp p
  | S_maxHp => maxHp p
  | S_attack => attack p
  | S_arrows => arrows p
  | S_maxArrows => maxArrows p
  | S_bombCount => bombCount p
  | S_maxBombs => maxBombs p
  | S_potions => potions p
  | S_antidotes => antidotes p
  | S_gold => gold p
  | S_level => level p
  | S_xp => xp p
  | S_xpToNextLevel => xpToNextLevel p
  | S_poisonStepCounter => poisonStepCounter p
  | S_meleeDamageBonus => meleeDamageBonus p
  | S_arrowDamageBonus => arrowDamageBonus p
  | S_bombDamageBonus => bombDamageBonus p
  | S_corruption => corruption p
  | S_stepsTaken => stepsTaken p
  end.

Definition setStat (k : Stat) (v : Z) : PlayerProp :=
  match k with
  | S_player_x => F_player_x v
  | S_player_y => F_player_y v
  | S_hp => F_hp v
  | S_maxHp => F_maxHp v
  | S_attack => F_attack v
  | S_arrows => F_arrows v
  | S_maxArrows => F_maxArrows v
  | S_bombCount => F_bombCount v
  | S_maxBombs => F_maxBombs v
  | S_potions => F_potions v
  | S_antidotes => F_antidotes v
  | S_gold => F_gold v
  | S_level => F_level v
  | S_xp => F_xp v
  | S_xpToNextLevel => F_xpToNextLevel v
  | S_poisonStepCounter => F_poisonStepCounter v
  | S_meleeDamageBonus => F_meleeDamageBonus v
  | S_arrowDamageBonus => F_arrowDamageBonus v
  | S_bombDamageBonus => F_bombDamageBonus v
  | S_corruption => F_corruption v
  | S_stepsTaken => F_stepsTaken v
  end.

(** The properties of [{...p}], in declaration order. *)
Definition propsOf (p : Player) : list PlayerProp :=
  [ F_player_x (player_x p);
    F_player_y (player_y p);
    F_hp (hp p);
    F_maxHp (maxHp p);
    F_attack (attack p);
    F_arrows (arrows p);
    F_maxArrows (maxArrows p);
    F_bombCount (bombCount p);
    F_maxBombs (maxBombs p);
    F_potions (potions p);
    F_antidotes (antidotes p);
    F_gold (gold p);
    F_level (level p);
    F_xp (xp p);
    F_xpToNextLevel (xpToNextLevel p);
    F_playerClass (playerClass p);
    F_lastMoveDirection (lastMoveDirection p);
    F_isPoisoned (isPoisoned p);
    F_poisonStepCounter (poisonStepCounter p);
    F_meleeDamageBonus (meleeDamageBonus p);
    F_arrowDamageBonus (arrowDamageBonus p);
    F_bombDamageBonus (bombDamageBonus p);
    F_corruption (corruption p);
    F_activeAugments (activeAugments p);
    F_stepsTaken (stepsTaken p) ].

(** ** Helpers *)

(** [setGameState(prev => f(prev))] and [setGameState(v)] *)
Definition onGame (f : GameState -> GameState) : Update App :=
  UFn (fun a => a <|A_gameState (f (gameState a))|>).
Definition setGame (v : GameState) : Update App :=
  UFn (fun a => a <|A_gameState v|>).

(** The integers [lo], [lo + 1], ..., [lo + n - 1] of a counting loop. *)
Definition zrange (lo : Z) (n : nat) : list Z :=
  map (fun i => lo + Z.of_nat i) (seq 0 n).

(** A loop whose body may throw and otherwise appends to one array. *)
Fixpoint collect {A B} (f : A -> option (list B)) (l : list A) : option (list B) :=
  match l with
  | [] => Some []
  | a :: l' =>
      match f a with
      | None => None
      | Some bs => option_map (app bs) (collect f l')
      end
  end.

Definition inBlast (blasts : list Position) (x y : Z) : bool :=
  existsb (fun b => samePos (pos_x b) (pos_y b) x y) blasts.

(** An effect of an altar: [{type: 'stat', stat, value, corruption?}] or
    [{type: 'augment', augmentId, corruption?}]. *)
Inductive AltarEffect :=
| StatEffect (stat : Stat) (value : Z) (effectCorruption : option Z)
| AugmentEffect (augmentId : AugmentId) (effectCorruption : option Z).

(** [effect.corruption || 10] *)
Definition corruptionGained (e : AltarEffect) : Z :=
  match e with
  | StatEffect _ _ (Some c) | AugmentEffect _ (Some c) => if c =? 0 then 10 else c
  | _ => 10
  end.

Inductive Timer :=
| TClearBlasts
| TClearHitOf (id : Z)
| TNewLevel (closure : GameState)
| TArrowTick.

Section Engine.

(** What the component imports from files that are not part of the sources:
    [generateDungeon], the value of
    [Math.floor(ENEMY_DATA[type].baseXp * (1 + level / 10))], and the data
    tables.  Of [ENEMY_DATA] the component reads [canPoison], whether
    [onDeath] is ['split'], and the entry [SLIME_MINI] that it spreads into a
    new enemy; of [AUGMENTS] the entries of [onAcquire] ([None]: no such
    augment). *)
Variable generateDungeon : Z -> GameState.
Variable xpGained : EnemyType -> Z -> Z.
Variable PLAYER_CLASSES : PlayerClass -> list PlayerProp.
Variable canPoison : EnemyType -> bool.
Variable splitsOnDeath : EnemyType -> bool.
Variable SLIME_MINI_DATA : Enemy.
Variable VIEWPORT_WIDTH VIEWPORT_HEIGHT : Z.
Variable THEMES : list ColorScheme.
Variable ALTAR_EFFECTS : list AltarEffect.
Variable AUGMENTS : AugmentId -> option (list (Stat * Z)).

(** ** [newGame], [restartGame], [handleNextLevel] *)

Definition newGame (r : Q) (lvl : Z) (playerOverride : option (list PlayerProp))
    (a : App) : App :=
  let theme := default noTheme
                 (index THEMES (randInt (Z.of_nat (length THEMES)) r)) in
  let dungeon := generateDungeon lvl in
  let playerStats := spread (player dungeon) (default [] playerOverride) in
  a <|A_gameState (dungeon <|G_theme theme|> <|G_gs_level lvl|> <|G_player playerStats|>)|>
    <|A_isGameOver false|> <|A_isPaused false|>.

Definition restartGame (r : Q) (a : App) : App :=
  let gs := gameState a in
  let playerClass := playerClass (player gs) in
  let classDefaults := PLAYER_CLASSES playerClass in
  let retainedPlayer :=
    [ F_playerClass playerClass;
      F_level (level (player gs));
      F_maxHp (maxHp (player gs));
      F_attack (attack (player gs));
      F_gold (gold (player gs) / 2);
      F_xp 0 ]
    ++ classDefaults
    ++ [ F_corruption (corruption (player gs));
         F_activeAugments (activeAugments (player gs)) ] in
  newGame r 1 (Some retainedPlayer) a.

Definition handleNextLevel (a : App) (closure : GameState) : App * list Timer :=
  (a <|A_isTransitioning true|>, [TNewLevel closure]).

(** ** [handleEnemyDefeated] *)

(** [now] is [Date.now()].  The updater pushes onto [prev.enemies] itself;
    every caller queues a [setGameState(v)] behind it whose [v] was built
    from copies of that array. *)
Definition handleEnemyDefeated (closure : GameState) (now : Z) (enemy : Enemy)
  : Update App :=
  let gained := xpGained (enemy_type enemy) (gs_level closure) in
  UFn (fun a =>
    let prev := gameState a in
    let newEnemies :=
      if splitsOnDeath (enemy_type enemy) then
        enemies prev
        ++ [ SLIME_MINI_DATA <|E_enemy_id now|>
               <|E_enemy_x (enemy_x enemy)|> <|E_enemy_y (enemy_y enemy)|>;
             SLIME_MINI_DATA <|E_enemy_id (now + 1)|>
               <|E_enemy_x (enemy_x enemy + 1)|> <|E_enemy_y (enemy_y enemy)|> ]
      else enemies prev in
    let newPlayerState := (player prev) <|F_xp (xp (player prev) + gained)|> in
    let a1 := if xpToNextLevel newPlayerState <=? xp newPlayerState
              then a <|A_isLevelingUp true|> else a in
    a1 <|A_gameState (prev <|G_player newPlayerState|> <|G_enemies newEnemies|>)|>).

(** ** The consumables *)

Definition usePotion (a : App) : App :=
  let p := player (gameState a) in
  if existsb (String.eqb "IRON_WILL") (activeAugments p) then a else
  if (potions p >? 0) && (hp p <? maxHp p) then
    applyUpdate a (onGame (fun prev =>
      let q := player prev in
      (* Math.floor(maxHp * 0.5) *)
      let healAmount := maxHp q / 2 in
      let newHp := Z.min (maxHp q) (hp q + healAmount) in
      prev <|G_player (q <|F_hp newHp|> <|F_potions (potions q - 1)|>)|>))
  else a.

Definition useAntidote (a : App) : App :=
  let p := player (gameState a) in
  if (antidotes p >? 0) && isPoisoned p then
    applyUpdate a (onGame (fun prev =>
      let q := player prev in
      prev <|G_player (q <|F_isPoisoned false|> <|F_poisonStepCounter 0|>
                         <|F_antidotes (antidotes q - 1)|>)|>))
  else a.

(** [now] is [Date.now()]. *)
Definition placeBomb (now : Z) (a : App) : App :=
  if bombCount (player (gameState a)) >? 0 then
    applyUpdate a (onGame (fun prev =>
      let q := player prev in
      prev <|G_player (q <|F_bombCount (bombCount q - 1)|>)|>
           <|G_bombs (bombs prev
                      ++ [mkBomb (player_x q) (player_y q) now BOMB_FUSE_STEPS])|>))
  else a.

Definition fireArrow (a : App) : App :=
  let p := player (gameState a) in
  match lastMoveDirection p with
  | Some direction =>
      if arrows p >? 0 then
        (applyUpdate a (onGame (fun prev =>
           prev <|G_player ((player prev) <|F_arrows (arrows (player prev) - 1)|>)|>)))
          <|A_arrowProjectile (Some (mkArrow (player_x p) (player_y p) true direction))|>
          <|A_animating true|>
      else a
  | None => a
  end.

(** ** [processAugmentEffects] *)

Definition processAugmentEffects (playerState : Player) : Player :=
  if existsb (String.eqb "CORRUPTED_BLOOD") (activeAugments playerState)
     && (Z.rem (stepsTaken playerState) 25 =? 0) && (stepsTaken playerState >? 0)
  then
    let p1 := playerState <|F_maxHp (Z.max 1 (maxHp playerState - 1))|> in
    p1 <|F_hp (Z.min (hp p1) (maxHp p1))|>
  else playerState.

(** ** [processEnemyTurn] *)

Record EnemyLoop := mkEnemyLoop
  { newEnemies : list Enemy;
    newPlayer : Player;
    playerTookDamage : bool;
    oracle : Rng }.

(** The callback of [newEnemies.forEach]; it reads and writes [newEnemies]
    and [newPlayer].  [None]: [currentState.map[newY]] is [undefined]. *)
Definition enemyTurnStep (currentState : GameState) (st : EnemyLoop)
    (enemy : Enemy) (index : nat) : option EnemyLoop :=
  let dx := player_x (newPlayer st) - enemy_x enemy in
  let dy := player_y (newPlayer st) - enemy_y enemy in
  let '(newX, newY) :=
    if Z.abs dx >? Z.abs dy then (enemy_x enemy + Z.sgn dx, enemy_y enemy)
    else (enemy_x enemy, enemy_y enemy + Z.sgn dy) in
  if samePos newX newY (player_x (newPlayer st)) (player_y (newPlayer st)) then
    let damage := Z.max 1 (enemy_attack enemy) in
    let p1 := (newPlayer st) <|F_hp (hp (newPlayer st) - damage)|> in
    if canPoison (enemy_type enemy) then
      let '(r, g') := draw (oracle st) in
      let p2 := if ltThreeTenths r then p1 <|F_isPoisoned true|> else p1 in
      Some (mkEnemyLoop (newEnemies st) p2 true g')
    else Some (mkEnemyLoop (newEnemies st) p1 true (oracle st))
  else
    match tileAtStrict (gs_map currentState) newX newY with
    | None => None
    | Some tile =>
        if bool_decide (tile = Some FLOOR)
           && negb (existsb (fun e => samePos (enemy_x e) (enemy_y e) newX newY)
                            (newEnemies st))
        then Some (mkEnemyLoop
                     (<[index := enemy <|E_enemy_x newX|> <|E_enemy_y newY|>]> (newEnemies st))
                     (newPlayer st) (playerTookDamage st) (oracle st))
        else Some st
    end.

(** [forEach] from [index] on: the callback receives the element that is in
    the array when its turn comes. *)
Fixpoint enemyLoop (currentState : GameState) (n : nat) (index : nat)
    (st : EnemyLoop) : option EnemyLoop :=
  match n with
  | O => Some st
  | S n' =>
      match newEnemies st !! index with
      | None => Some st
      | Some enemy =>
          match enemyTurnStep currentState st enemy index with
          | None => None
          | Some st' => enemyLoop currentState n' (S index) st'
          end
      end
  end.

(** What a call computes before it returns or throws: the calls of
    [setIsGameOver(true)], the enemies handed to [handleEnemyDefeated], the
    oracle, and the state it returns ([None]: it threw). *)
Record TurnOut := mkTurnOut
  { gameOverSet : bool;
    defeated : list Enemy;
    oracleAfter : Rng;
    returned : option GameState }.

Definition processEnemyTurn (currentState : GameState) (g : Rng)
  : bool * Rng * option GameState :=
  match enemyLoop currentState (length (enemies currentState)) 0
          (mkEnemyLoop (enemies currentState) (player currentState) false g) with
  | None => (false, g, None)
  | Some st =>
      (playerTookDamage st && (hp (newPlayer st) <=? 0), oracle st,
       Some (currentState <|G_player (newPlayer st)|> <|G_enemies (newEnemies st)|>))
  end.

(** ** [processTurn] *)

(** One pass of the two [for] loops around a bomb for the cell ([x], [y]).
    [None]: [newState.map[0]] is [undefined].  [Math.sqrt] of a sum of two
    squares is at most [BOMB_RANGE] exactly when the sum is at most its
    square. *)
Definition blastCell (m : GameMap) (bomb : Bomb) (y x : Z) : option (list Position) :=
  if x <? 0 then Some [] else
  match m with
  | [] => None
  | row0 :: _ =>
      if (x <? Z.of_nat (length row0)) && (0 <=? y) && (y <? Z.of_nat (length m))
         && ((x - bomb_x bomb) * (x - bomb_x bomb) + (y - bomb_y bomb) * (y - bomb_y bomb)
             <=? BOMB_RANGE * BOMB_RANGE)
      then Some [mkPosition x y] else Some []
  end.

Definition blastOf (m : GameMap) (bomb : Bomb) : option (list Position) :=
  collect (fun y =>
    collect (blastCell m bomb y)
            (zrange (bomb_x bomb - BOMB_RANGE) (Z.to_nat (2 * BOMB_RANGE + 1))))
    (zrange (bomb_y bomb - BOMB_RANGE) (Z.to_nat (2 * BOMB_RANGE + 1))).

(** The loop [for (const bomb of newState.bombs)]: [newBombs] and
    [newBlasts]. *)
Fixpoint bombTicking (m : GameMap) (bs : list Bomb)
  : option (list Bomb * list Position) :=
  match bs with
  | [] => Some ([], [])
  | bomb :: bs' =>
      let newSteps := stepsRemaining bomb - 1 in
      if newSteps >? 0 then
        match bombTicking m bs' with
        | None => None
        | Some (nb, bl) =>
            Some (mkBomb (bomb_x bomb) (bomb_y bomb) (bomb_id bomb) newSteps :: nb, bl)
        end
      else
        match blastOf m bomb with
        | None => None
        | Some cells =>
            match bombTicking m bs' with
            | None => None
            | Some (nb, bl) => Some (nb, cells ++ bl)
            end
        end
  end.

(** The poison block: the player after it. *)
Definition poisonTick (p : Player) : Player :=
  if isPoisoned p then
    let newCounter := poisonStepCounter p + 1 in
    if POISON_TICK_STEPS <=? newCounter
    then p <|F_hp (hp p - POISON_DAMAGE)|> <|F_poisonStepCounter 0|>
    else p <|F_poisonStepCounter newCounter|>
  else p.

Definition processTurn (gameState : GameState) (newPlayerPos : Position) (g : Rng)
  : TurnOut :=
  let p0 := (player gameState)
              <|F_player_x (pos_x newPlayerPos)|> <|F_player_y (pos_y newPlayerPos)|>
              <|F_stepsTaken (stepsTaken (player gameState) + 1)|> in
  let p1 := processAugmentEffects p0 in
  (* Bomb Ticking *)
  match bombTicking (gs_map gameState) (bombs gameState) with
  | None => mkTurnOut false [] g None
  | Some (newBombs, newBlasts) =>
      (* Apply blast damage *)
      let hasBlast := negb (bool_decide (newBlasts = [])) in
      let bombDamage := 20 + bombDamageBonus p1 in
      let blown := fun enemy : Enemy => inBlast newBlasts (enemy_x enemy) (enemy_y enemy) in
      let enemies1 :=
        if hasBlast then List.filter (fun e => negb (blown e)) (enemies gameState)
        else enemies gameState in
      let killed :=
        if hasBlast then List.filter blown (enemies gameState) else [] in
      let playerHit := hasBlast && inBlast newBlasts (player_x p1) (player_y p1) in
      let p2 := if playerHit then p1 <|F_hp (hp p1 - bombDamage)|> else p1 in
      let over1 := playerHit && (hp p2 <=? 0) in
      (* Poison *)
      let p3 := poisonTick p2 in
      let over2 := isPoisoned p2 && (POISON_TICK_STEPS <=? poisonStepCounter p2 + 1)
                   && (hp p3 <=? 0) in
      let newState :=
        gameState <|G_player p3|> <|G_bombs newBombs|> <|G_enemies enemies1|>
                  <|G_activeBlasts newBlasts|> in
      let '(over3, g', res) := processEnemyTurn newState g in
      mkTurnOut (over1 || over2 || over3) killed g' res
  end.

(** ** [handleMove] *)

(** The [switch (itemAtTarget.type)] of the pickup. *)
Definition pickUp (t : ItemType) (p : Player) : Player :=
  match t with
  | GOLD => p <|F_gold (gold p + 10)|>
  | POTION => p <|F_potions (Z.min 3 (potions p + 1))|>
  | ARROWS => p <|F_arrows (Z.min (maxArrows p) (arrows p + 3))|>
  | BOMB => p <|F_bombCount (Z.min (maxBombs p) (bombCount p + 1))|>
  | ANTIDOTE => p <|F_antidotes (Z.min 3 (antidotes p + 1))|>
  end.

(** The altar block on [newState.player].  [activeAugments] is one array
    shared by every copy of the player, so a push outlives a later throw:
    the first component is that array after the block, the second the new
    player ([None]: [effect] or [augment] is [undefined]). *)
Definition altarBlock (r : Q) (p : Player) : list AugmentId * option Player :=
  match index ALTAR_EFFECTS (randInt (Z.of_nat (length ALTAR_EFFECTS)) r) with
  | None => (activeAugments p, None)
  | Some effect =>
      let gained := corruptionGained effect in
      let finish (q : Player) := q <|F_corruption (Z.min 100 (corruption q + gained))|> in
      match effect with
      | StatEffect stat value _ =>
          let isMaxHp := match stat with S_maxHp => true | _ => false end in
          let q := p <|setStat stat (Z.max (if isMaxHp then 10 else 1)
                                          (getStat stat p + value))|> in
          let q1 := if isMaxHp then q <|F_hp (maxHp q)|> else q in
          (activeAugments p, Some (finish q1))
      | AugmentEffect augmentId _ =>
          if existsb (String.eqb augmentId) (activeAugments p)
          then (activeAugments p, Some (finish p))
          else
            let pushed := activeAugments p ++ [augmentId] in
            let q := p <|F_activeAugments pushed|> in
            match AUGMENTS augmentId with
            | None => (pushed, None)
            | Some onAcquire =>
                (pushed,
                 Some (finish (fold_left (fun q '(stat, value) =>
                                            q <|setStat stat (getStat stat q + value)|>)
                                         onAcquire q)))
            end
      end
  end.

(** The queue a handler leaves behind a call of [processTurn]. *)
Definition afterTurn (closure : GameState) (now : Z) (out : TurnOut)
    (final : GameState -> GameState) (a : App) : App :=
  let a1 := if gameOverSet out then a <|A_isGameOver true|> else a in
  applyUpdates a1
    (map (handleEnemyDefeated closure now) (defeated out)
     ++ match returned out with
        | Some newState => [setGame (final newState)]
        | None => []
        end).

(** [now] is [Date.now()]. *)
Definition handleMove (direction : Direction) (now : Z) (g : Rng) (a : App)
  : App * list Timer * Rng :=
  if animating a || isPaused a then (a, [], g) else
  let gs := gameState a in
  let '(x, y) := stepDir direction (player_x (player gs)) (player_y (player gs)) in
  match tileAtStrict (gs_map gs) x y with
  | None => (a, [], g)
  | Some tile =>
  if bool_decide (tile = Some WALL) then (a, [], g) else
  let here := mkPosition (player_x (player gs)) (player_y (player gs)) in
  match List.find (fun e => samePos (enemy_x e) (enemy_y e) x y) (enemies gs) with
  | Some enemyAtTarget =>
      (* Attack *)
      let damage := attack (player gs) + meleeDamageBonus (player gs) in
      let newHp := enemy_hp enemyAtTarget - damage in
      if newHp <=? 0 then
        let a1 := applyUpdate a (handleEnemyDefeated gs now enemyAtTarget) in
        let out := processTurn gs here g in
        (afterTurn gs now out
           (fun newState =>
              newState <|G_enemies (List.filter
                           (fun e => negb (enemy_id e =? enemy_id enemyAtTarget))
                           (enemies newState))|>) a1,
         [], oracleAfter out)
      else
        let newEnemies :=
          map (fun e => if enemy_id e =? enemy_id enemyAtTarget
                        then e <|E_enemy_hp newHp|> <|E_isHit (Some true)|> else e)
              (enemies gs) in
        let out := processTurn gs here g in
        (afterTurn gs now out (fun newState => newState <|G_enemies newEnemies|>) a,
         match returned out with
         | Some _ => [TClearHitOf (enemy_id enemyAtTarget)]
         | None => []
         end,
         oracleAfter out)
  | None =>
      (* Move *)
      let out := processTurn gs (mkPosition x y) g in
      match returned out with
      | None => (afterTurn gs now out (fun s => s) a, [], oracleAfter out)
      | Some newState =>
          let p1 := (player newState) <|F_lastMoveDirection (Some direction)|> in
          let '(p2, picked) :=
            match List.find (fun i => samePos (item_x i) (item_y i) x y) (items newState) with
            | Some itemAtTarget =>
                if bool_decide (itemKey itemAtTarget ∈ pickedUpItems newState)
                then (p1, pickedUpItems newState)
                else (pickUp (item_type itemAtTarget) p1,
                      {[ itemKey itemAtTarget ]} ∪ pickedUpItems newState)
            | None => (p1, pickedUpItems newState)
            end in
          let shop := atOpt (wizard newState) x y in
          let atAltar :=
            bool_decide (List.find (fun t => samePos (pos_x t) (pos_y t) x y)
                                   (altars newState) <> None) in
          let '(augs, p3, g1) :=
            if atAltar then
              let '(r, g1) := draw (oracleAfter out) in
              let '(augs, q) := altarBlock r p2 in (augs, q, g1)
            else (activeAugments p2, Some p2, oracleAfter out) in
          (* the objects [gameState] shares with [newState] after the
             mutations in place *)
          let shared :=
            gs <|G_pickedUpItems picked|>
               <|G_player ((player gs) <|F_activeAugments augs|>)|> in
          let a1 := a <|A_gameState shared|> in
          let a2 := if shop then a1 <|A_isShopping true|> else a1 in
          let a3 := afterTurn gs now (mkTurnOut (gameOverSet out) (defeated out)
                                                (oracleAfter out) None)
                              (fun s => s) a2 in
          match p3 with
          | None => (a3, [], g1)
          | Some p3 =>
              if atOpt (exit newState) x y then
                let '(a4, ts) := handleNextLevel a3 shared in (a4, ts, g1)
              else
                let final :=
                  newState <|G_player p3|> <|G_pickedUpItems picked|>
                           <|G_camera (mkPosition (x / VIEWPORT_WIDTH) (y / VIEWPORT_HEIGHT))|> in
                (applyUpdate a3 (setGame final), [TClearBlasts], g1)
          end
      end
  end
  end.

(** ** The arrow in flight *)

(** [10 + gameState.player.arrowDamageBonus] *)
Definition arrowDamage (closure : GameState) : Z :=
  10 + arrowDamageBonus (player closure).

(** The update an arrow queues for the enemy it hits. *)
Definition arrowHit (closure : GameState) (enemyHit : Enemy) : Update App :=
  let newHp := enemy_hp enemyHit - arrowDamage closure in
  onGame (fun prev =>
    prev <|G_enemies
      (if newHp <=? 0
       then List.filter (fun e => negb (enemy_id e =? enemy_id enemyHit)) (enemies prev)
       else map (fun e => if enemy_id e =? enemy_id enemyHit
                          then e <|E_enemy_hp newHp|> else e)
                (enemies prev))|>).

(** One tick of the interval of the effect on [arrowProjectile]; [closure]
    is the [gameState] of the render that started the effect. *)
Definition arrowTick (closure : GameState) (now : Z) (g : Rng) (a : App)
  : App * list Timer * Rng :=
  match arrowProjectile a with
  | None => (a, [], g)
  | Some p =>
  if negb (arrow_visible p) then (a, [], g) else
  let '(x, y) := stepDir (arrow_direction p) (arrow_x p) (arrow_y p) in
  let here := mkPosition (player_x (player closure)) (player_y (player closure)) in
  if negb (bool_decide (tileAt (gs_map closure) x y = Some FLOOR)) then
    let out := processTurn closure here g in
    (afterTurn closure now out (fun s => s)
       (a <|A_arrowProjectile None|> <|A_animating false|>),
     [], oracleAfter out)
  else
  match List.find (fun e => samePos (enemy_x e) (enemy_y e) x y) (enemies closure) with
  | Some enemyHit =>
      let newHp := enemy_hp enemyHit - arrowDamage closure in
      let a1 := if newHp <=? 0
                then applyUpdate a (handleEnemyDefeated closure now enemyHit) else a in
      let a2 := applyUpdate a1 (arrowHit closure enemyHit) in
      let out := processTurn closure here g in
      (afterTurn closure now out (fun s => s)
         (a2 <|A_arrowProjectile None|> <|A_animating false|>),
       [], oracleAfter out)
  | None =>
      (a <|A_arrowProjectile (Some (mkArrow x y (arrow_visible p) (arrow_direction p)))|>
         <|A_animating false|>,
       [TArrowTick], g)
  end
  end.

(** The ticks of one shot: up to [n] more, as long as one is pending. *)
Fixpoint flyOn (n : nat) (closure : GameState) (now : Z)
    (st : App * list Timer * Rng) : App * list Timer * Rng :=
  match n, st with
  | S n', (a, [TArrowTick], g) => flyOn n' closure now (arrowTick closure now g a)
  | _, _ => st
  end.

End Engine.

(** ** Stand-ins for the data files *)

(** Modelled from the spec: [data/enemies] is not among the sources.  The
    spec gives the enemy types special behavior flags such as "can poison"
    or "splits on death"; the first stage lets the spider poison, and the
    component reads [onDeath] under the comment "Handle slime splitting". *)
Definition canPoisonTable (t : EnemyType) : bool := bool_decide (t = SPIDER).
Definition splitsOnDeathTable (t : EnemyType) : bool := bool_decide (t = SLIME).

(** Modelled from the spec: the entry [SLIME_MINI] of [data/enemies], a
    split product "spawned ... on certain deaths".  Its numbers are given
    nowhere; nothing below depends on them. *)
Definition slimeMiniEntry : Enemy := mkEnemy 0 0 0 SLIME_MINI 5 2 None.

(** Modelled from the spec: "XP gain on Enemy Defeat = floor(enemy.baseXp ×
    (1 + dungeonLevel/10))", with the [baseXp] of the first stage, in exact
    arithmetic. *)
Definition xpGainedTable (t : EnemyType) (lvl : Z) : Z :=
  (match t with
   | GOBLIN => 10 | SLIME => 8 | SKELETON => 12 | SPIDER => 15 | SLIME_MINI => 4
   end * (10 + lvl)) / 10.

(** Modelled from the spec: [data/systems], [data/altars] and
    [data/augments] are not among the sources.  The viewport is the "fixed-size
    rectangular sub-region" of the first stage; the altar rolls "a random
    effect from a fixed effect table (stat boost, or grant-augment)". *)
Definition viewportWidthTable : Z := 13.
Definition viewportHeightTable : Z := 20.
Definition altarEffectsTable : list AltarEffect :=
  [ StatEffect S_attack 2 None; AugmentEffect "PIERCING_ARROWS"%string (Some 20) ].
Definition augmentsTable (id : AugmentId) : option (list (Stat * Z)) := Some [].

(** The later [App] on the stand-ins. *)
Definition processEnemyTurnT := processEnemyTurn canPoisonTable.
Definition processTurnT := processTurn canPoisonTable.
Definition handleMoveT :=
  handleMove xpGainedTable canPoisonTable splitsOnDeathTable slimeMiniEntry
             viewportWidthTable viewportHeightTable altarEffectsTable augmentsTable.
Definition arrowTickT :=
  arrowTick xpGainedTable canPoisonTable splitsOnDeathTable slimeMiniEntry.

(** [GAME_STATE] of the later constants, on the knight of the first stage. *)
Definition initialPlayer : Player :=
  mkPlayer 1 1 120 120 12 0 3 0 3 1 0 0 1 0 XP_BASE Knight None false 0 2 0 (-15) 0 [] 0.

Definition GAME_STATE : GameState :=
  mkGameState
    (replicate (Z.to_nat viewportHeightTable) (replicate (Z.to_nat viewportWidthTable) WALL))
    initialPlayer [] [] None None [] [] [] [] [] ∅ 1
    noTheme
    (mkPosition 0 0) [].

End V2.

(** * Stage 1: properties *)

Module V1Facts.
Import V1.

(** ** Restart after death *)

Section Restart.
Variable generateDungeon : Z -> GameState.

(** What [restartGame] keeps and what the spread of the class defaults
    overwrites. *)
Lemma restartGame_player (r : Q) (a : App) :
  let before := player (gameState a) in
  let after := player (gameState (restartGame generateDungeon r a)) in
  let defaults := spread (player (generateDungeon 1)) (PLAYER_CLASSES (playerClass before)) in
  gs_level (gameState (restartGame generateDungeon r a)) = 1
  /\ xp after = 0
  /\ level after = level before
  /\ playerClass after = playerClass before
  /\ corruption after = corruption before
  /\ activeAugments after = activeAugments before
  /\ gold after = gold defaults
  /\ maxHp after = maxHp defaults
  /\ attack after = attack defaults.
Proof.
  destruct a as [gs ? ? ? ? ? ? ? ?].
  destruct gs as [m p es its ex wz hz dd bs bl dn pk lv th cam al].
  destruct p; simpl.
  match goal with |- context [PLAYER_CLASSES ?c] => destruct c end;
    cbn; repeat split; reflexivity.
Qed.

End Restart.

(** A knight who has grown to 140 hit points and attack 17 dies with 101
    gold. *)
Definition veteran : Player :=
  initialPlayer <|F_level 3|> <|F_maxHp 140|> <|F_attack 17|> <|F_gold 101|>
                <|F_hp 0|> <|F_xp 40|> <|F_corruption 20|>
                <|F_activeAugments ["PIERCING_ARROWS"%string]|>.

Definition deadApp : App :=
  mkApp (GAME_STATE <|G_player veteran|> <|G_gs_level 4|>)
        true false false false false false false None.

(** C1, at a concrete death: the run restarts at dungeon level 1 with xp 0,
    and level, class, corruption and augments are kept; but the gold is the
    starting gold of the class, not half of 101, and [maxHp] and [attack]
    are back at the starting values of the class. *)
Theorem restartGame_overwrites_retained_stats :
  let a' := restartGame (fun _ => GAME_STATE) 0 deadApp in
  let after := player (gameState a') in
  gs_level (gameState a') = 1
  /\ xp after = 0
  /\ level after = 3
  /\ playerClass after = Knight
  /\ corruption after = 20
  /\ activeAugments after = ["PIERCING_ARROWS"%string]
  /\ gold veteran / 2 = 50 /\ gold after = 0
  /\ maxHp veteran = 140 /\ maxHp after = 120
  /\ attack veteran = 17 /\ attack after = 12.
Proof. vm_compute. repeat split; reflexivity. Qed.

(** ** Hit points *)

(** [processTurn] never returns a negative [hp] when the player was alive:
    it sets [hp] to 0 on death. *)
Lemma turnState_hp_nonneg (prev : GameState) (pos : Position) :
  0 < hp (player prev) ->
  0 <= hp (player (finalState (turnState prev pos))).
Proof.
  intros Halive. unfold turnState.
  repeat match goal with
  | |- context [let '(_, _) := ?e in _] => destruct e
  end.
  cbn.
  match goal with
  | |- context [(hp ?q <=? 0) && _] =>
      destruct (Z.leb_spec (hp q) 0); cbn; [|lia]
  end.
  destruct (Z.gtb_spec (hp (player prev)) 0); cbn; lia.
Qed.

(** A 3 by 3 floor; the player with 5 hit points stands at (1, 1) next to a
    goblin of attack 10 at (2, 1). *)
Definition openFloor : GameMap := replicate 3 (replicate 3 FLOOR).

Definition woundedApp : App :=
  mkApp (GAME_STATE <|G_gs_map openFloor|>
                    <|G_player (initialPlayer <|F_hp 5|>)|>
                    <|G_enemies [mkEnemy 2 1 1 GOBLIN 30 10 None]|>)
        false false true false false false false None.

(** C2, at a concrete enemy turn: the goblin attacks for 10, the oracle
    adding 0, and [processEnemyTurn] returns the player with [hp] -5; it
    reports the death and leaves [hp] as it is. *)
Theorem processEnemyTurn_leaves_hp_negative :
  let a' := (processEnemyTurn [0%Q] woundedApp).1.1 in
  hp (player (gameState woundedApp)) = 5
  /\ maxHp (player (gameState woundedApp)) = 120
  /\ hp (player (gameState a')) = -5
  /\ isGameOver a' = true.
Proof. vm_compute. repeat split; reflexivity. Qed.

(** ** The antidote *)

Lemma handleUseAntidote_cures (a : App) :
  0 < antidotes (player (gameState a)) ->
  isPoisoned (player (gameState a)) = true ->
  let p := player (gameState a) in
  let p' := player (gameState (handleUseAntidote a)) in
  antidotes p' = antidotes p - 1
  /\ isPoisoned p' = false
  /\ poisonStepCounter p' = poisonStepCounter p
  /\ poisonTick p' = p'.
Proof.
  intros Hn Hp. unfold handleUseAntidote.
  destruct (Z.leb_spec (antidotes (player (gameState a))) 0); [lia|].
  rewrite Hp. cbn. repeat split; reflexivity.
Qed.

(** Poisoned with the counter at 2, one antidote in the bag. *)
Definition poisonedApp : App :=
  mkApp (GAME_STATE <|G_player (initialPlayer <|F_antidotes 1|> <|F_isPoisoned true|>
                                              <|F_poisonStepCounter 2|>)|>)
        false false false false false false false None.

(** ** Moving into a wall *)

Section Handlers.
Variable xpGained : EnemyType -> Z -> Z.

(** The target tile of a move. *)
Definition target (d : Direction) (a : App) : Z * Z :=
  stepDir d (player_x (player (gameState a))) (player_y (player (gameState a))).

Lemma handleMove_wall (d : Direction) (g : Rng) (a : App) :
  tileAt (gs_map (gameState a)) (target d a).1 (target d a).2 = Some WALL ->
  handleMove xpGained d g a
  = (if inputLocked a then a else applyUpdate a (setLastMoveDirection d), [], g).
Proof.
  unfold target, handleMove. intros Hw.
  destruct (inputLocked a); [reflexivity|].
  destruct (stepDir d _ _) as [nx ny]; cbn in Hw.
  rewrite bool_decide_eq_true_2 by exact Hw. reflexivity.
Qed.

(** The only trace of a bump: the direction the player faces. *)
Lemma setLastMoveDirection_spec (d : Direction) (a : App) :
  let a' := applyUpdate a (setLastMoveDirection d) in
  a' = a <|A_gameState ((gameState a)
                         <|G_player ((player (gameState a)) <|F_lastMoveDirection (Some d)|>)|>)|>.
Proof. reflexivity. Qed.

End Handlers.

(** The player of [GAME_STATE] stands at (1, 1), walled in, and has not
    moved yet. *)
Definition walledApp : App :=
  mkApp GAME_STATE false false false false false false false None.

(** ** Picking up gold *)

Section Gold.
Variable xpGained : EnemyType -> Z -> Z.

Lemma poisonTick_gold p : gold (poisonTick p) = gold p.
Proof. unfold poisonTick. repeat case_match; reflexivity. Qed.

Lemma hazardHit_gold lvl t p : gold (hazardHit lvl t p) = gold p.
Proof. destruct t; reflexivity. Qed.

(** The updates that [handleEnemyDefeated] queues touch the experience
    points and the level-up flag only. *)
Lemma defeated_updates_keep (closure : GameState) (es : list Enemy) (a : App) :
  let a' := applyUpdates a (map (handleEnemyDefeated xpGained closure) es) in
  gold (player (gameState a')) = gold (player (gameState a))
  /\ hp (player (gameState a')) = hp (player (gameState a))
  /\ pickedUpItems (gameState a') = pickedUpItems (gameState a)
  /\ bombs (gameState a') = bombs (gameState a)
  /\ enemies (gameState a') = enemies (gameState a)
  /\ arrowProjectile a' = arrowProjectile a.
Proof.
  revert a. induction es as [|e es IH]; intros a; [cbn; tauto|].
  cbn [map applyUpdates fold_left].
  specialize (IH (applyUpdate a (handleEnemyDefeated xpGained closure e))).
  cbn zeta in IH. unfold applyUpdates in *.
  destruct IH as (-> & -> & -> & -> & -> & ->).
  cbn. case_match; cbn; tauto.
Qed.

(** The gold after the updater of [processTurn], by what lies on the
    target tile. *)
Lemma turnState_gold (prev : GameState) (pos : Position) :
  let r := finalState (turnState prev pos) in
  atOpt (wizard prev) (pos_x pos) (pos_y pos) = false ->
  atOpt (exit prev) (pos_x pos) (pos_y pos) = false ->
  match List.find (fun i => samePos (item_x i) (item_y i) (pos_x pos) (pos_y pos))
                  (items prev) with
  | Some it =>
      if bool_decide (itemKey it ∈ pickedUpItems prev)
      then gold (player r) = gold (player prev)
           /\ pickedUpItems r = pickedUpItems prev
      else pickedUpItems r = {[ itemKey it ]} ∪ pickedUpItems prev
           /\ (item_type it = GOLD ->
               gold (player r) = gold (player prev) + (5 + gs_level prev))
  | None => gold (player r) = gold (player prev)
  end.
Proof.
  intros r Hw He. subst r. unfold turnState. rewrite Hw, He. cbn [orb].
  set (p2 := if negb _ && _ then _ else _).
  assert (Hp2 : gold p2 = gold (player prev)).
  { subst p2. case_match; cbn; rewrite poisonTick_gold; reflexivity. }
  clearbody p2.
  destruct (List.find _ (items prev)) as [it|].
  - destruct (bool_decide (itemKey it ∈ pickedUpItems prev)).
    + destruct (List.find _ (hazards prev)); cbn;
        repeat case_match; cbn; rewrite ?hazardHit_gold; auto.
    + destruct (List.find _ (hazards prev)); cbn; (split; [reflexivity|]);
        intros ->; repeat case_match; cbn; rewrite ?hazardHit_gold; cbn; lia.
  - destruct (List.find _ (hazards prev)); cbn;
      repeat case_match; cbn; rewrite ?hazardHit_gold; auto.
Qed.

(** Stepping onto a gold item that is not in the picked-up set: 5 plus the
    dungeon level, and the position joins the set. *)
Lemma processTurn_gold_new (closure : GameState) (pos : Position) (a : App) (it : Item) :
  animating a = false ->
  atOpt (wizard (gameState a)) (pos_x pos) (pos_y pos) = false ->
  atOpt (exit (gameState a)) (pos_x pos) (pos_y pos) = false ->
  List.find (fun i => samePos (item_x i) (item_y i) (pos_x pos) (pos_y pos))
            (items (gameState a)) = Some it ->
  item_type it = GOLD ->
  itemKey it ∉ pickedUpItems (gameState a) ->
  let a' := (processTurn xpGained closure pos a).1 in
  gold (player (gameState a')) = gold (player (gameState a)) + (5 + gs_level (gameState a))
  /\ itemKey it ∈ pickedUpItems (gameState a').
Proof.
  intros Han Hw He Hf Hg Hk a'. subst a'. unfold processTurn. rewrite Han. cbn [fst].
  pose proof (turnState_gold (gameState a) pos Hw He) as H.
  rewrite Hf in H. rewrite bool_decide_eq_false_2 in H by exact Hk.
  destruct H as [Hpk Hgold]. specialize (Hgold Hg).
  match goal with |- context [applyUpdates ?b ?us] =>
    pose proof (defeated_updates_keep closure (defeated (turnState (gameState a) pos)) b) as K
  end.
  cbn zeta in K. destruct K as (-> & _ & -> & _).
  repeat case_match; cbn; rewrite Hpk, Hgold; (split; [lia|apply elem_of_union_l, elem_of_singleton; reflexivity]).
Qed.

(** Stepping onto it again: nothing. *)
Lemma processTurn_gold_again (closure : GameState) (pos : Position) (a : App) (it : Item) :
  animating a = false ->
  atOpt (wizard (gameState a)) (pos_x pos) (pos_y pos) = false ->
  atOpt (exit (gameState a)) (pos_x pos) (pos_y pos) = false ->
  List.find (fun i => samePos (item_x i) (item_y i) (pos_x pos) (pos_y pos))
            (items (gameState a)) = Some it ->
  itemKey it ∈ pickedUpItems (gameState a) ->
  let a' := (processTurn xpGained closure pos a).1 in
  gold (player (gameState a')) = gold (player (gameState a)).
Proof.
  intros Han Hw He Hf Hk a'. subst a'. unfold processTurn. rewrite Han. cbn [fst].
  pose proof (turnState_gold (gameState a) pos Hw He) as H.
  rewrite Hf in H. rewrite bool_decide_eq_true_2 in H by exact Hk.
  destruct H as [Hgold Hpk].
  match goal with |- context [applyUpdates ?b ?us] =>
    pose proof (defeated_updates_keep closure (defeated (turnState (gameState a) pos)) b) as K
  end.
  cbn zeta in K. destruct K as (-> & _).
  repeat case_match; cbn; exact Hgold.
Qed.

End Gold.

(** ** The arrow *)

Lemma randInt_bounds (n : Z) (r : Q) :
  (0 <= r)%Q -> (r < 1)%Q -> 0 < n -> 0 <= randInt n r <= n - 1.
Proof.
  intros H0 H1 Hn. unfold randInt.
  assert (Hq : (0 < inject_Z n)%Q) by (rewrite (Zlt_Qlt 0 n) in Hn; exact Hn).
  split.
  - change 0 with (Qfloor 0). apply Qfloor_resp_le.
    apply Qmult_le_0_compat; [exact H0|apply Qlt_le_weak, Hq].
  - assert (Hlt : (inject_Z (Qfloor (r * inject_Z n)) < inject_Z n)%Q).
    { eapply Qle_lt_trans; [apply Qfloor_le|].
      rewrite <- (Qmult_1_l (inject_Z n)) at 2.
      apply Qmult_lt_compat_r; assumption. }
    rewrite <- Zlt_Qlt in Hlt. lia.
Qed.

Section Arrow.
Variable xpGained : EnemyType -> Z -> Z.

(** The damage of an arrow for the draw [r]:
    [Math.floor((attack + arrowDamageBonus) * 0.8) + Math.floor(r * 4)].
    On integers the double-precision product with 0.8 has the floor of four
    fifths. *)
Definition arrowDamage (p : Player) (r : Q) : Z :=
  (4 * (attack p + arrowDamageBonus p)) / 5 + randInt 4 r.

(** An arrow that enters a tile with a living enemy: the enemy loses
    [arrowDamage], the arrow is gone and no further run is scheduled. *)
Lemma moveArrow_hit (closure : GameState) (d : Direction) (x y : Z) (g : Rng)
    (a : App) (i : nat) (e : Enemy) :
  let t := stepDir d x y in
  tileAt (gs_map closure) t.1 t.2 <> Some WALL ->
  findIndex (fun e => (enemy_x e =? t.1) && (enemy_y e =? t.2) && (enemy_hp e >? 0))
            (enemies closure) = Some i ->
  enemies (gameState a) !! i = Some e ->
  let r := (draw g).1 in
  let '(a', ts, g') := moveArrow xpGained closure d x y g a in
  enemies (gameState a')
  = <[i := e <|E_enemy_hp (enemy_hp e - arrowDamage (player closure) r)|>
             <|E_isHit (Some true)|>]> (enemies (gameState a))
  /\ arrowProjectile a' = None
  /\ ts = [TClearHit]
  /\ g' = (draw g).2.
Proof.
  intros t Hw Hi He r. subst t r. unfold moveArrow, arrowDamage.
  destruct (stepDir d x y) as [ax ay]; cbn [fst snd] in *.
  rewrite bool_decide_eq_false_2 by exact Hw.
  rewrite Hi. destruct (draw g) as [r g']. cbn [fst snd gameState assignA upd upd_App].
  rewrite He.
  destruct (enemy_hp _ <=? 0); [unfold applyUpdate, handleEnemyDefeated;
                                destruct (_ <=? _)|]; repeat split; reflexivity.
Qed.

(** The enemy found by [findIndex] stands on the tile and is alive. *)
Lemma findIndex_Some {A} (f : A -> bool) (l : list A) (i : nat) :
  findIndex f l = Some i -> exists e, l !! i = Some e /\ f e = true.
Proof.
  revert i. induction l as [|a l IH]; intros i; cbn; [discriminate|].
  destruct (f a) eqn:Hf.
  - intros [= <-]. exists a. auto.
  - destruct (findIndex f l) as [j|]; cbn; [|discriminate].
    intros [= <-]. destruct (IH j eq_refl) as (e & ? & ?). exists e. auto.
Qed.

End Arrow.

(** A corridor of three floor tiles with no wall at its end; the archer
    stands at its left end, has moved right before, and carries one arrow. *)
Definition corridor : GameMap := [[FLOOR; FLOOR; FLOOR]].

Definition archerApp : App :=
  mkApp (GAME_STATE <|G_gs_map corridor|>
                    <|G_player (initialPlayer <|F_player_x 0|> <|F_player_y 0|> <|F_arrows 1|>
                                              <|F_lastMoveDirection (Some ArrowRight)|>)|>)
        false false false false false false false None.

Lemma corridor_no_wall (x : Z) : tileAt corridor x 0 <> Some WALL.
Proof.
  unfold tileAt, corridor, index. cbn.
  destruct (x <? 0); [discriminate|].
  destruct (Z.to_nat x) as [|[|[|n]]]; cbn; discriminate.
Qed.

Lemma flyOn_corridor (xp : EnemyType -> Z -> Z) (n : nat) (x : Z) (g : Rng) (a : App) :
  let c := gameState archerApp in
  flyOn xp n (a, [TMoveArrow c ArrowRight x 0], g)
  = (match n with
     | O => a
     | S _ => a <|A_arrowProjectile (Some (mkArrow (x + Z.of_nat n) 0 true ArrowRight))|>
     end,
     [TMoveArrow c ArrowRight (x + Z.of_nat n) 0], g).
Proof.
  cbn zeta. revert x a. induction n as [|n IH]; intros x a.
  - cbn. rewrite Z.add_0_r. reflexivity.
  - cbn [flyOn]. unfold moveArrow. cbn [stepDir].
    rewrite bool_decide_eq_false_2 by apply corridor_no_wall.
    cbn [findIndex enemies gameState archerApp GAME_STATE upd upd_GameState assignG].
    rewrite IH. replace (x + 1 + Z.of_nat n) with (x + Z.of_nat (S n)) by lia.
    destruct n; reflexivity.
Qed.

(** C10, at a concrete shot: in the corridor the arrow is still in flight
    after any number of runs of [moveArrow]; a further run is pending and
    the input stays locked. *)
Theorem arrow_flies_forever_without_a_wall :
  forall n : nat,
    let '(a', ts, _) := flyOn (fun _ _ => 0) n (handleFireArrow (fun _ _ => 0) [] archerApp) in
    arrowProjectile a' = Some (mkArrow (1 + Z.of_nat n) 0 true ArrowRight)
    /\ ts = [TMoveArrow (gameState archerApp) ArrowRight (1 + Z.of_nat n) 0]
    /\ inputLocked a' = true.
Proof.
  intros n.
  assert (H0 : handleFireArrow (fun _ _ => 0) [] archerApp
               = (archerApp <|A_gameState ((gameState archerApp)
                    <|G_player ((player (gameState archerApp)) <|F_arrows 0|>)|>)|>
                    <|A_arrowProjectile (Some (mkArrow 1 0 true ArrowRight))|>,
                  [TMoveArrow (gameState archerApp) ArrowRight 1 0], [])).
  { reflexivity. }
  rewrite H0. pose proof (flyOn_corridor (fun _ _ => 0) n 1 []) as H. cbn zeta in H.
  rewrite H. destruct n; repeat split; reflexivity.
Qed.

(** ** The bombs along a run *)

Section Bombs.
Variable generateDungeon : Z -> GameState.
Variable xpGained : EnemyType -> Z -> Z.

#[local] Abbreviation step := (step generateDungeon xpGained).
#[local] Abbreviation run := (run generateDungeon xpGained).
#[local] Abbreviation detonations := (detonations generateDungeon xpGained).

Lemma inputLocked_animating a : inputLocked a = false -> animating a = false.
Proof.
  unfold inputLocked. destruct (isGameOver a), (isInspecting a), (animating a);
    cbn; congruence.
Qed.

Lemma enemyTurnState_bombs prev g : bombs (enemyTurnState prev g).1.1 = bombs prev.
Proof.
  unfold enemyTurnState. destruct (mapAccum _ _ _) as [[p g'] es]. reflexivity.
Qed.

Lemma processEnemyTurn_bombs g a :
  bombs (gameState (processEnemyTurn g a).1.1) = bombs (gameState a).
Proof.
  unfold processEnemyTurn. pose proof (enemyTurnState_bombs (gameState a) g) as H.
  destruct (enemyTurnState _ _) as [[s died] g']. cbn in *.
  destruct died; exact H.
Qed.

Lemma processTurn_bombs closure pos a :
  animating a = false ->
  bombs (gameState (processTurn xpGained closure pos a).1)
  = remainingBombs (bombs (gameState a)).
Proof.
  intros Han. unfold processTurn. rewrite Han. cbn [fst].
  match goal with |- context [applyUpdates ?b ?us] =>
    pose proof (defeated_updates_keep xpGained closure
                  (defeated (turnState (gameState a) pos)) b) as K
  end.
  cbn zeta in K. destruct K as (_ & _ & _ & -> & _).
  unfold turnState.
  repeat match goal with
  | |- context [let '(_, _) := ?e in _] => destruct e
  end.
  repeat case_match; reflexivity.
Qed.

Lemma moveArrow_bombs closure d x y g a :
  bombs (gameState (moveArrow xpGained closure d x y g a).1.1) = bombs (gameState a).
Proof.
  unfold moveArrow. destruct (stepDir d x y) as [ax ay].
  case_match; [reflexivity|].
  destruct (findIndex _ _); [|reflexivity].
  destruct (draw g) as [r g']. cbn [gameState assignA upd upd_App].
  destruct (_ !! _); [|reflexivity].
  destruct (enemy_hp _ <=? 0); [unfold applyUpdate, handleEnemyDefeated;
                                destruct (_ <=? _)|]; reflexivity.
Qed.

(** The bomb that [handleDropBomb] places, if it places one. *)
Definition dropped (now : Z) (a : App) : Bomb :=
  mkBomb (player_x (player (gameState a))) (player_y (player (gameState a)))
         now BOMB_FUSE_STEPS.

Lemma handleDropBomb_bombs now a :
  handleDropBomb now a = a
  \/ (bombs (gameState (handleDropBomb now a)) = bombs (gameState a) ++ [dropped now a]
      /\ bombCount (player (gameState (handleDropBomb now a)))
         = bombCount (player (gameState a)) - 1
      /\ existsb (fun b => samePos (bomb_x b) (bomb_y b)
                                   (player_x (player (gameState a)))
                                   (player_y (player (gameState a))))
                 (bombs (gameState a)) = false).
Proof.
  unfold handleDropBomb.
  destruct (_ || _); [left; reflexivity|].
  destruct (existsb _ _); [left; reflexivity|].
  right. repeat split; reflexivity.
Qed.

(** What an event that stays in the level does to the list of bombs: a
    resolved turn ticks it, a drop may append to it, nothing else touches
    it. *)
Lemma step_bombs e g a :
  leavesLevel e = false ->
  bombs (gameState (step e g a).1.1)
  = match turnOf e a, e with
    | Some _, _ => remainingBombs (bombs (gameState a))
    | None, EDropBomb now => bombs (gameState (handleDropBomb now a))
    | None, _ => bombs (gameState a)
    end.
Proof.
  intros Hl. destruct e as [d| |now| | | |t]; cbn [step turnOf fst]; try discriminate.
  - (* a move *)
    unfold handleMove.
    destruct (inputLocked a) eqn:Hlock;
      [destruct (stepDir d _ _); reflexivity|].
    destruct (stepDir d _ _) as [nx ny].
    destruct (bool_decide _); [reflexivity|].
    destruct (_ || _); [destruct (_ && _); reflexivity|].
    destruct (List.find _ _) as [en|].
    + destruct (draw g) as [r1 g1]. destruct (findIndex _ _); [|reflexivity].
      cbv zeta. destruct (_ >? 0).
      * destruct (draw g1) as [r2 g2]. cbv beta iota zeta.
        destruct (_ <=? 0); reflexivity.
      * cbv beta iota zeta.
        unfold applyUpdates, handleEnemyDefeated, applyUpdate, fold_left.
        destruct (hp _ <=? 0); destruct (_ <=? _); reflexivity.
    + pose proof (processTurn_bombs (gameState a) (mkPosition nx ny)
                    (applyUpdate a (setLastMoveDirection d))
                    (inputLocked_animating a Hlock)) as H.
      destruct (processTurn _ _ _ _) as [a' ts]. exact H.
  - (* an arrow *)
    unfold handleFireArrow. destruct (lastMoveDirection _); [|reflexivity].
    destruct (_ || _); [reflexivity|]. rewrite moveArrow_bombs. reflexivity.
  - reflexivity.
  - unfold handleUsePotion. destruct (_ || _); reflexivity.
  - unfold handleUseAntidote. destruct (_ || _); reflexivity.
  - (* a timer *)
    destruct t as [|c sx sm| |alive|x y s|c|c d x y|];
      cbn [fire]; try discriminate; try reflexivity.
    + destruct sx; [reflexivity|].
      destruct sm; [apply processEnemyTurn_bombs|reflexivity].
    + destruct alive; [rewrite processEnemyTurn_bombs|]; reflexivity.
    + apply moveArrow_bombs.
Qed.

End Bombs.

(** ** One bomb per tile *)

Section BombTiles.
Variable generateDungeon : Z -> GameState.
Variable xpGained : EnemyType -> Z -> Z.

#[local] Abbreviation step := (step generateDungeon xpGained).
#[local] Abbreviation run := (run generateDungeon xpGained).

Lemma remainingBombs_cons b bs :
  remainingBombs (b :: bs)
  = if decide (0 < stepsRemaining b - 1) then tickBomb b :: remainingBombs bs
    else remainingBombs bs.
Proof.
  unfold remainingBombs. cbn [map]. rewrite filter_cons. cbn. reflexivity.
Qed.

Lemma explodingBombs_cons b bs :
  explodingBombs (b :: bs)
  = if decide (stepsRemaining b - 1 <= 0) then tickBomb b :: explodingBombs bs
    else explodingBombs bs.
Proof.
  unfold explodingBombs. cbn [map]. rewrite filter_cons. cbn. reflexivity.
Qed.

Lemma remainingBombs_tile t bs :
  t ∈ bombTiles (remainingBombs bs) -> t ∈ bombTiles bs.
Proof.
  induction bs as [|b bs IH]; [exact id|].
  rewrite remainingBombs_cons. unfold bombTiles in *.
  destruct (decide _); rewrite !fmap_cons, ?elem_of_cons; cbn; tauto.
Qed.

Lemma remainingBombs_NoDup bs :
  NoDup (bombTiles bs) -> NoDup (bombTiles (remainingBombs bs)).
Proof.
  induction bs as [|b bs IH]; [exact id|].
  rewrite remainingBombs_cons. unfold bombTiles in *. rewrite fmap_cons, NoDup_cons.
  intros [Hn Hd]. destruct (decide _); [|auto].
  rewrite fmap_cons, NoDup_cons. split; [|auto].
  intros Hin. apply Hn, remainingBombs_tile, Hin.
Qed.

Lemma existsb_tile x y bs :
  existsb (fun b => samePos (bomb_x b) (bomb_y b) x y) bs = false ->
  (x, y) ∉ bombTiles bs.
Proof.
  unfold bombTiles. induction bs as [|b bs IH]; cbn; [intros _; apply not_elem_of_nil|].
  rewrite orb_false_iff. unfold samePos at 1. rewrite andb_false_iff.
  intros [Hb Hr]. rewrite not_elem_of_cons. split; [|exact (IH Hr)].
  intros [= Hx Hy]. destruct Hb as [Hb|Hb]; apply Z.eqb_neq in Hb; congruence.
Qed.

Lemma handleDropBomb_NoDup now a :
  NoDup (bombTiles (bombs (gameState a))) ->
  NoDup (bombTiles (bombs (gameState (handleDropBomb now a)))).
Proof.
  intros Hd. destruct (handleDropBomb_bombs now a) as [->|(-> & _ & Hfree)]; [exact Hd|].
  unfold bombTiles. rewrite fmap_app. cbn.
  apply NoDup_app. repeat split; [exact Hd| |apply NoDup_singleton].
  intros t Ht Hs. apply list_elem_of_singleton in Hs as ->.
  exact (existsb_tile _ _ _ Hfree Ht).
Qed.

Lemma step_NoDup e g a :
  leavesLevel e = false ->
  NoDup (bombTiles (bombs (gameState a))) ->
  NoDup (bombTiles (bombs (gameState (step e g a).1.1))).
Proof.
  intros Hl Hd. rewrite (step_bombs generateDungeon xpGained e g a Hl).
  destruct (turnOf e a); [apply remainingBombs_NoDup, Hd|].
  destruct e; try exact Hd. apply handleDropBomb_NoDup, Hd.
Qed.

Lemma run_NoDup evs a :
  Forall (fun eg => leavesLevel eg.1 = false) evs ->
  NoDup (bombTiles (bombs (gameState a))) ->
  NoDup (bombTiles (bombs (gameState (run evs a)))).
Proof.
  revert a. induction evs as [|[e g] evs IH]; intros a Hl Hd; [exact Hd|].
  apply Forall_cons in Hl as [Hl1 Hl]. cbn. apply IH; [exact Hl|].
  apply step_NoDup; assumption.
Qed.

End BombTiles.

(** ** The fuse *)

Section Fuse.
Variable generateDungeon : Z -> GameState.
Variable xpGained : EnemyType -> Z -> Z.
Variable now : Z.

#[local] Abbreviation step := (step generateDungeon xpGained).
#[local] Abbreviation run := (run generateDungeon xpGained).
#[local] Abbreviation detonations := (detonations generateDungeon xpGained).

(** The bombs of a list that carry the id [now]. *)
Definition own (bs : list Bomb) : list Bomb := filter (fun b => bomb_id b = now) bs.

Lemma own_cons b bs :
  own (b :: bs) = if decide (bomb_id b = now) then b :: own bs else own bs.
Proof. unfold own. rewrite filter_cons. reflexivity. Qed.

Lemma own_remainingBombs bs : own (remainingBombs bs) = remainingBombs (own bs).
Proof.
  induction bs as [|b bs IH]; [reflexivity|].
  rewrite remainingBombs_cons, own_cons.
  destruct (decide (0 < _)), (decide (bomb_id b = now));
    rewrite ?own_cons, ?remainingBombs_cons; cbn [tickBomb bomb_id];
    repeat destruct (decide _); try contradiction; congruence.
Qed.

Lemma own_explodingBombs bs : own (explodingBombs bs) = explodingBombs (own bs).
Proof.
  induction bs as [|b bs IH]; [reflexivity|].
  rewrite explodingBombs_cons, own_cons.
  destruct (decide (_ <= 0)), (decide (bomb_id b = now));
    rewrite ?own_cons, ?explodingBombs_cons; cbn [tickBomb bomb_id];
    repeat destruct (decide _); try contradiction; congruence.
Qed.

(** The bomb with id [now] on the tile ([x], [y]), [n] resolved turns after
    it was placed: armed with what is left of the fuse, or gone. *)
Definition armed (x y : Z) (n : Z) : list Bomb :=
  if decide (n < BOMB_FUSE_STEPS) then [mkBomb x y now (BOMB_FUSE_STEPS - n)] else [].

Lemma armed_remaining x y n :
  0 <= n -> remainingBombs (armed x y n) = armed x y (n + 1).
Proof.
  intros Hn. unfold armed. repeat destruct (decide _); try lia; try reflexivity.
  - rewrite remainingBombs_cons. cbn. destruct (decide _); [|lia].
    unfold tickBomb. cbn. do 2 f_equal. lia.
  - rewrite remainingBombs_cons. cbn. destruct (decide _); [lia|reflexivity].
Qed.

Lemma armed_exploding x y n :
  0 <= n ->
  explodingBombs (armed x y n)
  = if decide (n + 1 = BOMB_FUSE_STEPS) then [mkBomb x y now 0] else [].
Proof.
  intros Hn. unfold armed. repeat destruct (decide _); try lia; try reflexivity.
  - rewrite explodingBombs_cons. cbn. destruct (decide _); [|lia].
    unfold tickBomb. cbn. do 2 f_equal. lia.
  - rewrite explodingBombs_cons. cbn. destruct (decide _); [lia|reflexivity].
Qed.

Lemma own_step x y n e g a :
  0 <= n ->
  leavesLevel e = false -> e <> EDropBomb now ->
  own (bombs (gameState a)) = armed x y n ->
  own (bombs (gameState (step e g a).1.1))
  = armed x y (match turnOf e a with Some _ => n + 1 | None => n end).
Proof.
  intros Hn Hl He Hown. rewrite (step_bombs generateDungeon xpGained e g a Hl).
  destruct (turnOf e a).
  - rewrite own_remainingBombs, Hown. apply armed_remaining, Hn.
  - destruct e as [| |now'| | | |]; try exact Hown.
    destruct (handleDropBomb_bombs now' a) as [->|(-> & _)]; [exact Hown|].
    unfold own. rewrite filter_app. fold (own (bombs (gameState a))). rewrite Hown.
    rewrite filter_cons. cbn. destruct (decide (now' = now)) as [->|_]; [congruence|].
    apply app_nil_r.
Qed.

Lemma fuse_run x y evs : forall n a,
  0 <= n ->
  Forall (fun eg => leavesLevel eg.1 = false /\ eg.1 <> EDropBomb now) evs ->
  own (bombs (gameState a)) = armed x y n ->
  (forall k bs, detonations evs a !! k = Some bs ->
     own bs = if decide (n + Z.of_nat (S k) = BOMB_FUSE_STEPS)
              then [mkBomb x y now 0] else [])
  /\ own (bombs (gameState (run evs a)))
     = armed x y (n + Z.of_nat (length (detonations evs a))).
Proof.
  induction evs as [|[e g] evs IH]; intros n a Hn Hev Hown.
  - cbn. split; [intros k bs; rewrite lookup_nil; discriminate|].
    rewrite Z.add_0_r. exact Hown.
  - apply Forall_cons in Hev as [[Hl He] Hev]. cbn [fst] in Hl, He.
    pose proof (own_step x y n e g a Hn Hl He Hown) as Hs.
    cbn [detonations run fold_left]. fold (run evs (step e g a).1.1).
    destruct (turnOf e a).
    + destruct (IH (n + 1) _ ltac:(lia) Hev Hs) as [IH1 IH2]. split.
      * intros [|k] bs; cbn.
        -- intros [= <-]. rewrite own_explodingBombs, Hown.
           rewrite armed_exploding by exact Hn. reflexivity.
        -- intros Hk. rewrite (IH1 k bs Hk).
           repeat destruct (decide _); try lia; reflexivity.
      * rewrite IH2. cbn [length]. f_equal. lia.
    + exact (IH n _ Hn Hev Hs).
Qed.

End Fuse.

(** The fuse counted in runs of [processTurn].  A bomb that
    [handleDropBomb] places with a new id is among the exploding bombs of
    the run of [processTurn] number [BOMB_FUSE_STEPS] after that and of no
    other, over every sequence of events that stays in the level; until
    then it is in the list of bombs with what is left of its fuse, from
    then on it is not in the list. *)
Theorem bomb_detonates_once_when_fuse_runs_out
    (generateDungeon : Z -> GameState) (xpGained : EnemyType -> Z -> Z)
    (a : App) (now : Z) (evs : list (Event * Rng)) :
  let a0 := handleDropBomb now a in
  let x := player_x (player (gameState a)) in
  let y := player_y (player (gameState a)) in
  let ds := detonations generateDungeon xpGained evs a0 in
  let turns := Z.of_nat (length ds) in
  bombs (gameState a0) = bombs (gameState a) ++ [mkBomb x y now BOMB_FUSE_STEPS] ->
  Forall (fun b => bomb_id b <> now) (bombs (gameState a)) ->
  Forall (fun eg => leavesLevel eg.1 = false /\ eg.1 <> EDropBomb now) evs ->
  (forall k bs, ds !! k = Some bs ->
     filter (fun b => bomb_id b = now) bs
     = if decide (Z.of_nat (S k) = BOMB_FUSE_STEPS) then [mkBomb x y now 0] else [])
  /\ filter (fun b => bomb_id b = now) (bombs (gameState (run generateDungeon xpGained evs a0)))
     = if decide (turns < BOMB_FUSE_STEPS)
       then [mkBomb x y now (BOMB_FUSE_STEPS - turns)] else [].
Proof.
  intros a0 x y ds turns Hplaced Hnew Hev.
  assert (Hown : own now (bombs (gameState a0)) = armed now x y 0).
  { rewrite Hplaced. unfold own. rewrite filter_app, filter_cons. cbn.
    destruct (decide (now = now)); [|congruence].
    replace (filter _ (bombs (gameState a))) with (@nil Bomb); [reflexivity|].
    symmetry. clear -Hnew. induction Hnew as [|b bs Hb _ IH]; [reflexivity|].
    rewrite filter_cons. destruct (decide _); [contradiction|exact IH]. }
  destruct (fuse_run generateDungeon xpGained now x y evs 0 a0 ltac:(lia) Hev Hown)
    as [H1 H2].
  split.
  - intros k bs Hk. exact (H1 k bs Hk).
  - exact H2.
Qed.

(** A walled room of 3 by 3 floor tiles; the sapper stands at (1, 1) with
    three bombs. *)
Definition room : GameMap :=
  [ [WALL; WALL; WALL; WALL; WALL];
    [WALL; FLOOR; FLOOR; FLOOR; WALL];
    [WALL; FLOOR; FLOOR; FLOOR; WALL];
    [WALL; FLOOR; FLOOR; FLOOR; WALL];
    [WALL; WALL; WALL; WALL; WALL] ].

Definition sapperApp : App :=
  mkApp (GAME_STATE <|G_gs_map room|>
                    <|G_player (spread initialPlayer (PLAYER_CLASSES Sapper))|>)
        false false false false false false false None.

(** A step to the right or to the left, then the two timers that follow a
    resolved turn: the enemy turn and the release of the input lock. *)
Definition turnTo (d : Direction) : list (Event * Rng) :=
  [ (EMove d, []); (ETimer (TAfterTurn GAME_STATE false true), []); (ETimer TUnlock, []) ].

Definition sixTurns : list (Event * Rng) :=
  turnTo ArrowRight ++ turnTo ArrowLeft ++ turnTo ArrowRight
  ++ turnTo ArrowLeft ++ turnTo ArrowRight ++ turnTo ArrowLeft.

Example sixTurns_detonations :
  detonations (fun _ => GAME_STATE) (fun _ _ => 0) sixTurns (handleDropBomb 7 sapperApp)
  = [ []; []; []; []; []; [mkBomb 1 1 7 0] ]
  /\ bombs (gameState (run (fun _ => GAME_STATE) (fun _ _ => 0) sixTurns
                           (handleDropBomb 7 sapperApp))) = []
  /\ hp (player (gameState (run (fun _ => GAME_STATE) (fun _ _ => 0) sixTurns
                                (handleDropBomb 7 sapperApp)))) = 25.
Proof. vm_compute. repeat split; reflexivity. Qed.

Lemma bomb_detonates_once_witness :
  let a0 := handleDropBomb 7 sapperApp in
  let ds := detonations (fun _ => GAME_STATE) (fun _ _ => 0) sixTurns a0 in
  (forall k bs, ds !! k = Some bs ->
     filter (fun b => bomb_id b = 7) bs
     = if decide (Z.of_nat (S k) = BOMB_FUSE_STEPS) then [mkBomb 1 1 7 0] else [])
  /\ filter (fun b => bomb_id b = 7)
            (bombs (gameState (run (fun _ => GAME_STATE) (fun _ _ => 0) sixTurns a0)))
     = if decide (Z.of_nat (length ds) < BOMB_FUSE_STEPS)
       then [mkBomb 1 1 7 (BOMB_FUSE_STEPS - Z.of_nat (length ds))] else [].
Proof.
  apply (bomb_detonates_once_when_fuse_runs_out
           (fun _ => GAME_STATE) (fun _ _ => 0) sapperApp 7 sixTurns).
  - vm_compute. reflexivity.
  - vm_compute. constructor.
  - repeat constructor; discriminate.
Defined.

(** ** The order of the enemies *)

Lemma heading_tie_misses (player : Player) (enemy : Enemy) (r : Q) :
  let '(nx, ny, tie) := heading player enemy r in
  tie = true -> samePos nx ny (player_x player) (player_y player) = false.
Proof.
  unfold heading, samePos.
  destruct (Z.gtb_spec (Z.abs (player_x player - enemy_x enemy))
                       (Z.abs (player_y player - enemy_y enemy))); [discriminate|].
  destruct (Z.gtb_spec (Z.abs (player_y player - enemy_y enemy))
                       (Z.abs (player_x player - enemy_x enemy))); [discriminate|].
  destruct (Z.eqb_spec (player_x player - enemy_x enemy) 0); cbn [negb]; [discriminate|].
  destruct (gtHalf r); intros _; apply andb_false_iff.
  - right. apply Z.eqb_neq. lia.
  - left. apply Z.eqb_neq. lia.
Qed.

(** The callback of [processEnemyTurn] in terms of the decision of the
    enemy for the draw at the head of the oracle. *)
Lemma enemyTurnStep_decision (prev : GameState) (p : Player) (g : Rng) (e : Enemy) :
  let D := decision prev e (draw g).1 in
  enemyTurnStep prev (p, g) e
  = ((applyHit (hit D) p, if drew D then (draw g).2 else g), moved D).
Proof.
  unfold enemyTurnStep, decision.
  destruct (enemy_hp e <=? 0); [reflexivity|].
  unfold screenOf. cbn [pos_x pos_y].
  destruct (_ || _); [reflexivity|].
  pose proof (heading_tie_misses (player prev) e (draw g).1) as Htie.
  unfold heading in *.
  destruct (Z.abs (player_x (player prev) - enemy_x e)
            >? Z.abs (player_y (player prev) - enemy_y e)).
  { destruct (samePos _ _ _ _); [destruct (draw g)|destruct (_ && _)]; reflexivity. }
  destruct (Z.abs (player_y (player prev) - enemy_y e)
            >? Z.abs (player_x (player prev) - enemy_x e)).
  { destruct (samePos _ _ _ _); [destruct (draw g)|destruct (_ && _)]; reflexivity. }
  destruct (negb (player_x (player prev) - enemy_x e =? 0)).
  - destruct (draw g) as [r g']. cbn [fst snd] in *.
    destruct (gtHalf r); rewrite (Htie eq_refl); destruct (_ && _); reflexivity.
  - destruct (samePos _ _ _ _); [destruct (draw g)|destruct (_ && _)]; reflexivity.
Qed.

(** A decision that takes no draw does not depend on the draw. *)
Lemma decision_no_draw (prev : GameState) (e : Enemy) (r r' : Q) :
  drew (decision prev e r) = false -> decision prev e r' = decision prev e r.
Proof.
  unfold decision.
  destruct (enemy_hp e <=? 0); [reflexivity|].
  destruct (_ || _); [reflexivity|].
  unfold heading.
  destruct (Z.abs (player_x (player prev) - enemy_x e)
            >? Z.abs (player_y (player prev) - enemy_y e)).
  { destruct (samePos _ _ _ _); [discriminate|reflexivity]. }
  destruct (Z.abs (player_y (player prev) - enemy_y e)
            >? Z.abs (player_x (player prev) - enemy_x e)).
  { destruct (samePos _ _ _ _); [discriminate|reflexivity]. }
  destruct (negb (player_x (player prev) - enemy_x e =? 0)).
  - destruct (gtHalf r); destruct (samePos _ _ _ _); discriminate.
  - destruct (samePos _ _ _ _); [discriminate|reflexivity].
Qed.

(** Putting a draw back in front of the oracle when it is taken. *)
Definition push (b : bool) (r : Q) (g : Rng) : Rng := if b then r :: g else g.

Lemma enemyTurnStep_push (prev : GameState) (p : Player) (r : Q) (t : Rng) (e : Enemy) :
  let D := decision prev e r in
  enemyTurnStep prev (p, push (drew D) r t) e = ((applyHit (hit D) p, t), moved D).
Proof.
  cbn zeta. rewrite enemyTurnStep_decision. unfold push.
  destruct (drew (decision prev e r)) eqn:Hd.
  - cbn [draw fst snd]. rewrite Hd. reflexivity.
  - rewrite (decision_no_draw prev e r _ Hd), Hd. reflexivity.
Qed.

Lemma applyHit_comm (h1 h2 : option (Z * bool)) (p : Player) :
  applyHit h1 (applyHit h2 p) = applyHit h2 (applyHit h1 p).
Proof.
  destruct p, h1 as [[d1 [|]]|], h2 as [[d2 [|]]|]; cbn; try reflexivity;
    destruct isPoisoned0; cbn; f_equal; lia.
Qed.

Lemma existsb_Permutation {A} (f : A -> bool) (l l' : list A) :
  Permutation l l' -> existsb f l = existsb f l'.
Proof.
  induction 1; cbn; try congruence.
  - destruct (f x), (f y); reflexivity.
Qed.

(** The decision reads the enemies of the snapshot as a set. *)
Lemma decision_snapshot (prev : GameState) (es' : list Enemy) (e : Enemy) (r : Q) :
  Permutation (enemies prev) es' ->
  decision (prev <|G_enemies es'|>) e r = decision prev e r.
Proof.
  intros Hperm. unfold decision.
  change (player (prev <|G_enemies es'|>)) with (player prev).
  change (gs_map (prev <|G_enemies es'|>)) with (gs_map prev).
  change (enemies (prev <|G_enemies es'|>)) with es'.
  destruct (enemy_hp e <=? 0); [reflexivity|].
  destruct (_ || _); [reflexivity|].
  destruct (heading (player prev) e r) as [[nx ny] tie].
  rewrite <- (existsb_Permutation _ _ _ Hperm). reflexivity.
Qed.

Lemma enemyTurnStep_snapshot (prev : GameState) (es' : list Enemy) st e :
  Permutation (enemies prev) es' ->
  enemyTurnStep (prev <|G_enemies es'|>) st e = enemyTurnStep prev st e.
Proof.
  intros Hperm. destruct st as [p g]. rewrite !enemyTurnStep_decision.
  rewrite (decision_snapshot prev es' e _ Hperm). reflexivity.
Qed.

Lemma mapAccum_ext {A B St} (f f' : St -> A -> St * B) (st : St) (l : list A) :
  (forall st a, f st a = f' st a) -> mapAccum f st l = mapAccum f' st l.
Proof.
  intros H. revert st. induction l as [|a l IH]; intros st; [reflexivity|].
  cbn. rewrite H. destruct (f' st a) as [st1 b]. rewrite IH. reflexivity.
Qed.

(** Every enemy the turn returns is the decision of that enemy on the
    state before the turn. *)
Lemma mapAccum_decisions (prev : GameState) (l : list Enemy) : forall p g,
  Forall2 (fun e e' => exists r, e' = moved (decision prev e r))
          l (mapAccum (enemyTurnStep prev) (p, g) l).2.
Proof.
  induction l as [|e l IH]; intros p g; [constructor|].
  cbn [mapAccum]. rewrite enemyTurnStep_decision.
  specialize (IH (applyHit (hit (decision prev e (draw g).1)) p)
                 (if drew (decision prev e (draw g).1) then (draw g).2 else g)).
  destruct (mapAccum _ _ l) as [st bs]. cbn [snd] in *.
  constructor; [eexists; reflexivity|exact IH].
Qed.

(** *** The draws of a turn, enemy by enemy *)

(** The enemies of [l], each with the draw it finds at the head of the
    oracle when its turn comes, and what is left of the oracle after them. *)
Fixpoint withDraws (prev : GameState) (g : Rng) (l : list Enemy) : list (Enemy * Q) :=
  match l with
  | [] => []
  | e :: l' =>
      let r := (draw g).1 in
      (e, r) :: withDraws prev (if drew (decision prev e r) then (draw g).2 else g) l'
  end.

Fixpoint oracleLeft (prev : GameState) (g : Rng) (l : list Enemy) : Rng :=
  match l with
  | [] => g
  | e :: l' =>
      oracleLeft prev (if drew (decision prev e (draw g).1) then (draw g).2 else g) l'
  end.

(** The oracle that hands the enemies of [l] their draws in the order of
    [l]: an enemy that takes a draw finds its own at the head; [rest]
    follows. *)
Definition oracleOf (prev : GameState) (l : list (Enemy * Q)) (rest : Rng) : Rng :=
  fold_right (fun er t => push (drew (decision prev er.1 er.2)) er.2 t) rest l.

(** The enemies and the player that the decisions of [l] give. *)
Definition outcomes (prev : GameState) (l : list (Enemy * Q)) : list Enemy :=
  map (fun er => moved (decision prev er.1 er.2)) l.
Definition hits (prev : GameState) (l : list (Enemy * Q)) (p : Player) : Player :=
  fold_left (fun p er => applyHit (hit (decision prev er.1 er.2)) p) l p.

Lemma withDraws_fst (prev : GameState) (l : list Enemy) : forall g,
  map fst (withDraws prev g l) = l.
Proof.
  induction l as [|e l IH]; intros g; [reflexivity|]. cbn. rewrite IH. reflexivity.
Qed.

(** The loop over the enemies on an oracle: every enemy returns the
    decision it takes on the state before the turn with its own draw. *)
Lemma mapAccum_withDraws (prev : GameState) (l : list Enemy) : forall p g,
  mapAccum (enemyTurnStep prev) (p, g) l
  = ((hits prev (withDraws prev g l) p, oracleLeft prev g l),
     outcomes prev (withDraws prev g l)).
Proof.
  induction l as [|e l IH]; intros p g; [reflexivity|].
  cbn [mapAccum withDraws oracleLeft]. rewrite enemyTurnStep_decision.
  rewrite IH. reflexivity.
Qed.

Lemma mapAccum_oracleOf (prev : GameState) (l : list (Enemy * Q)) (rest : Rng) :
  forall p,
  mapAccum (enemyTurnStep prev) (p, oracleOf prev l rest) (map fst l)
  = ((hits prev l p, rest), outcomes prev l).
Proof.
  induction l as [|[e r] l IH]; intros p; [reflexivity|].
  cbn [mapAccum map fst oracleOf fold_right snd].
  fold (oracleOf prev l rest).
  pose proof (enemyTurnStep_push prev p r (oracleOf prev l rest) e) as Hs.
  cbn zeta in Hs. rewrite Hs, IH. reflexivity.
Qed.

(** The hits of a turn commute. *)
Lemma hits_Permutation (prev : GameState) (l l' : list (Enemy * Q)) :
  Permutation l l' -> forall p, hits prev l p = hits prev l' p.
Proof.
  unfold hits. induction 1 as [|x l l' _ IH|x y l|l l' l'' _ IH1 _ IH2]; intros p.
  - reflexivity.
  - cbn [fold_left]. apply IH.
  - cbn [fold_left]. rewrite applyHit_comm. reflexivity.
  - rewrite IH1. apply IH2.
Qed.

(** C5, as the first stage has it.  Pair every enemy with the draw it
    takes from the oracle.  Each enemy the turn returns is the decision of
    that enemy, with its draw, on the state before the turn: no enemy
    reacts to the move of another.  For the list in any other order, on the
    oracle that holds the same draws in the matching order, the turn
    returns these same decisions in the new order, the same player, the
    same game-over flag and the same rest of the oracle. *)
Theorem enemy_turn_reads_snapshot_only
    (prev : GameState) (g : Rng) (l' : list (Enemy * Q)) :
  let l := withDraws prev g (enemies prev) in
  Permutation l l' ->
  let r := enemyTurnState prev g in
  let r' := enemyTurnState (prev <|G_enemies (map fst l')|>) (oracleOf prev l' r.2) in
  enemies r.1.1 = map (fun er => moved (decision prev er.1 er.2)) l
  /\ enemies r'.1.1 = map (fun er => moved (decision prev er.1 er.2)) l'
  /\ Permutation (enemies r.1.1) (enemies r'.1.1)
  /\ player r'.1.1 = player r.1.1
  /\ r'.1.2 = r.1.2
  /\ r'.2 = r.2.
Proof.
  intros l Hperm. cbn zeta.
  assert (Hes : Permutation (enemies prev) (map fst l')).
  { rewrite <- (withDraws_fst prev (enemies prev) g). apply Permutation_map, Hperm. }
  unfold enemyTurnState.
  change (enemies (prev <|G_enemies (map fst l')|>)) with (map fst l').
  change (player (prev <|G_enemies (map fst l')|>)) with (player prev).
  rewrite (mapAccum_ext (enemyTurnStep (prev <|G_enemies (map fst l')|>))
                        (enemyTurnStep prev))
    by (intros; apply enemyTurnStep_snapshot, Hes).
  rewrite mapAccum_withDraws. fold l. cbn [fst snd].
  rewrite mapAccum_oracleOf.
  rewrite (hits_Permutation prev l l' Hperm).
  cbn. repeat split. apply Permutation_map, Hperm.
Qed.

(** Two goblins in one row with the player; the far one is blocked by the
    near one whatever the order of the list. *)
Definition nearGoblin : Enemy := mkEnemy 2 1 1 GOBLIN 20 3 None.
Definition farGoblin : Enemy := mkEnemy 3 1 2 GOBLIN 20 3 None.

Definition twoGoblins : GameState :=
  GAME_STATE <|G_gs_map (replicate 3 (replicate 5 FLOOR))|>
             <|G_player (initialPlayer <|F_player_x 0|>)|>
             <|G_enemies [nearGoblin; farGoblin]|>.

Example twoGoblins_turn :
  enemies (enemyTurnState twoGoblins []).1.1
  = [nearGoblin <|E_enemy_x 1|>; farGoblin]
  /\ enemies (enemyTurnState (twoGoblins <|G_enemies [farGoblin; nearGoblin]|>) []).1.1
     = [farGoblin; nearGoblin <|E_enemy_x 1|>].
Proof. vm_compute. split; reflexivity. Qed.

Lemma enemy_turn_reads_snapshot_only_witness :
  let l' := [(farGoblin, 0%Q); (nearGoblin, 0%Q)] in
  let r := enemyTurnState twoGoblins [] in
  let r' := enemyTurnState (twoGoblins <|G_enemies (map fst l')|>)
                           (oracleOf twoGoblins l' r.2) in
  enemies r.1.1
  = map (fun er => moved (decision twoGoblins er.1 er.2))
        (withDraws twoGoblins [] (enemies twoGoblins))
  /\ enemies r'.1.1 = map (fun er => moved (decision twoGoblins er.1 er.2)) l'
  /\ Permutation (enemies r.1.1) (enemies r'.1.1)
  /\ player r'.1.1 = player r.1.1
  /\ r'.1.2 = r.1.2
  /\ r'.2 = r.2.
Proof.
  apply (enemy_turn_reads_snapshot_only twoGoblins []
           [(farGoblin, 0%Q); (nearGoblin, 0%Q)]).
  apply perm_swap.
Defined.

(** A walled room on dungeon level 3 with a gold item right of the
    player. *)
Definition goldRoomState : App :=
  mkApp (GAME_STATE <|G_gs_map room|> <|G_gs_level 3|> <|G_items [mkItem 2 1 GOLD]|>)
        false false false false false false false None.

(** * Further properties of the first stage *)

(** ** Hit points and inventory through a turn *)

(** Hit points do not grow past [maxHp], which stays as it is, through the
    poison block, a pickup and a hazard. *)
Lemma poisonTick_hp p :
  hp (poisonTick p) <= hp p /\ maxHp (poisonTick p) = maxHp p
  /\ bombDamageBonus (poisonTick p) = bombDamageBonus p.
Proof.
  unfold poisonTick, POISON_DAMAGE. repeat case_match; cbn; repeat split; lia.
Qed.

Lemma pickUp_hp lvl t p :
  hp p <= maxHp p ->
  hp p <= hp (pickUp lvl t p) <= maxHp p /\ maxHp (pickUp lvl t p) = maxHp p.
Proof.
  intros H. destruct t; cbn; try (repeat split; lia).
  destruct (Z.ltb_spec (hp p) (maxHp p)); cbn; repeat split; lia.
Qed.

Lemma hazardHit_hp lvl t p :
  0 <= 5 + lvl ->
  (hp (hazardHit lvl t p) <= hp p \/ hp (hazardHit lvl t p) = 0)
  /\ maxHp (hazardHit lvl t p) = maxHp p.
Proof. intros H. destruct t; cbn; split; try reflexivity; lia. Qed.

(** X1.  The updater of [processTurn] keeps the hit points of a living
    player between 0 and [maxHp], and [maxHp] as it is, when the bomb and
    hazard damages are not negative. *)
Theorem turnState_keeps_hp_in_range (prev : GameState) (pos : Position) :
  0 < hp (player prev) <= maxHp (player prev) ->
  0 <= 50 + bombDamageBonus (player prev) ->
  0 <= 5 + gs_level prev ->
  let p' := player (finalState (turnState prev pos)) in
  0 <= hp p' <= maxHp p' /\ maxHp p' = maxHp (player prev).
Proof.
  intros [Hpos Hmax] Hbomb Hlvl p'. subst p'.
  pose proof (turnState_hp_nonneg prev pos Hpos) as Hlow.
  revert Hlow. unfold turnState.
  set (p0 := (player prev) <|F_player_x (pos_x pos)|> <|F_player_y (pos_y pos)|>).
  destruct (poisonTick_hp p0) as (H1 & M1 & B1).
  change (hp p0) with (hp (player prev)) in H1.
  change (maxHp p0) with (maxHp (player prev)) in M1.
  change (bombDamageBonus p0) with (bombDamageBonus (player prev)) in B1.
  set (p1 := poisonTick p0) in *. clearbody p1. clear p0.
  set (p2 := if negb _ && _ then _ else p1).
  assert (H2 : hp p2 <= maxHp (player prev) /\ maxHp p2 = maxHp (player prev)).
  { subst p2. destruct (_ && _); cbn; split; lia. }
  clearbody p2.
  set (r := if _ || _ then _ else _).
  assert (H3 : hp r.1 <= maxHp (player prev) /\ maxHp r.1 = maxHp (player prev)).
  { subst r. destruct (_ || _); [exact H2|].
    set (q := match List.find _ (items prev) with Some _ => _ | None => _ end).
    assert (Hq : hp q.1 <= maxHp (player prev) /\ maxHp q.1 = maxHp (player prev)).
    { subst q. destruct (List.find _ (items prev)) as [it|]; [|exact H2].
      destruct (bool_decide _); [exact H2|]. cbn [fst].
      destruct (pickUp_hp (gs_level prev) (item_type it) p2) as (Ha & Hb); lia. }
    destruct q as [pa picked]. cbn [fst] in Hq.
    destruct (List.find _ (hazards prev)) as [hz|]; [|exact Hq]. cbn [fst].
    destruct (hazardHit_hp (gs_level prev) (hazard_type hz) pa Hlvl) as (Ha & Hb). lia. }
  destruct r as [p3 picked]. cbn [fst] in H3.
  cbn. destruct ((hp p3 <=? 0) && _); cbn; intros Hlow; lia.
Qed.

Lemma turnState_keeps_hp_in_range_witness :
  let p' := player (finalState (turnState (gameState woundedApp) (mkPosition 1 2))) in
  0 <= hp p' <= maxHp p' /\ maxHp p' = maxHp (player (gameState woundedApp)).
Proof.
  apply (turnState_keeps_hp_in_range (gameState woundedApp) (mkPosition 1 2));
    vm_compute; try split; congruence.
Defined.

(** What the player carries. *)
Definition inventory (p : Player) : Z * Z * Z * Z * Z :=
  (gold p, arrows p, bombCount p, potions p, antidotes p).

Definition caps (p : Player) : Z * Z := (maxArrows p, maxBombs p).

Lemma poisonTick_inventory p :
  inventory (poisonTick p) = inventory p /\ caps (poisonTick p) = caps p.
Proof. unfold poisonTick. repeat case_match; split; reflexivity. Qed.

Lemma hazardHit_inventory lvl t p :
  inventory (hazardHit lvl t p) = inventory p /\ caps (hazardHit lvl t p) = caps p.
Proof. destruct t; split; reflexivity. Qed.

(** The player after the updater of [processTurn], as far as the inventory
    goes: the player before it, with the pickup if there is one. *)
Lemma turnState_inventory (prev : GameState) (pos : Position) :
  let r := finalState (turnState prev pos) in
  let found :=
    if atOpt (wizard prev) (pos_x pos) (pos_y pos) || atOpt (exit prev) (pos_x pos) (pos_y pos)
    then None
    else match List.find (fun i => samePos (item_x i) (item_y i) (pos_x pos) (pos_y pos))
                         (items prev) with
         | Some it => if bool_decide (itemKey it ∈ pickedUpItems prev) then None else Some it
         | None => None
         end in
  caps (player r) = caps (player prev)
  /\ match found with
     | Some it =>
         pickedUpItems r = {[ itemKey it ]} ∪ pickedUpItems prev
         /\ exists q, inventory q = inventory (player prev) /\ caps q = caps (player prev)
                      /\ inventory (player r) = inventory (pickUp (gs_level prev) (item_type it) q)
     | None =>
         pickedUpItems r = pickedUpItems prev
         /\ inventory (player r) = inventory (player prev)
     end.
Proof.
  cbn zeta. unfold turnState.
  set (p0 := (player prev) <|F_player_x (pos_x pos)|> <|F_player_y (pos_y pos)|>).
  destruct (poisonTick_inventory p0) as (I1 & C1).
  change (inventory p0) with (inventory (player prev)) in I1.
  change (caps p0) with (caps (player prev)) in C1.
  set (p1 := poisonTick p0) in *. clearbody p1. clear p0.
  set (p2 := if negb _ && _ then _ else p1).
  assert (H2 : inventory p2 = inventory (player prev) /\ caps p2 = caps (player prev)).
  { subst p2. destruct (_ && _); split; assumption. }
  clearbody p2. destruct H2 as [I2 C2].
  assert (Hhz : forall (pa : Player) (picked : gset ItemKey),
             let res := match List.find (fun t => samePos (hazard_x t) (hazard_y t)
                                                          (pos_x pos) (pos_y pos))
                                        (hazards prev) with
                        | Some hazardAtPos =>
                            (hazardHit (gs_level prev) (hazard_type hazardAtPos) pa, picked)
                        | None => (pa, picked)
                        end in
             inventory res.1 = inventory pa /\ caps res.1 = caps pa /\ res.2 = picked).
  { intros pa picked. destruct (List.find _ (hazards prev)) as [hz|]; cbn;
      [destruct (hazardHit_inventory (gs_level prev) (hazard_type hz) pa)|]; auto. }
  destruct (_ || _).
  { unfold inventory, caps in *. cbn.
    destruct ((hp p2 <=? 0) && _); cbn; repeat split; congruence. }
  destruct (List.find _ (items prev)) as [it|].
  - destruct (bool_decide _).
    + specialize (Hhz p2 (pickedUpItems prev)). cbn zeta in Hhz.
      destruct (match List.find _ (hazards prev) with Some _ => _ | None => _ end)
        as [p3 picked]. cbn [fst snd] in Hhz. destruct Hhz as (Hi & Hc & ->).
      unfold inventory, caps in *. cbn. destruct ((hp p3 <=? 0) && _); cbn; repeat split; congruence.
    + specialize (Hhz (pickUp (gs_level prev) (item_type it) p2)
                      ({[ itemKey it ]} ∪ pickedUpItems prev)). cbn zeta in Hhz.
      assert (Cp : caps (pickUp (gs_level prev) (item_type it) p2) = caps (player prev))
        by (rewrite <- C2; destruct (item_type it); cbn; repeat case_match; reflexivity).
      destruct (match List.find _ (hazards prev) with Some _ => _ | None => _ end)
        as [p3 picked]. cbn [fst snd] in Hhz. destruct Hhz as (Hi & Hc & ->).
      cbn. destruct ((hp p3 <=? 0) && _); cbn;
        (split; [unfold caps in *; cbn; congruence
                |split; [reflexivity
                        |exists p2; repeat split;
                         [assumption|assumption|unfold inventory in *; cbn; congruence]]]).
  - specialize (Hhz p2 (pickedUpItems prev)). cbn zeta in Hhz.
    destruct (match List.find _ (hazards prev) with Some _ => _ | None => _ end)
      as [p3 picked]. cbn [fst snd] in Hhz. destruct Hhz as (Hi & Hc & ->).
    unfold inventory, caps in *. cbn. destruct ((hp p3 <=? 0) && _); cbn; repeat split; congruence.
Qed.

(** X2.  The updater of [processTurn] never takes anything from the
    inventory, and keeps arrows and bombs within the player's caps and
    potions and antidotes within 3. *)
Theorem turnState_keeps_inventory_capped (prev : GameState) (pos : Position) :
  let p := player prev in
  let p' := player (finalState (turnState prev pos)) in
  arrows p <= maxArrows p -> bombCount p <= maxBombs p ->
  potions p <= 3 -> antidotes p <= 3 ->
  (arrows p <= arrows p' <= maxArrows p')
  /\ (bombCount p <= bombCount p' <= maxBombs p')
  /\ (potions p <= potions p' <= 3)
  /\ (antidotes p <= antidotes p' <= 3)
  /\ (0 <= 5 + gs_level prev -> gold p <= gold p').
Proof.
  intros p p' Ha Hb Hp Hn. subst p p'.
  destruct (turnState_inventory prev pos) as [Hc Hi]. cbn zeta in Hc, Hi.
  set (p' := player (finalState (turnState prev pos))) in *. clearbody p'.
  unfold caps in Hc. injection Hc as Hc1 Hc2.
  destruct (if _ || _ then _ else _) as [it|].
  - destruct Hi as (_ & q & Iq & Cq & Ir).
    unfold inventory, caps in *. injection Iq as ? ? ? ? ?. injection Cq as ? ?.
    destruct (item_type it); cbn in Ir; repeat case_match; cbn in Ir;
      injection Ir as ? ? ? ? ?; repeat split; try lia.
  - destruct Hi as (_ & Ir). unfold inventory in Ir. injection Ir as ? ? ? ? ?.
    repeat split; lia.
Qed.

Lemma turnState_keeps_inventory_capped_witness :
  let p := player (gameState goldRoomState) in
  let p' := player (finalState (turnState (gameState goldRoomState) (mkPosition 2 1))) in
  (arrows p <= arrows p' <= maxArrows p')
  /\ (bombCount p <= bombCount p' <= maxBombs p')
  /\ (potions p <= potions p' <= 3)
  /\ (antidotes p <= antidotes p' <= 3)
  /\ (0 <= 5 + gs_level (gameState goldRoomState) -> gold p <= gold p').
Proof.
  apply (turnState_keeps_inventory_capped (gameState goldRoomState) (mkPosition 2 1));
    vm_compute; congruence.
Defined.

(** X3.  Without a new pickup the updater of [processTurn] leaves the
    inventory and the picked-up set as they are: on the wizard's tile or the
    exit, on a tile without an item, or on an item whose position is in the
    set.  The set never loses a position. *)
Theorem turnState_pickup_only_once (prev : GameState) (pos : Position) :
  let r := finalState (turnState prev pos) in
  pickedUpItems prev ⊆ pickedUpItems r
  /\ ((atOpt (wizard prev) (pos_x pos) (pos_y pos) = true
       \/ atOpt (exit prev) (pos_x pos) (pos_y pos) = true
       \/ (forall it, List.find (fun i => samePos (item_x i) (item_y i) (pos_x pos) (pos_y pos))
                                (items prev) = Some it ->
                      itemKey it ∈ pickedUpItems prev)) ->
      inventory (player r) = inventory (player prev)
      /\ pickedUpItems r = pickedUpItems prev).
Proof.
  intros r. subst r.
  destruct (turnState_inventory prev pos) as [_ Hi]. cbn zeta in Hi.
  set (r := finalState (turnState prev pos)) in *. clearbody r.
  split.
  - destruct (if _ || _ then _ else _) as [it|]; destruct Hi as [-> _];
      [apply union_subseteq_r|reflexivity].
  - intros Hno.
    assert (Hnone : (if atOpt (wizard prev) (pos_x pos) (pos_y pos)
                        || atOpt (exit prev) (pos_x pos) (pos_y pos)
                     then None
                     else match List.find (fun i => samePos (item_x i) (item_y i)
                                                            (pos_x pos) (pos_y pos))
                                          (items prev) with
                          | Some it => if bool_decide (itemKey it ∈ pickedUpItems prev)
                                       then None else Some it
                          | None => None
                          end) = None).
    { destruct Hno as [->|[->|Hno]];
        [reflexivity|rewrite orb_true_r; reflexivity|].
      destruct (_ || _); [reflexivity|].
      destruct (List.find _ (items prev)) as [it|]; [|reflexivity].
      rewrite bool_decide_eq_true_2 by (apply Hno; reflexivity). reflexivity. }
    rewrite Hnone in Hi. destruct Hi as [Hp Hv]. split; assumption.
Qed.

Lemma turnState_pickup_only_once_witness :
  let prev := gameState goldRoomState in
  let r := finalState (turnState prev (mkPosition 1 2)) in
  inventory (player r) = inventory (player prev)
  /\ pickedUpItems r = pickedUpItems prev.
Proof.
  apply (proj2 (turnState_pickup_only_once (gameState goldRoomState) (mkPosition 1 2))).
  right. right. intros it. vm_compute. discriminate.
Defined.

(** ** The blast *)

Lemma inBlast_In (bl : list Position) (x y : Z) :
  inBlast bl x y = true <-> mkPosition x y ∈ bl.
Proof.
  unfold inBlast. rewrite existsb_exists. split.
  - intros ([px py] & Hin & Hs). unfold samePos in Hs. cbn in Hs.
    apply andb_true_iff in Hs as [Hx Hy].
    apply Z.eqb_eq in Hx, Hy. subst. apply list_elem_of_In, Hin.
  - intros Hin. exists (mkPosition x y). split; [apply list_elem_of_In, Hin|].
    unfold samePos. cbn. rewrite !Z.eqb_refl. reflexivity.
Qed.

Lemma pushIfAbsent_elem (bl : list Position) (x y : Z) (p : Position) :
  p ∈ pushIfAbsent bl x y <-> p ∈ bl \/ p = mkPosition x y.
Proof.
  unfold pushIfAbsent. fold (inBlast bl x y).
  destruct (inBlast bl x y) eqn:Hb.
  - apply inBlast_In in Hb. split; [auto|]. intros [H| ->]; assumption.
  - rewrite elem_of_app, list_elem_of_singleton. reflexivity.
Qed.

Lemma pushIfAbsent_NoDup (bl : list Position) (x y : Z) :
  NoDup bl -> NoDup (pushIfAbsent bl x y).
Proof.
  intros Hd. unfold pushIfAbsent. fold (inBlast bl x y).
  destruct (inBlast bl x y) eqn:Hb; [exact Hd|].
  apply NoDup_app. repeat split; [exact Hd| |apply NoDup_singleton].
  intros p Hp Hs. apply list_elem_of_singleton in Hs as ->.
  apply inBlast_In in Hp. congruence.
Qed.

(** The tile [j] steps from ([bx], [by_]) along arm [i] of the blast, as
    the loops over [i] and [j] compute it. *)
Definition armTile (bx by_ : Z) (i : nat) (j : Z) : Z * Z :=
  (bx + match i with 0%nat => j | 1%nat => - j | _ => 0 end,
   by_ + match i with 2%nat => j | 3%nat => - j | _ => 0 end).

(** A tile that the blast of the bomb at ([bx], [by_]) reaches along an
    arm: [k] steps from the bomb in one of the four directions, at most
    [BOMB_RANGE] away, with no wall on the way from the bomb to the tile,
    the tile itself included. *)
Definition onArm (m : GameMap) (bx by_ : Z) (p : Position) : Prop :=
  exists (i : nat) (k : Z),
    (i < 4)%nat /\ 1 <= k <= Z.of_nat BOMB_RANGE
    /\ p = mkPosition (armTile bx by_ i k).1 (armTile bx by_ i k).2
    /\ forall j, 1 <= j <= k ->
         tileAt m (armTile bx by_ i j).1 (armTile bx by_ i j).2 <> Some WALL.

Lemma blastArm_S (m : GameMap) (bx by_ : Z) (i : nat) (j : Z) (n : nat)
    (bl : list Position) :
  blastArm m bx by_ i j (S n) bl
  = if bool_decide (tileAt m (armTile bx by_ i j).1 (armTile bx by_ i j).2 = Some WALL)
    then bl
    else blastArm m bx by_ i (j + 1) n
           (pushIfAbsent bl (armTile bx by_ i j).1 (armTile bx by_ i j).2).
Proof. reflexivity. Qed.

(** One arm from step [j] on, [n] steps at the most: what it adds is the
    tiles up to the first wall. *)
Lemma blastArm_elem (m : GameMap) (bx by_ : Z) (i : nat) (n : nat) :
  forall (j : Z) (bl : list Position) (p : Position),
  p ∈ blastArm m bx by_ i j n bl
  <-> p ∈ bl
      \/ exists k, j <= k < j + Z.of_nat n
           /\ p = mkPosition (armTile bx by_ i k).1 (armTile bx by_ i k).2
           /\ forall j', j <= j' <= k ->
                tileAt m (armTile bx by_ i j').1 (armTile bx by_ i j').2 <> Some WALL.
Proof.
  induction n as [|n IH]; intros j bl p.
  - cbn [blastArm]. split; [auto|]. intros [H|(k & Hk & _)]; [exact H|lia].
  - rewrite blastArm_S.
    destruct (bool_decide _) eqn:Hw.
    + apply bool_decide_eq_true_1 in Hw. split; [auto|].
      intros [H|(k & Hk & _ & Hfree)]; [exact H|].
      exfalso. apply (Hfree j); [lia|exact Hw].
    + apply bool_decide_eq_false_1 in Hw. rewrite IH, pushIfAbsent_elem. split.
      * intros [[H|H]|(k & Hk & Hp & Hfree)].
        -- left. exact H.
        -- right. exists j. split; [lia|]. split; [exact H|].
           intros j' Hj'. assert (j' = j) as -> by lia. exact Hw.
        -- right. exists k. split; [lia|]. split; [exact Hp|].
           intros j' Hj'. destruct (Z.eq_dec j' j) as [->|Hne]; [exact Hw|].
           apply Hfree. lia.
      * intros [H|(k & Hk & Hp & Hfree)]; [left; left; exact H|].
        destruct (Z.eq_dec k j) as [->|Hne]; [left; right; exact Hp|].
        right. exists k. split; [lia|]. split; [exact Hp|].
        intros j' Hj'. apply Hfree. lia.
Qed.

Lemma blastArm_NoDup (m : GameMap) (bx by_ : Z) (i : nat) (n : nat) :
  forall (j : Z) (bl : list Position),
  NoDup bl -> NoDup (blastArm m bx by_ i j n bl).
Proof.
  induction n as [|n IH]; intros j bl Hd; cbn [blastArm]; [exact Hd|].
  destruct (bool_decide _); [exact Hd|]. apply IH, pushIfAbsent_NoDup, Hd.
Qed.

(** The body of [explodingBombs.forEach]: it adds the tile of the bomb and
    the tiles on its four arms. *)
Lemma blastOf_elem (m : GameMap) (bl : list Position) (b : Bomb) (p : Position) :
  p ∈ blastOf m bl b
  <-> p ∈ bl \/ p = mkPosition (bomb_x b) (bomb_y b) \/ onArm m (bomb_x b) (bomb_y b) p.
Proof.
  unfold blastOf. rewrite pushIfAbsent_elem. cbn [fold_left].
  rewrite !blastArm_elem. unfold onArm.
  replace (1 + Z.of_nat BOMB_RANGE) with (Z.of_nat BOMB_RANGE + 1) by lia.
  split.
  - intros [[[[[H|H]|H]|H]|H]|H]; auto;
      destruct H as (k & Hk & Hp & Hfree); right; right;
      [exists 0%nat, k|exists 1%nat, k|exists 2%nat, k|exists 3%nat, k];
      (split; [lia|]); (split; [lia|]); (split; [exact Hp|exact Hfree]).
  - intros [H|[H|(i & k & Hi & Hk & Hp & Hfree)]]; [auto 10|auto|].
    left. destruct i as [|[|[|[|i]]]]; [| | | |lia].
    + left. left. left. right. exists k. split; [lia|]. split; assumption.
    + left. left. right. exists k. split; [lia|]. split; assumption.
    + left. right. exists k. split; [lia|]. split; assumption.
    + right. exists k. split; [lia|]. split; assumption.
Qed.

Lemma blastOf_NoDup (m : GameMap) (bl : list Position) (b : Bomb) :
  NoDup bl -> NoDup (blastOf m bl b).
Proof.
  intros Hd. unfold blastOf. apply pushIfAbsent_NoDup. cbn [fold_left].
  repeat apply blastArm_NoDup. exact Hd.
Qed.

Lemma blasts_elem (m : GameMap) (bs : list Bomb) : forall (bl : list Position) (p : Position),
  p ∈ fold_left (blastOf m) bs bl
  <-> p ∈ bl \/ exists b, b ∈ bs /\ (p = mkPosition (bomb_x b) (bomb_y b)
                                     \/ onArm m (bomb_x b) (bomb_y b) p).
Proof.
  induction bs as [|b bs IH]; intros bl p; cbn [fold_left].
  - split; [auto|]. intros [H|(b & Hb & _)]; [exact H|inversion Hb].
  - rewrite IH, blastOf_elem. split.
    + intros [[H|H]|(b' & Hb' & H)].
      * left. exact H.
      * right. exists b. split; [apply list_elem_of_here|exact H].
      * right. exists b'. split; [apply list_elem_of_further, Hb'|exact H].
    + intros [H|(b' & Hb' & H)]; [left; left; exact H|].
      apply elem_of_cons in Hb' as [->|Hb']; [left; right; exact H|].
      right. exists b'. split; assumption.
Qed.

Lemma blasts_NoDup (m : GameMap) (bs : list Bomb) : forall bl : list Position,
  NoDup bl -> NoDup (fold_left (blastOf m) bs bl).
Proof.
  induction bs as [|b bs IH]; intros bl Hd; cbn [fold_left]; [exact Hd|].
  apply IH, blastOf_NoDup, Hd.
Qed.

(** X4.  The blast a turn records is the union of the plus shapes of the
    bombs that go off in it, each tile listed once: a tile is in it exactly
    when it is the tile of such a bomb, or lies in one of the four
    directions from such a bomb, at most [BOMB_RANGE] tiles away, with no
    wall on the way from the bomb to it, itself included. *)
Theorem blast_is_made_of_plus_shapes (prev : GameState) (pos : Position) :
  let blasts := activeBlasts (finalState (turnState prev pos)) in
  let exploding := explodingBombs (bombs prev) in
  NoDup blasts
  /\ forall p, p ∈ blasts
       <-> exists b, b ∈ exploding
                     /\ (p = mkPosition (bomb_x b) (bomb_y b)
                         \/ onArm (gs_map prev) (bomb_x b) (bomb_y b) p).
Proof.
  cbn zeta.
  assert (Hb : activeBlasts (finalState (turnState prev pos))
               = if bool_decide (explodingBombs (bombs prev) = []) then []
                 else fold_left (blastOf (gs_map prev)) (explodingBombs (bombs prev)) []).
  { unfold turnState.
    repeat match goal with
    | |- context [let '(_, _) := ?e in _] => destruct e
    end. reflexivity. }
  rewrite Hb. clear Hb.
  destruct (bool_decide _) eqn:He.
  - apply bool_decide_eq_true_1 in He. rewrite He. split; [constructor|].
    intros p. split; [intros Hx; inversion Hx|intros (b & Hx & _); inversion Hx].
  - split; [apply blasts_NoDup; constructor|].
    intros p. rewrite blasts_elem. split; [|auto].
    intros [H|H]; [inversion H|exact H].
Qed.

(** ** More on the arrow *)

Section ArrowMore.
Variable xpGained : EnemyType -> Z -> Z.

#[local] Abbreviation moveArrow := (moveArrow xpGained).
#[local] Abbreviation flyOn := (flyOn xpGained).
#[local] Abbreviation handleFireArrow := (handleFireArrow xpGained).

Lemma moveArrow_arrows closure d x y g a :
  arrows (player (gameState (moveArrow closure d x y g a).1.1))
  = arrows (player (gameState a)).
Proof.
  unfold V1.moveArrow. destruct (stepDir d x y) as [ax ay].
  case_match; [reflexivity|].
  destruct (findIndex _ _); [|reflexivity].
  destruct (draw g) as [r g']. cbn [gameState assignA upd upd_App].
  destruct (_ !! _); [|reflexivity].
  destruct (enemy_hp _ <=? 0); [unfold applyUpdate, handleEnemyDefeated;
                                destruct (_ <=? _)|]; reflexivity.
Qed.

Lemma flyOn_arrows n : forall st,
  arrows (player (gameState (flyOn n st).1.1)) = arrows (player (gameState st.1.1)).
Proof.
  induction n as [|n IH]; intros [[a ts] g]; [reflexivity|].
  cbn [V1.flyOn].
  destruct ts as [|[] [|]]; try reflexivity.
  rewrite IH. apply moveArrow_arrows.
Qed.

(** X5.  A shot costs one arrow, whatever becomes of the arrow and however
    long it flies; a shot that is refused (input locked, no arrow, or no
    direction yet) changes nothing. *)
Theorem shot_costs_one_arrow (g : Rng) (a : App) :
  (inputLocked a = false ->
   0 < arrows (player (gameState a)) ->
   lastMoveDirection (player (gameState a)) <> None ->
   forall n : nat,
     arrows (player (gameState (flyOn n (handleFireArrow g a)).1.1))
     = arrows (player (gameState a)) - 1)
  /\ (inputLocked a = true \/ arrows (player (gameState a)) <= 0
      \/ lastMoveDirection (player (gameState a)) = None ->
      handleFireArrow g a = (a, [], g)).
Proof.
  split.
  - intros Hl Ha Hd n. rewrite flyOn_arrows. unfold V1.handleFireArrow.
    destruct (lastMoveDirection _) as [d|]; [|congruence].
    rewrite Hl. destruct (Z.leb_spec (arrows (player (gameState a))) 0); [lia|].
    cbn [orb]. rewrite moveArrow_arrows. reflexivity.
  - intros H. unfold V1.handleFireArrow.
    destruct (lastMoveDirection _) as [d|]; [|reflexivity].
    destruct H as [->|[H|H]]; [reflexivity| |discriminate].
    destruct (Z.leb_spec (arrows (player (gameState a))) 0); [|lia].
    rewrite orb_true_r. reflexivity.
Qed.

(** The tile [j] steps ahead of ([x], [y]). *)
Definition ahead (d : Direction) (x y : Z) (j : Z) : Z * Z :=
  match d with
  | ArrowUp => (x, y - j)
  | ArrowDown => (x, y + j)
  | ArrowLeft => (x - j, y)
  | ArrowRight => (x + j, y)
  end.

(** No living enemy of the state stands on the tile. *)
Definition noLivingEnemyAt (s : GameState) (t : Z * Z) : Prop :=
  Forall (fun e => ~ (enemy_x e = t.1 /\ enemy_y e = t.2 /\ 0 < enemy_hp e)) (enemies s).

Lemma findIndex_None {A} (f : A -> bool) (l : list A) :
  Forall (fun e => f e = false) l -> findIndex f l = None.
Proof.
  induction 1 as [|e l He _ IH]; [reflexivity|]. cbn. rewrite He, IH. reflexivity.
Qed.

Lemma noLivingEnemyAt_findIndex s t :
  noLivingEnemyAt s t ->
  findIndex (fun e => (enemy_x e =? t.1) && (enemy_y e =? t.2) && (enemy_hp e >? 0))
            (enemies s) = None.
Proof.
  intros H. apply findIndex_None. eapply Forall_impl; [exact H|].
  intros e He. cbn beta in *.
  destruct (Z.eqb_spec (enemy_x e) t.1), (Z.eqb_spec (enemy_y e) t.2),
    (Z.gtb_spec (enemy_hp e) 0); cbn; try reflexivity.
  exfalso. apply He. repeat split; [assumption|assumption|lia].
Qed.

Lemma stepDir_ahead d x y j :
  stepDir d (ahead d x y j).1 (ahead d x y j).2 = ahead d x y (j + 1).
Proof. destruct d; cbn; f_equal; lia. Qed.

Lemma fly_to_wall closure d x y g (n : nat) : forall (j : Z) (a : App),
  (forall i, j < i <= j + Z.of_nat n ->
     tileAt (gs_map closure) (ahead d x y i).1 (ahead d x y i).2 <> Some WALL
     /\ noLivingEnemyAt closure (ahead d x y i)) ->
  tileAt (gs_map closure) (ahead d x y (j + Z.of_nat n + 1)).1
         (ahead d x y (j + Z.of_nat n + 1)).2 = Some WALL ->
  flyOn n (moveArrow closure d (ahead d x y j).1 (ahead d x y j).2 g a)
  = (a <|A_arrowProjectile None|>, [], g).
Proof.
  induction n as [|n IH]; intros j a Hclear Hwall.
  - cbn [V1.flyOn]. unfold V1.moveArrow. rewrite stepDir_ahead.
    replace (j + Z.of_nat 0 + 1) with (j + 1) in Hwall by lia.
    destruct (ahead d x y (j + 1)) as [ax ay]. cbn [fst snd] in Hwall.
    rewrite bool_decide_eq_true_2 by exact Hwall. reflexivity.
  - unfold V1.moveArrow. rewrite stepDir_ahead.
    destruct (Hclear (j + 1) ltac:(lia)) as [Hw He].
    apply noLivingEnemyAt_findIndex in He.
    pose proof (IH (j + 1)) as IH'.
    destruct (ahead d x y (j + 1)) as [ax ay] eqn:Hah. cbn [fst snd] in *.
    rewrite bool_decide_eq_false_2 by exact Hw. rewrite He.
    cbn [V1.flyOn].
    rewrite IH'; [reflexivity| |].
    + intros i Hi. apply Hclear. lia.
    + replace (j + 1 + Z.of_nat n + 1) with (j + Z.of_nat (S n) + 1) by lia. exact Hwall.
Qed.

(** X6.  An arrow that flies over [k] tiles without wall or living enemy
    and then meets a wall is gone after [k] further runs of [moveArrow]:
    nothing is pending, no draw was taken, and the game state differs from
    the one before the shot by the one arrow only. *)
Theorem arrow_ends_at_wall (g : Rng) (a : App) (d : Direction) (k : nat) :
  let s := gameState a in
  let x := player_x (player s) in
  let y := player_y (player s) in
  inputLocked a = false ->
  0 < arrows (player s) ->
  lastMoveDirection (player s) = Some d ->
  (forall i, 1 <= i <= Z.of_nat k ->
     tileAt (gs_map s) (ahead d x y i).1 (ahead d x y i).2 <> Some WALL
     /\ noLivingEnemyAt s (ahead d x y i)) ->
  tileAt (gs_map s) (ahead d x y (Z.of_nat k + 1)).1 (ahead d x y (Z.of_nat k + 1)).2
  = Some WALL ->
  flyOn k (handleFireArrow g a)
  = (a <|A_gameState (s <|G_player ((player s) <|F_arrows (arrows (player s) - 1)|>)|>)|>
       <|A_arrowProjectile None|>, [], g).
Proof.
  intros s x y Hl Ha Hd Hclear Hwall. subst s x y.
  unfold V1.handleFireArrow. rewrite Hd, Hl.
  destruct (Z.leb_spec (arrows (player (gameState a))) 0); [lia|]. cbn [orb].
  pose proof (fly_to_wall (gameState a) d (player_x (player (gameState a)))
                (player_y (player (gameState a))) g k 0) as Hfly.
  replace (ahead d (player_x (player (gameState a))) (player_y (player (gameState a))) 0)
    with (player_x (player (gameState a)), player_y (player (gameState a))) in Hfly
    by (destruct d; cbn; f_equal; lia).
  cbn [fst snd] in Hfly. apply Hfly.
  - intros i Hi. apply Hclear. lia.
  - exact Hwall.
Qed.

End ArrowMore.

Lemma shot_costs_one_arrow_witness :
  arrows (player (gameState (flyOn (fun _ _ => 0) 5
                               (handleFireArrow (fun _ _ => 0) [] archerApp)).1.1))
  = arrows (player (gameState archerApp)) - 1
  /\ handleFireArrow (fun _ _ => 0) [] walledApp = (walledApp, [], []).
Proof.
  split.
  - apply (proj1 (shot_costs_one_arrow (fun _ _ => 0) [] archerApp));
      vm_compute; congruence.
  - apply (proj2 (shot_costs_one_arrow (fun _ _ => 0) [] walledApp)).
    right. left. vm_compute. congruence.
Defined.

(** The scenario of the walled room: the arrow of an archer at (1, 1)
    facing right passes (2, 1) and (3, 1) and ends at the wall. *)
Definition roomArcher : App :=
  mkApp (GAME_STATE <|G_gs_map room|>
                    <|G_player (initialPlayer <|F_arrows 1|>
                                              <|F_lastMoveDirection (Some ArrowRight)|>)|>)
        false false false false false false false None.

Lemma arrow_ends_at_wall_witness :
  flyOn (fun _ _ => 0) 2 (handleFireArrow (fun _ _ => 0) [] roomArcher)
  = (roomArcher
       <|A_gameState ((gameState roomArcher)
            <|G_player ((player (gameState roomArcher)) <|F_arrows 0|>)|>)|>
       <|A_arrowProjectile None|>, [], []).
Proof.
  apply (arrow_ends_at_wall (fun _ _ => 0) [] roomArcher ArrowRight 2).
  - vm_compute. reflexivity.
  - vm_compute. reflexivity.
  - vm_compute. reflexivity.
  - intros i Hi. assert (Hc : i = 1 \/ i = 2) by lia.
    destruct Hc as [-> | ->]; (split; [vm_compute; discriminate|constructor]).
  - vm_compute. reflexivity.
Defined.

(** ** More on the enemy turn *)

(** What a decision may do to the enemy: nothing but a step of one tile,
    taken by a living enemy, onto a tile that is not a wall, not the
    player's and not held by another living enemy of the state. *)
Definition stepsLegally (prev : GameState) (e e' : Enemy) : Prop :=
  enemy_id e' = enemy_id e /\ enemy_type e' = enemy_type e
  /\ enemy_hp e' = enemy_hp e /\ enemy_attack e' = enemy_attack e
  /\ Z.abs (enemy_x e' - enemy_x e) + Z.abs (enemy_y e' - enemy_y e) <= 1
  /\ (e' <> e ->
      0 < enemy_hp e
      /\ tileAt (gs_map prev) (enemy_x e') (enemy_y e') <> Some WALL
      /\ ~ (enemy_x e' = player_x (player prev) /\ enemy_y e' = player_y (player prev))
      /\ Forall (fun o => enemy_id o = enemy_id e
                          \/ ~ (enemy_x o = enemy_x e' /\ enemy_y o = enemy_y e'
                                /\ 0 < enemy_hp o))
                (enemies prev)).

Lemma stepsLegally_refl prev e : stepsLegally prev e e.
Proof.
  unfold stepsLegally. repeat split; try lia;
    match goal with Hne : _ <> _ |- _ => exfalso; apply Hne; reflexivity end.
Qed.

Lemma heading_near (player : Player) (e : Enemy) (r : Q) :
  let '(nx, ny, _) := heading player e r in
  Z.abs (nx - enemy_x e) + Z.abs (ny - enemy_y e) <= 1.
Proof.
  unfold heading.
  pose proof (Z.sgn_spec (player_x player - enemy_x e)).
  pose proof (Z.sgn_spec (player_y player - enemy_y e)).
  destruct (_ >? _); [lia|]. destruct (_ >? _); [lia|].
  destruct (negb _); [destruct (gtHalf r)|]; lia.
Qed.

Lemma existsb_false_Forall {A} (f : A -> bool) (l : list A) :
  existsb f l = false -> Forall (fun x => f x = false) l.
Proof.
  induction l as [|a l IH]; cbn; [constructor|].
  intros H. apply orb_false_iff in H as [Ha Hl]. constructor; auto.
Qed.

Lemma decision_stepsLegally (prev : GameState) (e : Enemy) (r : Q) :
  stepsLegally prev e (moved (decision prev e r)).
Proof.
  unfold decision.
  destruct (Z.leb_spec (enemy_hp e) 0) as [Hdead|Halive]; [apply stepsLegally_refl|].
  destruct (_ || _); [apply stepsLegally_refl|].
  pose proof (heading_near (player prev) e r) as Hnear.
  destruct (heading (player prev) e r) as [[nx ny] tie].
  destruct (samePos nx ny _ _) eqn:Hs; [apply stepsLegally_refl|].
  cbn [moved].
  destruct (bool_decide _) eqn:Hw; cbn [negb andb]; [apply stepsLegally_refl|].
  destruct (existsb _ _) eqn:Ho; cbn [negb]; [apply stepsLegally_refl|].
  apply bool_decide_eq_false_1 in Hw. apply existsb_false_Forall in Ho.
  unfold stepsLegally. cbn. repeat split; try assumption.
  - intros [Hx Hy]. unfold samePos in Hs. subst nx ny. rewrite !Z.eqb_refl in Hs.
    discriminate.
  - eapply Forall_impl; [exact Ho|]. intros o Hf. cbn beta in Hf.
    destruct (Z.eqb_spec (enemy_id o) (enemy_id e)); [left; assumption|right].
    intros (Hx & Hy & Hh). cbn [negb andb] in Hf.
    rewrite Hx, Hy, !Z.eqb_refl in Hf. cbn in Hf.
    destruct (Z.gtb_spec (enemy_hp o) 0); [discriminate|lia].
Qed.

(** X7.  In the enemy turn the list of enemies keeps its length and order,
    no enemy's id, type, hit points or attack changes, and the only change
    is a step of one tile by a living enemy onto a tile that is not a wall,
    not the player's, and not held before the turn by another living
    enemy. *)
Theorem enemy_turn_steps_legally (prev : GameState) (g : Rng) :
  Forall2 (stepsLegally prev) (enemies prev) (enemies (enemyTurnState prev g).1.1).
Proof.
  unfold enemyTurnState.
  pose proof (mapAccum_decisions prev (enemies prev) (player prev) g) as H.
  destruct (mapAccum _ _ _) as [[p1 g1] es1]. cbn [fst snd] in *.
  cbn. eapply Forall2_impl; [exact H|].
  intros e e' [r ->]. apply decision_stepsLegally.
Qed.

(** What a hit may do to the player. *)
Lemma applyHit_facts (h : option (Z * bool)) (p : Player) :
  (forall d s, h = Some (d, s) -> 0 <= d) ->
  let q := applyHit h p in
  hp q <= hp p
  /\ maxHp q = maxHp p
  /\ (player_x q, player_y q) = (player_x p, player_y p)
  /\ inventory q = inventory p
  /\ (isPoisoned p = true -> isPoisoned q = true
                             /\ poisonStepCounter q = poisonStepCounter p)
  /\ ((forall d, h <> Some (d, true)) ->
      isPoisoned q = isPoisoned p /\ poisonStepCounter q = poisonStepCounter p).
Proof.
  intros Hd. destruct h as [[d [|]]|]; cbn [applyHit].
  - specialize (Hd d true eq_refl). cbn [andb].
    destruct (isPoisoned p) eqn:Hp; cbn [negb isPoisoned assign upd upd_Player];
      rewrite ?Hp; cbn [negb]; unfold inventory; cbn;
      repeat apply conj; try lia; try reflexivity; try congruence;
      try (intros Hno; exfalso; exact (Hno d eq_refl)); try (intros _; split; congruence).
  - specialize (Hd d false eq_refl). unfold inventory. cbn.
    repeat apply conj; try lia; try reflexivity; auto.
  - unfold inventory. repeat apply conj; try lia; try reflexivity; auto.
Qed.

Definition fairDraws (g : Rng) : Prop := Forall (fun r => (0 <= r)%Q /\ (r < 1)%Q) g.

Lemma fairDraws_draw g :
  fairDraws g -> ((0 <= (draw g).1)%Q /\ ((draw g).1 < 1)%Q) /\ fairDraws (draw g).2.
Proof.
  intros H. destruct H as [|r g [H0 H1] Hg]; cbn.
  - split; [split; [apply Qle_refl|unfold Qlt; cbn; lia]|constructor].
  - split; [split; assumption|assumption].
Qed.

Lemma decision_hit (prev : GameState) (e : Enemy) (r : Q) d s :
  hit (decision prev e r) = Some (d, s) ->
  d = enemy_attack e + 0 + randInt 3 r /\ s = bool_decide (enemy_type e = SPIDER)
  /\ 0 < enemy_hp e.
Proof.
  unfold decision.
  destruct (Z.leb_spec (enemy_hp e) 0); [discriminate|].
  destruct (_ || _); [discriminate|].
  destruct (heading _ _ _) as [[nx ny] tie].
  destruct (samePos _ _ _ _); [|discriminate].
  intros [= <- <-]. auto.
Qed.

(** X8.  The enemy turn never heals or moves the player and never touches
    [maxHp] or the inventory, when no enemy has a negative attack and the
    draws lie in [0, 1); a poisoned player stays poisoned with the same
    counter; and without a living spider among the enemies the poison
    status does not change at all. *)
Theorem enemy_turn_only_hurts (prev : GameState) (g : Rng) :
  Forall (fun e => 0 <= enemy_attack e) (enemies prev) ->
  fairDraws g ->
  let p := player prev in
  let p' := player (enemyTurnState prev g).1.1 in
  hp p' <= hp p
  /\ maxHp p' = maxHp p
  /\ (player_x p', player_y p') = (player_x p, player_y p)
  /\ inventory p' = inventory p
  /\ (isPoisoned p = true -> isPoisoned p' = true
                             /\ poisonStepCounter p' = poisonStepCounter p)
  /\ (Forall (fun e => enemy_type e <> SPIDER \/ enemy_hp e <= 0) (enemies prev) ->
      isPoisoned p' = isPoisoned p /\ poisonStepCounter p' = poisonStepCounter p).
Proof.
  intros Hatt Hg p p'. subst p p'. unfold enemyTurnState.
  assert (H : forall l q g0,
             Forall (fun e => 0 <= enemy_attack e) l -> fairDraws g0 ->
             let q' := (mapAccum (enemyTurnStep prev) (q, g0) l).1.1 in
             hp q' <= hp q /\ maxHp q' = maxHp q
             /\ (player_x q', player_y q') = (player_x q, player_y q)
             /\ inventory q' = inventory q
             /\ (isPoisoned q = true -> isPoisoned q' = true
                                        /\ poisonStepCounter q' = poisonStepCounter q)
             /\ (Forall (fun e => enemy_type e <> SPIDER \/ enemy_hp e <= 0) l ->
                 isPoisoned q' = isPoisoned q /\ poisonStepCounter q' = poisonStepCounter q)).
  { clear. induction l as [|e l IH]; intros q g0 Hatt Hg; cbn [mapAccum].
    - cbn. repeat apply conj; try lia; auto.
    - rewrite enemyTurnStep_decision.
      apply Forall_cons in Hatt as [Ha Hatt].
      destruct (fairDraws_draw g0 Hg) as ([Hr0 Hr1] & Hg').
      set (D := decision prev e (draw g0).1).
      assert (Hfair : fairDraws (if drew D then (draw g0).2 else g0))
        by (destruct (drew D); assumption).
      specialize (IH (applyHit (hit D) q) _ Hatt Hfair). cbn zeta in IH.
      destruct (mapAccum _ (applyHit (hit D) q, _) l) as [[q' g'] es]. cbn [fst snd] in *.
      assert (Hd : forall d s, hit D = Some (d, s) -> 0 <= d).
      { intros d s Hh. apply decision_hit in Hh as (-> & _ & _).
        pose proof (randInt_bounds 3 _ Hr0 Hr1). lia. }
      destruct (applyHit_facts (hit D) q Hd) as (F1 & F2 & F3 & F4 & F5 & F6).
      destruct IH as (I1 & I2 & I3 & I4 & I5 & I6).
      repeat apply conj.
      + lia.
      + congruence.
      + congruence.
      + congruence.
      + intros Hp. destruct (F5 Hp) as [Fa Fb]. destruct (I5 Fa). split; congruence.
      + intros Hsp. apply Forall_cons in Hsp as [He Hl].
        assert (Hns : forall d, hit D <> Some (d, true)).
        { intros d Hh. apply decision_hit in Hh as (_ & Hs & Hh).
          symmetry in Hs. apply bool_decide_eq_true_1 in Hs. destruct He; [congruence|lia]. }
        destruct (F6 Hns). destruct (I6 Hl). split; congruence. }
  specialize (H (enemies prev) (player prev) g Hatt Hg). cbn zeta in H.
  destruct (mapAccum _ _ _) as [[p1 g1] es1]. exact H.
Qed.

Lemma enemy_turn_only_hurts_witness :
  let p := player (gameState woundedApp) in
  let p' := player (enemyTurnState (gameState woundedApp) [(1 # 2)%Q]).1.1 in
  hp p' <= hp p
  /\ maxHp p' = maxHp p
  /\ (player_x p', player_y p') = (player_x p, player_y p)
  /\ inventory p' = inventory p
  /\ (isPoisoned p = true -> isPoisoned p' = true
                             /\ poisonStepCounter p' = poisonStepCounter p)
  /\ (Forall (fun e => enemy_type e <> SPIDER \/ enemy_hp e <= 0)
             (enemies (gameState woundedApp)) ->
      isPoisoned p' = isPoisoned p /\ poisonStepCounter p' = poisonStepCounter p).
Proof.
  apply (enemy_turn_only_hurts (gameState woundedApp) [(1 # 2)%Q]).
  - repeat constructor. vm_compute. discriminate.
  - repeat constructor; vm_compute; congruence.
Defined.

(** ** The next level, the shop and the level-up *)

(** Spreading every property of a player over another player gives the
    first player. *)
Lemma spread_propsOf (q p : Player) : spread q (propsOf p) = p.
Proof. destruct p, q. reflexivity. Qed.

Lemma spread_app (q : Player) (l1 l2 : list PlayerProp) :
  spread q (l1 ++ l2) = spread (spread q l1) l2.
Proof. unfold spread. apply fold_left_app. Qed.

Section NextLevel.
Variable generateDungeon : Z -> GameState.
Variable xpGained : EnemyType -> Z -> Z.

(** X9.  When the timer of [handleNextLevel] comes due, the new level is
    the dungeon of the next level number with the player of the old level
    put in whole, position included, and healed to [maxHp]; the transition
    and game-over flags are cleared and nothing is scheduled. *)
Theorem next_level_carries_player (closure : GameState) (g : Rng) (a : App) :
  let '(a', ts, _) := fire generateDungeon xpGained (TNewLevel closure) g a in
  let dungeon := generateDungeon (gs_level closure + 1) in
  player (gameState a') = (player closure) <|F_hp (maxHp (player closure))|>
  /\ gs_level (gameState a') = gs_level closure + 1
  /\ gs_map (gameState a') = gs_map dungeon
  /\ enemies (gameState a') = enemies dungeon
  /\ items (gameState a') = items dungeon
  /\ bombs (gameState a') = bombs dungeon
  /\ pickedUpItems (gameState a') = pickedUpItems dungeon
  /\ isTransitioning a' = false /\ isGameOver a' = false /\ isPaused a' = false
  /\ ts = [].
Proof.
  unfold fire. destruct (draw g) as [r g']. unfold newGame.
  cbn [from_option id]. rewrite spread_app, spread_propsOf.
  cbn. repeat split; reflexivity.
Qed.

End NextLevel.

(** X10.  A purchase that the player cannot pay changes nothing.  A
    purchase from [SHOP_ITEMS] that the player can pay takes its cost, also
    when the item is at its cap and nothing is added; no count shrinks,
    arrows and bombs stay within the player's caps, potions and antidotes
    within 3, and gold does not become negative. *)
Theorem purchase_takes_cost_and_respects_caps (item : ShopItem) (a : App) :
  let p := player (gameState a) in
  let p' := player (gameState (handleBuyItem item a)) in
  (gold p < shop_cost item -> handleBuyItem item a = a)
  /\ (item ∈ SHOP_ITEMS -> shop_cost item <= gold p ->
      arrows p <= maxArrows p -> bombCount p <= maxBombs p ->
      potions p <= 3 -> antidotes p <= 3 ->
      gold p' = gold p - shop_cost item /\ 0 <= gold p' < gold p
      /\ arrows p <= arrows p' <= maxArrows p'
      /\ bombCount p <= bombCount p' <= maxBombs p'
      /\ potions p <= potions p' <= 3
      /\ antidotes p <= antidotes p' <= 3
      /\ hp p' = hp p /\ maxHp p' = maxHp p).
Proof.
  cbn zeta. unfold handleBuyItem. split.
  - intros Hlt. destruct (Z.ltb_spec (gold (player (gameState a))) (shop_cost item));
      [reflexivity|lia].
  - intros Hin Hc Ha Hb Hp Hn.
    destruct (Z.ltb_spec (gold (player (gameState a))) (shop_cost item)); [lia|].
    assert (Hcost : 0 < shop_cost item).
    { unfold SHOP_ITEMS in Hin. repeat (apply elem_of_cons in Hin as [->|Hin]; [cbn; lia|]).
      inversion Hin. }
    cbn. destruct (shop_type item); cbn; repeat split; lia.
Qed.

Lemma purchase_takes_cost_and_respects_caps_witness :
  let rich := goldRoomState <|A_gameState ((gameState goldRoomState)
                <|G_player (initialPlayer <|F_gold 30|> <|F_potions 3|>)|>)|> in
  let item := mkShopItem "Potion" POTION 25 in
  handleBuyItem (mkShopItem "Bomb" BOMB 40) rich = rich
  /\ gold (player (gameState (handleBuyItem item rich))) = 5
  /\ potions (player (gameState (handleBuyItem item rich))) = 3.
Proof.
  cbn zeta. split.
  - apply (proj1 (purchase_takes_cost_and_respects_caps (mkShopItem "Bomb" BOMB 40) _)).
    vm_compute. reflexivity.
  - pose proof (proj2 (purchase_takes_cost_and_respects_caps
                  (mkShopItem "Potion" POTION 25)
                  (goldRoomState <|A_gameState ((gameState goldRoomState)
                     <|G_player (initialPlayer <|F_gold 30|> <|F_potions 3|>)|>)|>))) as H.
    cbn zeta in H.
    destruct H as (Hg & _ & _ & _ & Hp & _);
      [apply list_elem_of_here|vm_compute; congruence..|].
    split; [rewrite Hg; vm_compute; reflexivity|].
    vm_compute in Hp. vm_compute. destruct Hp as [Hp1 Hp2].
    reflexivity.
Defined.

Section LevelUp.
Variable xpGained : EnemyType -> Z -> Z.
Variable xpForLevel : Z -> Z.



End LevelUp.



(** ** The melee branch of [handleMove] *)

Lemma findIndex_In {A} (f : A -> bool) (l : list A) (e : A) :
  In e l -> f e = true -> exists i, findIndex f l = Some i.
Proof.
  induction l as [|a l IH]; [intros []|]. intros [->|Hin] He; cbn.
  - rewrite He. eauto.
  - destruct (f a); [eauto|]. destruct (IH Hin He) as [i ->]. cbn. eauto.
Qed.

Lemma inputLocked_false (a : App) :
  inputLocked a = false ->
  isGameOver a = false /\ animating a = false /\ isLevelingUp a = false
  /\ isShopping a = false /\ isTransitioning a = false /\ arrowProjectile a = None.
Proof.
  unfold inputLocked. intros H.
  repeat (apply orb_false_iff in H as [H ?]).
  repeat split; try assumption.
  destruct (arrowProjectile a); [|reflexivity].
  rewrite bool_decide_eq_true_2 in *; [discriminate|congruence].
Qed.

Section Melee.
Variable xpGained : EnemyType -> Z -> Z.

(** X12.  A move onto a living enemy of the same screen is an attack: the
    player stays in place and only the hit points change, to a value that
    is not negative.  The player written back is the one of the render with
    the new hit points, so the direction queued at the start of
    [handleMove] and the experience queued by [handleEnemyDefeated] are
    overwritten.  No fuse ticks, nothing is picked up, no enemy is added or
    removed, the game is over exactly when the hit points are 0, and the
    one timer lets the enemies move only if the player lives. *)
Theorem melee_changes_only_hit_points (d : Direction) (g : Rng) (a : App) :
  let gs := gameState a in
  let t := stepDir d (player_x (player gs)) (player_y (player gs)) in
  inputLocked a = false ->
  tileAt (gs_map gs) t.1 t.2 <> Some WALL ->
  camera gs = screenOf t.1 t.2 ->
  existsb (fun e => (enemy_x e =? t.1) && (enemy_y e =? t.2) && (enemy_hp e >? 0))
          (enemies gs) = true ->
  let '(a', ts, _) := handleMove xpGained d g a in
  exists hp',
    0 <= hp'
    /\ player (gameState a') = (player gs) <|F_hp hp'|>
    /\ bombs (gameState a') = bombs gs
    /\ pickedUpItems (gameState a') = pickedUpItems gs
    /\ length (enemies (gameState a')) = length (enemies gs)
    /\ isGameOver a' = (hp' <=? 0)
    /\ ts = [TAfterMelee (0 <? hp')].
Proof.
  intros gs t Hlock Hwall Hcam Hex.
  destruct (inputLocked_false a Hlock) as (Hover & _).
  unfold handleMove. rewrite Hlock. fold gs. subst t.
  destruct (stepDir d _ _) as [nx ny]. cbn [fst snd] in *.
  rewrite (bool_decide_eq_false_2 _ Hwall), Hcam, !Z.eqb_refl. cbn [negb orb].
  apply existsb_exists in Hex as (e0 & Hin0 & He0).
  destruct (List.find _ (enemies gs)) as [e|] eqn:Hf;
    [|rewrite (find_none _ _ Hf _ Hin0) in He0; discriminate].
  apply find_some in Hf as [Hin _].
  destruct (draw g) as [r1 g1].
  destruct (findIndex_In (fun x => enemy_id x =? enemy_id e) _ e Hin (Z.eqb_refl _))
    as [i ->].
  cbv zeta.
  set (newHp := enemy_hp (default e (enemies gs !! i)) - _). clearbody newHp.
  destruct (newHp >? 0).
  - destruct (draw g1) as [r2 g2].
    set (h := hp (player gs) - _). clearbody h. cbn.
    destruct (Z.leb_spec h 0) as [Hd|Hd].
    + exists 0. cbn. rewrite length_insert. repeat apply conj.
      all: rewrite ?Z.gtb_ltb; try reflexivity; lia.
    + exists h. cbn. rewrite length_insert, Hover.
      destruct (Z.leb_spec h 0); [lia|].
      repeat apply conj.
      all: rewrite ?Z.gtb_ltb; try reflexivity; try lia.
      all: destruct (player gs); reflexivity.
  - cbn. destruct (Z.leb_spec (hp (player gs)) 0) as [Hd|Hd].
    + exists 0. cbn. rewrite length_insert. repeat apply conj.
      all: rewrite ?Z.gtb_ltb; try reflexivity; try lia.
      all: destruct (_ <=? _); reflexivity.
    + exists (hp (player gs)). cbn. rewrite length_insert.
      destruct (Z.leb_spec (hp (player gs)) 0); [lia|].
      repeat apply conj.
      all: rewrite ?Z.gtb_ltb; try reflexivity; try lia.
      * destruct (player gs); reflexivity.
      * destruct (_ <=? _); cbn; exact Hover.
Qed.

End Melee.

(** ** The camera *)

(** The camera shows the screen the player stands on. *)
Definition cameraOnPlayer (s : GameState) : Prop :=
  camera s = screenOf (player_x (player s)) (player_y (player s)).

Definition standsOn (pos : Position) (p : Player) : Prop :=
  player_x p = pos_x pos /\ player_y p = pos_y pos.

Lemma poisonTick_standsOn pos p : standsOn pos p -> standsOn pos (poisonTick p).
Proof. unfold poisonTick. repeat case_match; exact id. Qed.

Lemma pickUp_standsOn pos lvl t p : standsOn pos p -> standsOn pos (pickUp lvl t p).
Proof. unfold pickUp. repeat case_match; exact id. Qed.

Lemma hazardHit_standsOn pos lvl t p : standsOn pos p -> standsOn pos (hazardHit lvl t p).
Proof. destruct t; exact id. Qed.

(** The updater of [processTurn] puts the player on the requested tile and
    leaves the camera. *)
Lemma turnState_standsOn (prev : GameState) (pos : Position) :
  standsOn pos (player (finalState (turnState prev pos)))
  /\ camera (finalState (turnState prev pos)) = camera prev.
Proof.
  unfold turnState.
  set (p0 := (player prev) <|F_player_x (pos_x pos)|> <|F_player_y (pos_y pos)|>).
  assert (H1 : standsOn pos (poisonTick p0))
    by (apply poisonTick_standsOn; split; reflexivity).
  set (p1 := poisonTick p0) in *. clearbody p1. clear p0.
  set (p2 := if negb _ && _ then _ else p1).
  assert (H2 : standsOn pos p2) by (subst p2; destruct (_ && _); exact H1).
  clearbody p2.
  set (r := if _ || _ then _ else _).
  assert (H3 : standsOn pos r.1).
  { subst r. destruct (_ || _); [exact H2|].
    set (q := match List.find _ (items prev) with Some _ => _ | None => _ end).
    assert (Hq : standsOn pos q.1).
    { subst q. destruct (List.find _ (items prev)) as [it|]; [|exact H2].
      destruct (bool_decide _); [exact H2|]. apply pickUp_standsOn, H2. }
    destruct q as [pa picked]. cbn [fst] in Hq.
    destruct (List.find _ (hazards prev)) as [hz|]; [|exact Hq].
    apply hazardHit_standsOn, Hq. }
  destruct r as [p3 picked]. cbn [fst] in H3.
  cbn. destruct ((hp p3 <=? 0) && _); split; try reflexivity; exact H3.
Qed.

Section Camera.
Variable generateDungeon : Z -> GameState.
Variable xpGained : EnemyType -> Z -> Z.

Lemma defeated_updates_position (closure : GameState) (es : list Enemy) (a : App) :
  let a' := applyUpdates a (map (handleEnemyDefeated xpGained closure) es) in
  player_x (player (gameState a')) = player_x (player (gameState a))
  /\ player_y (player (gameState a')) = player_y (player (gameState a))
  /\ camera (gameState a') = camera (gameState a).
Proof.
  revert a. induction es as [|e es IH]; intros a; [cbn; tauto|].
  cbn [map applyUpdates fold_left].
  specialize (IH (applyUpdate a (handleEnemyDefeated xpGained closure e))).
  cbn zeta in IH. unfold applyUpdates in *.
  destruct IH as (-> & -> & ->).
  cbn. repeat split; reflexivity.
Qed.

(** X13.  [handleMove] keeps the camera on the screen the player stands
    on.  The screen change it schedules is for the tile ahead, names the
    screen of that tile, which lies within the world of 3 by 3 screens, and
    puts the camera on the player again whenever it comes due. *)
Theorem move_keeps_camera_on_player (d : Direction) (g : Rng) (a : App) :
  cameraOnPlayer (gameState a) ->
  let '(a', ts, _) := handleMove xpGained d g a in
  cameraOnPlayer (gameState a')
  /\ forall x y screen, In (TScreenCross x y screen) ts ->
       (x, y) = stepDir d (player_x (player (gameState a))) (player_y (player (gameState a)))
       /\ screen = screenOf x y
       /\ 0 <= pos_x screen < WORLD_SCREENS_W
       /\ 0 <= pos_y screen < WORLD_SCREENS_H
       /\ forall g2 a2,
            cameraOnPlayer
              (gameState (fire generateDungeon xpGained (TScreenCross x y screen) g2 a2).1.1).
Proof.
  intros Hcam. unfold handleMove.
  destruct (inputLocked a) eqn:Hlock; [split; [exact Hcam|intros ? ? ? []]|].
  destruct (stepDir d _ _) as [nx ny].
  destruct (bool_decide _); [split; [exact Hcam|intros ? ? ? []]|].
  destruct (negb _ || negb _) eqn:Hscreen.
  - destruct (_ && _) eqn:Hworld; [|split; [exact Hcam|intros ? ? ? []]].
    split; [exact Hcam|]. intros x y screen [[= <- <- <-]|[]].
    repeat (apply andb_true_iff in Hworld as [Hworld ?]).
    repeat split; try reflexivity; lia.
  - apply orb_false_iff in Hscreen as [Hx Hy].
    apply negb_false_iff, Z.eqb_eq in Hx, Hy.
    destruct (List.find _ _) as [e|].
    + destruct (draw g) as [r1 g1].
      destruct (findIndex _ _) as [i|]; [|split; [exact Hcam|intros ? ? ? []]].
      cbv zeta. destruct (_ >? 0).
      * destruct (draw g1) as [r2 g2].
        split; [|intros ? ? ? [[=]|[]]].
        destruct (_ <=? 0); exact Hcam.
      * split; [|intros ? ? ? [[=]|[]]].
        destruct (_ <=? 0); exact Hcam.
    + unfold processTurn.
      destruct (inputLocked_false a Hlock) as (_ & Hanim & _).
      change (animating (applyUpdate a (setLastMoveDirection d))) with (animating a).
      rewrite Hanim.
      split.
      * unfold cameraOnPlayer.
        match goal with
        | |- context [applyUpdates ?a0 (map _ ?es)] =>
            destruct (defeated_updates_position (gameState a) es a0) as (-> & -> & ->)
        end.
        destruct (turnState_standsOn
                    (gameState (applyUpdate a (setLastMoveDirection d)))
                    (mkPosition nx ny)) as ([Hpx Hpy] & Hc).
        cbn [pos_x pos_y] in Hpx, Hpy.
        set (T := turnState _ _) in *. clearbody T.
        destruct (playerDied T), (openShop T); cbn; rewrite Hpx, Hpy, Hc; cbn.
        all: destruct (camera (gameState a)); unfold screenOf in *; cbn in *; congruence.
      * intros x y screen [[=]|Hin]. destruct (bool_decide _); [destruct Hin|].
        destruct Hin as [[=]|[]].
Qed.

End Camera.

(** ** The consumables *)

(** No count of the inventory is negative. *)
Definition stocked (p : Player) : Prop :=
  0 <= potions p /\ 0 <= antidotes p /\ 0 <= bombCount p /\ 0 <= arrows p.

(** X23.  The handlers of the first stage that spend a potion, an antidote
    or a bomb leave no count negative, spend at most one item, do not lower
    the hit points of a player within [maxHp] and do not raise them past
    it.  A potion is refused at full health, and the one that is drunk
    heals by 50, up to [maxHp]. *)
Theorem consumables_are_spent_soundly (now : Z) (a : App) :
  let p := player (gameState a) in
  stocked p -> hp p <= maxHp p ->
  (forall a', a' = handleUsePotion a \/ a' = handleUseAntidote a
              \/ a' = handleDropBomb now a ->
     let p' := player (gameState a') in
     stocked p' /\ hp p <= hp p' <= maxHp p' /\ maxHp p' = maxHp p
     /\ potions p' + antidotes p' + bombCount p' + arrows p'
        >= potions p + antidotes p + bombCount p + arrows p - 1)
  /\ (hp p = maxHp p -> handleUsePotion a = a)
  /\ (handleUsePotion a <> a ->
      hp (player (gameState (handleUsePotion a))) = Z.min (maxHp p) (hp p + 50)
      /\ potions (player (gameState (handleUsePotion a))) = potions p - 1).
Proof.
  intros p (Hpo & Han & Hbo & Har) Hhp. subst p. split; [|split].
  - intros a' [ -> | [ -> | -> ] ]; unfold stocked.
    + unfold handleUsePotion.
      destruct (Z.leb_spec (potions (player (gameState a))) 0); cbn [orb]; [cbn zeta; lia|].
      destruct (_ =? _); cbn; lia.
    + unfold handleUseAntidote.
      destruct (Z.leb_spec (antidotes (player (gameState a))) 0); cbn [orb]; [cbn zeta; lia|].
      destruct (negb _); cbn; lia.
    + destruct (handleDropBomb_bombs now a) as [->|(_ & Hc & _)]; [cbn zeta; lia|].
      cbn zeta. rewrite Hc. unfold handleDropBomb in *.
      destruct (_ || _) eqn:Hg; [cbn in *; lia|].
      destruct (existsb _ _); [cbn in *; lia|].
      repeat (apply orb_false_iff in Hg as [Hg ?]).
      destruct (Z.leb_spec (bombCount (player (gameState a))) 0); [discriminate|].
      cbn. lia.
  - unfold handleUsePotion. intros ->. rewrite Z.eqb_refl, orb_true_r. reflexivity.
  - unfold handleUsePotion. destruct (_ || _); [congruence|]. intros _. cbn.
    split; reflexivity.
Qed.

Lemma consumables_are_spent_soundly_witness :
  let a := goldRoomState <|A_gameState ((gameState goldRoomState)
              <|G_player (initialPlayer <|F_hp 100|>)|>)|> in
  hp (player (gameState (handleUsePotion a))) = 120
  /\ potions (player (gameState (handleUsePotion a))) = 0.
Proof.
  cbn zeta.
  destruct (consumables_are_spent_soundly 0
              (goldRoomState <|A_gameState ((gameState goldRoomState)
                 <|G_player (initialPlayer <|F_hp 100|>)|>)|>))
    as (_ & _ & Hp); [vm_compute; repeat split; congruence..|].
  destruct Hp as [H1 H2]; [vm_compute; congruence|].
  rewrite H1, H2. vm_compute. split; reflexivity.
Defined.

(** ** Witnesses of the melee and camera properties *)

(** The knight next to a goblin in the walled room. *)
Definition duelApp : App :=
  goldRoomState <|A_gameState ((gameState goldRoomState)
                   <|G_enemies [mkEnemy 2 1 1 GOBLIN 30 3 None]|>)|>.

Lemma melee_changes_only_hit_points_witness :
  let '(a', ts, _) := handleMove (fun _ _ => 0) ArrowRight [] duelApp in
  exists hp',
    0 <= hp'
    /\ player (gameState a') = (player (gameState duelApp)) <|F_hp hp'|>
    /\ bombs (gameState a') = bombs (gameState duelApp)
    /\ pickedUpItems (gameState a') = pickedUpItems (gameState duelApp)
    /\ length (enemies (gameState a')) = length (enemies (gameState duelApp))
    /\ isGameOver a' = (hp' <=? 0)
    /\ ts = [TAfterMelee (0 <? hp')].
Proof.
  apply (melee_changes_only_hit_points (fun _ _ => 0) ArrowRight [] duelApp);
    vm_compute; congruence.
Defined.

(** The knight on the last column of the first screen, open floor ahead. *)
Definition edgeApp : App :=
  goldRoomState <|A_gameState ((gameState goldRoomState)
                   <|G_gs_map (replicate 3 (replicate 15 FLOOR))|>
                   <|G_player (initialPlayer <|F_player_x 12|>)|>)|>.

Lemma move_keeps_camera_on_player_witness :
  let '(a', ts, _) := handleMove (fun _ _ => 0) ArrowRight [] edgeApp in
  ts = [TScreenCross 13 1 (mkPosition 1 0)]
  /\ cameraOnPlayer (gameState a')
  /\ cameraOnPlayer
       (gameState (fire (fun _ => GAME_STATE) (fun _ _ => 0)
                        (TScreenCross 13 1 (mkPosition 1 0)) [] a').1.1).
Proof.
  pose proof (move_keeps_camera_on_player (fun _ => GAME_STATE) (fun _ _ => 0)
                ArrowRight [] edgeApp) as H.
  change (handleMove (fun _ _ => 0) ArrowRight [] edgeApp)
    with (edgeApp <|A_gameState ((gameState edgeApp)
                     <|G_player ((player (gameState edgeApp))
                                   <|F_lastMoveDirection (Some ArrowRight)|>)|>)|>
                  <|A_isTransitioning true|>,
          [TScreenCross 13 1 (mkPosition 1 0)], @nil Q) in H.
  cbv beta iota in H.
  destruct H as [Hcam Hts]; [vm_compute; reflexivity|].
  split; [reflexivity|]. split; [exact Hcam|].
  apply (Hts 13 1 (mkPosition 1 0)). left. reflexivity.
Defined.

(** ** Fuses along a run *)

(** Every armed bomb has between 1 and [BOMB_FUSE_STEPS] steps left. *)
Definition fusesLive (bs : list Bomb) : Prop :=
  Forall (fun b => 0 < stepsRemaining b <= BOMB_FUSE_STEPS) bs.

Lemma remainingBombs_fusesLive bs : fusesLive bs -> fusesLive (remainingBombs bs).
Proof.
  unfold fusesLive. induction 1 as [|b bs Hb _ IH]; [constructor|].
  rewrite remainingBombs_cons. destruct (decide _); [|exact IH].
  constructor; [cbn; lia|exact IH].
Qed.

Section Fuses.
Variable generateDungeon : Z -> GameState.
Variable xpGained : EnemyType -> Z -> Z.

Lemma step_fusesLive e g a :
  leavesLevel e = false ->
  fusesLive (bombs (gameState a)) ->
  fusesLive (bombs (gameState (step generateDungeon xpGained e g a).1.1)).
Proof.
  intros Hl Hf. rewrite (step_bombs generateDungeon xpGained e g a Hl).
  destruct (turnOf e a); [apply remainingBombs_fusesLive, Hf|].
  destruct e as [| |now| | | |]; try exact Hf.
  destruct (handleDropBomb_bombs now a) as [->|(-> & _)]; [exact Hf|].
  apply Forall_app. split; [exact Hf|].
  constructor; [|constructor]. cbn. unfold BOMB_FUSE_STEPS. lia.
Qed.

(** X14.  Along a run that stays in the level every armed bomb keeps a
    fuse between 1 and [BOMB_FUSE_STEPS]: a bomb is placed with the full
    fuse, a resolved turn takes one step from each, and a bomb that reaches
    0 is removed in that turn. *)
Theorem armed_bombs_keep_live_fuses (evs : list (Event * Rng)) (a : App) :
  Forall (fun eg => leavesLevel eg.1 = false) evs ->
  fusesLive (bombs (gameState a)) ->
  fusesLive (bombs (gameState (run generateDungeon xpGained evs a))).
Proof.
  revert a. induction evs as [|[e g] evs IH]; intros a Hl Hf; [exact Hf|].
  apply Forall_cons in Hl as [Hl1 Hl]. cbn. apply IH; [exact Hl|].
  apply step_fusesLive; assumption.
Qed.

End Fuses.

Lemma armed_bombs_keep_live_fuses_witness :
  let evs := (EDropBomb 7, []) :: turnTo ArrowRight ++ [(EDropBomb 8, [])] in
  fusesLive (bombs (gameState (run (fun _ => GAME_STATE) (fun _ _ => 0) evs sapperApp)))
  /\ length (bombs (gameState (run (fun _ => GAME_STATE) (fun _ _ => 0) evs sapperApp)))
     = 2%nat.
Proof.
  split; [|vm_compute; reflexivity].
  apply (armed_bombs_keep_live_fuses (fun _ => GAME_STATE) (fun _ _ => 0)).
  - repeat constructor.
  - constructor.
Defined.

End V1Facts.

(** * Stage 2: properties *)

Module V2Facts.
Import V2.

(** ** The antidote *)

Lemma useAntidote_cures (a : App) :
  0 < antidotes (player (gameState a)) ->
  isPoisoned (player (gameState a)) = true ->
  let p := player (gameState a) in
  let p' := player (gameState (useAntidote a)) in
  antidotes p' = antidotes p - 1
  /\ isPoisoned p' = false
  /\ poisonStepCounter p' = 0
  /\ poisonTick p' = p'.
Proof.
  intros Hn Hp. unfold useAntidote.
  destruct (Z.gtb_spec (antidotes (player (gameState a))) 0); [|lia].
  rewrite Hp. cbn. repeat split; reflexivity.
Qed.

Definition poisonedApp : App :=
  mkApp (GAME_STATE <|G_player (initialPlayer <|F_antidotes 1|> <|F_isPoisoned true|>
                                              <|F_poisonStepCounter 2|>)|>)
        false false false false false false false None.

(** ** Moving into a wall *)

Section Wall.
Variable xpGained : EnemyType -> Z -> Z.
Variable canPoison splitsOnDeath : EnemyType -> bool.
Variable SLIME_MINI_DATA : Enemy.
Variable VIEWPORT_WIDTH VIEWPORT_HEIGHT : Z.
Variable ALTAR_EFFECTS : list AltarEffect.
Variable AUGMENTS : AugmentId -> option (list (Stat * Z)).

#[local] Abbreviation handleMove :=
  (handleMove xpGained canPoison splitsOnDeath SLIME_MINI_DATA
              VIEWPORT_WIDTH VIEWPORT_HEIGHT ALTAR_EFFECTS AUGMENTS).

Definition target (d : Direction) (a : App) : Z * Z :=
  stepDir d (player_x (player (gameState a))) (player_y (player (gameState a))).

Lemma tileAt_strict m x y t :
  tileAt m x y = Some t -> tileAtStrict m x y = Some (Some t).
Proof.
  unfold tileAt, tileAtStrict. destruct (index m y); [|discriminate].
  intros ->. reflexivity.
Qed.

Lemma later_handleMove_wall (d : Direction) (now : Z) (g : Rng) (a : App) :
  tileAt (gs_map (gameState a)) (target d a).1 (target d a).2 = Some WALL ->
  handleMove d now g a = (a, [], g).
Proof.
  unfold target, V2.handleMove. intros Hw.
  destruct (_ || _); [reflexivity|].
  destruct (stepDir d _ _) as [x y]; cbn [fst snd] in Hw.
  rewrite (tileAt_strict _ _ _ _ Hw). reflexivity.
Qed.

End Wall.

(** ** Two bombs on one tile *)

Definition sapperApp : App :=
  mkApp (GAME_STATE <|G_player (initialPlayer <|F_bombCount 3|>)|>)
        false false false false false false false None.

(** ** The order of the enemies *)

(** A corridor; the player at its left end, a goblin two tiles away and a
    skeleton behind the goblin. *)
Definition corridor : GameMap := [[FLOOR; FLOOR; FLOOR; FLOOR; FLOOR; FLOOR]].
Definition goblin : Enemy := mkEnemy 3 0 1 GOBLIN 20 3 None.
Definition skeleton : Enemy := mkEnemy 4 0 2 SKELETON 20 4 None.
Definition chase (es : list Enemy) : GameState :=
  GAME_STATE <|G_gs_map corridor|>
             <|G_player (initialPlayer <|F_player_x 0|> <|F_player_y 0|>)|>
             <|G_enemies es|>.

(** ** Picking up gold *)

Section Gold.
Variable xpGained : EnemyType -> Z -> Z.
Variable canPoison splitsOnDeath : EnemyType -> bool.
Variable SLIME_MINI_DATA : Enemy.
Variable VIEWPORT_WIDTH VIEWPORT_HEIGHT : Z.
Variable ALTAR_EFFECTS : list AltarEffect.
Variable AUGMENTS : AugmentId -> option (list (Stat * Z)).

#[local] Abbreviation handleMove :=
  (handleMove xpGained canPoison splitsOnDeath SLIME_MINI_DATA
              VIEWPORT_WIDTH VIEWPORT_HEIGHT ALTAR_EFFECTS AUGMENTS).
#[local] Abbreviation processTurn := (processTurn canPoison).
#[local] Abbreviation handleEnemyDefeated :=
  (handleEnemyDefeated xpGained splitsOnDeath SLIME_MINI_DATA).

Lemma enemyTurnStep_gold cs st e i st' :
  enemyTurnStep canPoison cs st e i = Some st' ->
  gold (newPlayer st') = gold (newPlayer st).
Proof.
  unfold enemyTurnStep.
  destruct (if Z.abs _ >? Z.abs _ then _ else _) as [nx ny].
  destruct (samePos _ _ _ _).
  - destruct (canPoison _).
    + destruct (draw _) as [r g']. intros [= <-]. cbn. destruct (ltThreeTenths r); reflexivity.
    + intros [= <-]. reflexivity.
  - destruct (tileAtStrict _ _ _); [|discriminate].
    destruct (_ && _); intros [= <-]; reflexivity.
Qed.

Lemma enemyLoop_gold cs n : forall i st st',
  enemyLoop canPoison cs n i st = Some st' ->
  gold (newPlayer st') = gold (newPlayer st).
Proof.
  induction n as [|n IH]; intros i st st'; cbn.
  - intros [= <-]. reflexivity.
  - destruct (_ !! _) as [e|]; [|intros [= <-]; reflexivity].
    destruct (enemyTurnStep _ _ _ _ _) as [st1|] eqn:Hs; [|discriminate].
    intros H. rewrite (IH _ _ _ H). exact (enemyTurnStep_gold _ _ _ _ _ Hs).
Qed.

Lemma later_poisonTick_gold p : gold (poisonTick p) = gold p.
Proof. unfold poisonTick. repeat case_match; reflexivity. Qed.

Lemma processAugmentEffects_gold p : gold (processAugmentEffects p) = gold p.
Proof. unfold processAugmentEffects. case_match; reflexivity. Qed.

(** A turn leaves the gold, the items, the picked-up set and the
    decorations as they are. *)
Lemma processTurn_keeps gs pos g ns :
  returned (processTurn gs pos g) = Some ns ->
  gold (player ns) = gold (player gs)
  /\ items ns = items gs
  /\ pickedUpItems ns = pickedUpItems gs
  /\ altars ns = altars gs
  /\ exit ns = exit gs
  /\ wizard ns = wizard gs.
Proof.
  unfold V2.processTurn. destruct (bombTicking _ _) as [[nb bl]|]; [|discriminate].
  set (p1 := processAugmentEffects _).
  assert (Hp1 : gold p1 = gold (player gs))
    by (subst p1; rewrite processAugmentEffects_gold; reflexivity).
  clearbody p1.
  set (p2 := if _ && _ then _ else p1).
  assert (Hp2 : gold p2 = gold (player gs))
    by (subst p2; destruct (_ && _); exact Hp1).
  clearbody p2.
  unfold processEnemyTurn.
  destruct (enemyLoop _ _ _ _ _) as [st|] eqn:Hl; [|discriminate].
  cbn [returned]. intros [= <-].
  apply enemyLoop_gold in Hl. cbn [newPlayer] in Hl.
  change (gold (newPlayer st) = gold (poisonTick p2)) in Hl.
  rewrite later_poisonTick_gold, Hp2 in Hl.
  repeat split. exact Hl.
Qed.

(** The queue behind a turn ends in the state the handler sets. *)
Lemma afterTurn_final closure now out final a ns :
  returned out = Some ns ->
  gameState (afterTurn xpGained splitsOnDeath SLIME_MINI_DATA closure now out final a)
  = final ns.
Proof.
  intros Hr. unfold afterTurn. rewrite Hr. unfold applyUpdates.
  rewrite fold_left_app. reflexivity.
Qed.

Lemma applyUpdates_setGame (a : App) (us : list (Update App)) (s : GameState) :
  gameState (applyUpdate (applyUpdates a us) (setGame s)) = s.
Proof. reflexivity. Qed.

(** Stepping onto an item on a free tile that is neither the exit nor an
    altar: the pickup is applied to the player the turn returns. *)
Lemma handleMove_pickup (d : Direction) (now : Z) (g : Rng) (a : App)
    (tile : option TileType) (ns : GameState) (it : Item) :
  let gs := gameState a in
  let t := stepDir d (player_x (player gs)) (player_y (player gs)) in
  animating a = false -> isPaused a = false ->
  tileAtStrict (gs_map gs) t.1 t.2 = Some tile -> tile <> Some WALL ->
  List.find (fun e => samePos (enemy_x e) (enemy_y e) t.1 t.2) (enemies gs) = None ->
  returned (processTurn gs (mkPosition t.1 t.2) g) = Some ns ->
  List.find (fun i => samePos (item_x i) (item_y i) t.1 t.2) (items gs) = Some it ->
  List.find (fun p => samePos (pos_x p) (pos_y p) t.1 t.2) (altars gs) = None ->
  atOpt (exit gs) t.1 t.2 = false ->
  let a' := (handleMove d now g a).1.1 in
  if bool_decide (itemKey it ∈ pickedUpItems gs)
  then gold (player (gameState a')) = gold (player gs)
       /\ pickedUpItems (gameState a') = pickedUpItems gs
  else gold (player (gameState a'))
       = gold (pickUp (item_type it) (player gs))
       /\ pickedUpItems (gameState a') = {[ itemKey it ]} ∪ pickedUpItems gs.
Proof.
  intros gs t Han Hpa Htile Hnw Hen Hret Hit Halt Hex a'. subst a' t gs.
  unfold V2.handleMove. cbv zeta. rewrite Han, Hpa. cbn [orb].
  destruct (stepDir d _ _) as [x y]; cbn [fst snd] in *.
  rewrite Htile. rewrite (bool_decide_eq_false_2 (tile = Some WALL)) by exact Hnw.
  rewrite Hen. rewrite Hret.
  destruct (processTurn_keeps _ _ _ _ Hret) as (Hg & Hi & Hp & Ha & He & Hw).
  rewrite Hi, Hit, Hp, Ha, Halt, He, Hex.
  rewrite (bool_decide_eq_false_2 (@None Position <> None))
    by (intros H; apply H; reflexivity).
  destruct (bool_decide (itemKey it ∈ pickedUpItems (gameState a))); cbn [fst snd].
  - split; [|reflexivity]. cbn. exact Hg.
  - split; [|reflexivity]. cbn. destruct (item_type it); cbn; rewrite ?Hg; reflexivity.
Qed.

End Gold.

(** ** The arrow *)

Section Arrow.
Variable xpGained : EnemyType -> Z -> Z.
Variable canPoison splitsOnDeath : EnemyType -> bool.
Variable SLIME_MINI_DATA : Enemy.

#[local] Abbreviation arrowTick :=
  (arrowTick xpGained canPoison splitsOnDeath SLIME_MINI_DATA).
#[local] Abbreviation flyOn := (flyOn xpGained canPoison splitsOnDeath SLIME_MINI_DATA).
#[local] Abbreviation handleEnemyDefeated :=
  (handleEnemyDefeated xpGained splitsOnDeath SLIME_MINI_DATA).
#[local] Abbreviation afterTurn := (afterTurn xpGained splitsOnDeath SLIME_MINI_DATA).

Lemma defeated_updates_arrow closure now es a :
  arrowProjectile (applyUpdates a (map (handleEnemyDefeated closure now) es))
  = arrowProjectile a.
Proof.
  revert a. induction es as [|e es IH]; intros a; [reflexivity|].
  cbn [map applyUpdates fold_left]. unfold applyUpdates in IH. rewrite IH.
  cbn. case_match; reflexivity.
Qed.

Lemma afterTurn_arrow closure now out final a :
  arrowProjectile (afterTurn closure now out final a) = arrowProjectile a.
Proof.
  unfold V2.afterTurn, applyUpdates. rewrite fold_left_app.
  destruct (returned out); cbn [fold_left applyUpdate setGame];
    [change (arrowProjectile (?x <|A_gameState ?s|>)) with (arrowProjectile x)|];
    fold (applyUpdates (if gameOverSet out then a <|A_isGameOver true|> else a)
                       (map (handleEnemyDefeated closure now) (defeated out)));
    rewrite defeated_updates_arrow; destruct (gameOverSet out); reflexivity.
Qed.

(** An arrow that enters a floor tile with an enemy is gone after the tick,
    and no further tick is pending. *)
Lemma arrowTick_hit closure now g a p e :
  arrowProjectile a = Some p -> arrow_visible p = true ->
  let t := stepDir (arrow_direction p) (arrow_x p) (arrow_y p) in
  tileAt (gs_map closure) t.1 t.2 = Some FLOOR ->
  List.find (fun e => samePos (enemy_x e) (enemy_y e) t.1 t.2) (enemies closure) = Some e ->
  arrowProjectile (arrowTick closure now g a).1.1 = None
  /\ (arrowTick closure now g a).1.2 = [].
Proof.
  intros Hp Hv t Hf He. subst t. unfold V2.arrowTick. rewrite Hp, Hv. cbn [negb].
  destruct (stepDir _ _ _) as [x y]; cbn [fst snd] in *.
  rewrite bool_decide_eq_true_2 by exact Hf. cbn [negb]. rewrite He. cbn [fst snd].
  rewrite afterTurn_arrow. split; reflexivity.
Qed.

(** What the update of a hit does to the enemies: the enemy that was hit
    loses [10 + arrowDamageBonus], or leaves the list when that kills it. *)
Lemma arrowHit_enemies closure e a :
  let damage := 10 + arrowDamageBonus (player closure) in
  enemies (gameState (applyUpdate a (arrowHit closure e)))
  = if enemy_hp e - damage <=? 0
    then List.filter (fun e' => negb (enemy_id e' =? enemy_id e)) (enemies (gameState a))
    else map (fun e' => if enemy_id e' =? enemy_id e
                        then e' <|E_enemy_hp (enemy_hp e - damage)|> else e')
             (enemies (gameState a)).
Proof. reflexivity. Qed.

(** *** The flight ends on every map *)

Lemma index_Some {A} (l : list A) (i : Z) (v : A) :
  index l i = Some v -> 0 <= i < Z.of_nat (length l).
Proof.
  unfold index. destruct (Z.ltb_spec i 0) as [|Hi]; [discriminate|].
  intros Hl. apply lookup_lt_Some in Hl. lia.
Qed.

(** A bound on the ticks an arrow at ([x], [y]) has left on the map. *)
Definition ticksLeft (m : GameMap) (d : Direction) (x y : Z) : nat :=
  match d with
  | ArrowUp => Z.to_nat (y + 1)
  | ArrowDown => Z.to_nat (Z.of_nat (length m) - y)
  | ArrowLeft => Z.to_nat (x + 1)
  | ArrowRight =>
      match index m y with
      | Some row => Z.to_nat (Z.of_nat (length row) - x)
      | None => 0%nat
      end
  end.

Lemma ticksLeft_floor m d x y :
  let t := stepDir d x y in
  tileAt m t.1 t.2 = Some FLOOR ->
  (S (ticksLeft m d t.1 t.2) <= ticksLeft m d x y)%nat.
Proof.
  unfold tileAt, ticksLeft. destruct d; cbn [stepDir fst snd];
    destruct (index m _) as [row|] eqn:Hr; try discriminate; intros Hc;
    apply index_Some in Hr; apply index_Some in Hc; lia.
Qed.

Lemma flyOn_done n closure now a g :
  flyOn n closure now (a, [], g) = (a, [], g).
Proof. destruct n; reflexivity. Qed.

(** One tick of an arrow in flight: it is gone, or it has moved one tile
    over floor. *)
Lemma arrowTick_cases closure now g a p :
  arrowProjectile a = Some p -> arrow_visible p = true ->
  let t := stepDir (arrow_direction p) (arrow_x p) (arrow_y p) in
  (arrowProjectile (arrowTick closure now g a).1.1 = None
   /\ (arrowTick closure now g a).1.2 = [])
  \/ (tileAt (gs_map closure) t.1 t.2 = Some FLOOR
      /\ arrowTick closure now g a
         = (a <|A_arrowProjectile (Some (mkArrow t.1 t.2 true (arrow_direction p)))|>
              <|A_animating false|>, [TArrowTick], g)).
Proof.
  intros Hp Hv t. subst t. unfold V2.arrowTick. rewrite Hp, Hv. cbn [negb].
  destruct (stepDir _ _ _) as [x y]; cbn [fst snd].
  destruct (bool_decide _) eqn:Hb; cbn [negb].
  - apply bool_decide_eq_true_1 in Hb.
    destruct (List.find _ _) as [e|].
    + left. cbn [fst snd]. rewrite afterTurn_arrow. split; reflexivity.
    + right. split; [exact Hb|reflexivity].
  - left. cbn [fst snd]. rewrite afterTurn_arrow. split; reflexivity.
Qed.

Lemma flyOn_lands closure now : forall k g a p,
  arrowProjectile a = Some p -> arrow_visible p = true ->
  (ticksLeft (gs_map closure) (arrow_direction p) (arrow_x p) (arrow_y p) <= k)%nat ->
  arrowProjectile (flyOn (S k) closure now (a, [TArrowTick], g)).1.1 = None.
Proof.
  induction k as [|k IH]; intros g a p Hp Hv Hk;
    pose proof (ticksLeft_floor (gs_map closure) (arrow_direction p)
                  (arrow_x p) (arrow_y p)) as Hf; cbn zeta in Hf;
    destruct (arrowTick_cases closure now g a p Hp Hv) as [[Hn Ht]|[Hfl Heq]].
  - cbn [V2.flyOn]. exact Hn.
  - specialize (Hf Hfl). lia.
  - change (flyOn (S (S k)) closure now (a, [TArrowTick], g))
      with (flyOn (S k) closure now (arrowTick closure now g a)).
    destruct (arrowTick closure now g a) as [[a' ts] g']. cbn [fst snd] in *. subst ts.
    rewrite flyOn_done. exact Hn.
  - specialize (Hf Hfl).
    change (flyOn (S (S k)) closure now (a, [TArrowTick], g))
      with (flyOn (S k) closure now (arrowTick closure now g a)).
    rewrite Heq. eapply IH; [reflexivity|reflexivity|].
    cbn [arrow_direction arrow_x arrow_y]. lia.
Qed.

(** X21.  Every shot of the later stage ends: on every map, from every tile
    and in every direction the arrow in flight is gone after finitely many
    ticks, since each tick that keeps it moves it one tile over floor and
    the tiles outside the map are not floor. *)
Lemma arrow_lands closure now g a p :
  arrowProjectile a = Some p -> arrow_visible p = true ->
  exists n, arrowProjectile (flyOn n closure now (a, [TArrowTick], g)).1.1 = None.
Proof.
  intros Hp Hv. eexists. eapply flyOn_lands; [exact Hp|exact Hv|reflexivity].
Qed.

End Arrow.

(** ** The fuse *)

Definition tickBomb (b : Bomb) : Bomb :=
  mkBomb (bomb_x b) (bomb_y b) (bomb_id b) (stepsRemaining b - 1).

Lemma bombTicking_bombs m bs nb bl :
  bombTicking m bs = Some (nb, bl) ->
  nb = filter (fun b => 0 < stepsRemaining b) (map tickBomb bs).
Proof.
  revert nb bl. induction bs as [|b bs IH]; intros nb bl; cbn [bombTicking map].
  - intros [= <- <-]. reflexivity.
  - rewrite filter_cons. cbn [tickBomb stepsRemaining].
    destruct (Z.gtb_spec (stepsRemaining b - 1) 0) as [Hpos|Hneg].
    + destruct (bombTicking m bs) as [[nb' bl']|]; [|discriminate].
      intros [= <- <-]. destruct (decide _); [|lia].
      rewrite (IH nb' bl' eq_refl). reflexivity.
    + destruct (blastOf m b); [|discriminate].
      destruct (bombTicking m bs) as [[nb' bl']|]; [|discriminate].
      intros [= <- <-]. destruct (decide _); [lia|].
      exact (IH nb' bl' eq_refl).
Qed.

(** X22.  A turn of the later stage that returns takes one step from every
    fuse, keeps the bombs that have steps left in their order and drops the
    others, whatever else happens in the turn. *)
Lemma turn_ticks_bombs (canPoison : EnemyType -> bool) gs pos g ns :
  returned (processTurn canPoison gs pos g) = Some ns ->
  bombs ns = filter (fun b => 0 < stepsRemaining b) (map tickBomb (bombs gs)).
Proof.
  unfold processTurn. destruct (bombTicking _ _) as [[nb bl]|] eqn:Hb; [|discriminate].
  apply bombTicking_bombs in Hb. unfold processEnemyTurn.
  destruct (enemyLoop _ _ _ _ _) as [st|]; [|discriminate].
  cbn [returned]. intros [= <-]. exact (eq_sym (eq_sym Hb)).
Qed.

(** * Further properties of the later stage *)

(** ** The enemy turn *)

Definition enemyTiles (es : list Enemy) : list (Z * Z) :=
  (fun e => (enemy_x e, enemy_y e)) <$> es.

(** What an enemy may do in a turn: stay as it is, or take one step onto a
    floor tile. *)
Definition stepsOnto (m : GameMap) (e e' : Enemy) : Prop :=
  e' = e
  \/ (e' = (e <|E_enemy_x (enemy_x e')|> <|E_enemy_y (enemy_y e')|>)
      /\ Z.abs (enemy_x e' - enemy_x e) + Z.abs (enemy_y e' - enemy_y e) = 1
      /\ tileAt m (enemy_x e') (enemy_y e') = Some FLOOR).

(** What an enemy turn may do to the player: take hit points and poison. *)
Definition hurt (p p' : Player) : Prop :=
  exists h b, p' = (p <|F_hp h|> <|F_isPoisoned b|>)
              /\ h <= hp p /\ (isPoisoned p = true -> b = true).

Lemma hurt_refl p : hurt p p.
Proof.
  exists (hp p), (isPoisoned p). split; [destruct p; reflexivity|]. split; [lia|auto].
Qed.

Lemma hurt_trans p1 p2 p3 : hurt p1 p2 -> hurt p2 p3 -> hurt p1 p3.
Proof.
  intros (h & b & -> & Hh & Hb) (h' & b' & -> & Hh' & Hb').
  exists h', b'. split; [destruct p1; reflexivity|]. cbn in *. split; [lia|auto].
Qed.

Lemma hurt_facts p p' :
  hurt p p' ->
  hp p' <= hp p /\ player_x p' = player_x p /\ player_y p' = player_y p
  /\ maxHp p' = maxHp p /\ gold p' = gold p /\ stepsTaken p' = stepsTaken p.
Proof. intros (h & b & -> & Hh & _). cbn. repeat split; try reflexivity; exact Hh. Qed.

Lemma insert_elem {A} (l : list A) (i : nat) (x y : A) :
  y ∈ <[i:=x]> l -> y = x \/ y ∈ l.
Proof.
  intros Hin. apply list_elem_of_lookup in Hin as [j Hj].
  apply list_lookup_insert_Some in Hj as [(_ & -> & _)|(_ & Hj)]; [left; reflexivity|].
  right. apply list_elem_of_lookup. eauto.
Qed.

Lemma NoDup_insert_fresh {A} (l : list A) (i : nat) (x : A) :
  x ∉ l -> NoDup l -> NoDup (<[i:=x]> l).
Proof.
  revert i. induction l as [|a l IH]; intros i Hx Hd; [destruct i; constructor|].
  apply not_elem_of_cons in Hx as [Hne Hx]. apply NoDup_cons in Hd as [Ha Hd].
  destruct i as [|i]; cbn; apply NoDup_cons.
  - split; assumption.
  - split; [|apply IH; assumption].
    intros Hin. apply insert_elem in Hin as [->|Hin]; [congruence|contradiction].
Qed.

Lemma existsb_enemyTiles x y es :
  existsb (fun e => samePos (enemy_x e) (enemy_y e) x y) es = false ->
  (x, y) ∉ enemyTiles es.
Proof.
  unfold enemyTiles. induction es as [|e es IH]; cbn; [intros _; apply not_elem_of_nil|].
  rewrite orb_false_iff. unfold samePos at 1. rewrite andb_false_iff.
  intros [Hb Hr]. rewrite not_elem_of_cons. split; [|exact (IH Hr)].
  intros [= Hx Hy]. destruct Hb as [Hb|Hb]; apply Z.eqb_neq in Hb; congruence.
Qed.

Lemma tileAtStrict_floor m x y tile :
  tileAtStrict m x y = Some tile -> tile = Some FLOOR -> tileAt m x y = Some FLOOR.
Proof.
  unfold tileAtStrict, tileAt. destruct (index m y); [|discriminate].
  intros [= <-]. exact id.
Qed.

Section EnemyTurn.
Variable canPoison : EnemyType -> bool.

#[local] Abbreviation enemyTurnStep := (enemyTurnStep canPoison).
#[local] Abbreviation enemyLoop := (enemyLoop canPoison).
#[local] Abbreviation processEnemyTurn := (processEnemyTurn canPoison).

(** One enemy: it leaves the array, or replaces its own entry by itself one
    step further, on a free floor tile that is not the player's. *)
Lemma enemyTurnStep_enemies cs st e i st' :
  enemyTurnStep cs st e i = Some st' ->
  newEnemies st' = newEnemies st
  \/ exists e', newEnemies st' = <[i:=e']> (newEnemies st)
       /\ stepsOnto (gs_map cs) e e'
       /\ ((enemy_x e', enemy_y e') ∉ enemyTiles (newEnemies st))
       /\ (enemy_x e', enemy_y e')
          <> (player_x (newPlayer st), player_y (newPlayer st))
       /\ (Z.min (enemy_y e) (player_y (newPlayer st)) <= enemy_y e'
           <= Z.max (enemy_y e) (player_y (newPlayer st))).
Proof.
  unfold V2.enemyTurnStep.
  set (dx := player_x (newPlayer st) - enemy_x e).
  set (dy := player_y (newPlayer st) - enemy_y e).
  pose proof (Z.sgn_spec dx) as Sx. pose proof (Z.sgn_spec dy) as Sy.
  destruct (Z.gtb_spec (Z.abs dx) (Z.abs dy)) as [Hgt|Hle];
    (destruct (samePos _ _ _ _) eqn:Hs;
     [destruct (canPoison _); [destruct (draw _)|]; intros [= <-]; left; reflexivity|]);
    (destruct (tileAtStrict _ _ _) as [tile|] eqn:Ht; [|discriminate]);
    (destruct (bool_decide (tile = Some FLOOR)) eqn:Hf; cbn [andb];
     [|intros [= <-]; left; reflexivity]);
    (destruct (existsb _ _) eqn:Hex; cbn [negb];
     intros [= <-]; [left; reflexivity|right]);
    apply bool_decide_eq_true_1 in Hf;
    unfold samePos in Hs; apply andb_false_iff in Hs;
    eexists; (split; [reflexivity|]); cbn [enemy_x enemy_y assignE upd].
  - split; [right; split; [destruct e; reflexivity|]; cbn; split;
            [lia|exact (tileAtStrict_floor _ _ _ _ Ht Hf)]|].
    split; [apply existsb_enemyTiles; destruct e; exact Hex|].
    destruct e; cbn in *. split; [|lia].
    intros [= Hx Hy]. destruct Hs as [Hs|Hs]; apply Z.eqb_neq in Hs; congruence.
  - split; [right; split; [destruct e; reflexivity|]; cbn; split;
            [|exact (tileAtStrict_floor _ _ _ _ Ht Hf)]|].
    + destruct e; cbn in *.
      destruct Hs as [Hs|Hs]; apply Z.eqb_neq in Hs; lia.
    + split; [apply existsb_enemyTiles; destruct e; exact Hex|].
      destruct e; cbn in *. split; [|lia].
      intros [= Hx Hy]. destruct Hs as [Hs|Hs]; apply Z.eqb_neq in Hs; congruence.
Qed.

Lemma enemyTurnStep_player cs st e i st' :
  enemyTurnStep cs st e i = Some st' ->
  hurt (newPlayer st) (newPlayer st')
  /\ (playerTookDamage st' = true
      <-> playerTookDamage st = true \/ hp (newPlayer st') < hp (newPlayer st)).
Proof.
  unfold V2.enemyTurnStep.
  destruct (if Z.abs _ >? Z.abs _ then _ else _) as [nx ny].
  destruct (samePos _ _ _ _).
  - destruct (canPoison _).
    + destruct (draw _) as [r g']. intros [= <-]. cbn [newPlayer playerTookDamage]. split.
      * exists (hp (newPlayer st) - Z.max 1 (enemy_attack e)),
               (if ltThreeTenths r then true else isPoisoned (newPlayer st)).
        split; [destruct (ltThreeTenths r), (newPlayer st); reflexivity|].
        split; [lia|]. intros ->. destruct (ltThreeTenths r); reflexivity.
      * destruct (ltThreeTenths r); cbn; split; auto; intros _; right; lia.
    + intros [= <-]. cbn [newPlayer playerTookDamage]. split.
      * exists (hp (newPlayer st) - Z.max 1 (enemy_attack e)), (isPoisoned (newPlayer st)).
        split; [destruct (newPlayer st); reflexivity|]. split; [lia|auto].
      * cbn; split; auto; intros _; right; lia.
  - destruct (tileAtStrict _ _ _); [|discriminate].
    destruct (_ && _); intros [= <-]; cbn [newPlayer playerTookDamage];
      (split; [apply hurt_refl|]); (split; [auto|]); (intros [H|H]; [exact H|lia]).
Qed.

(** The rows an enemy can reach exist when its own row and the player's
    do, so the step does not throw. *)
Lemma enemyTurnStep_returns cs st e i :
  0 <= player_y (newPlayer st) < Z.of_nat (length (gs_map cs)) ->
  0 <= enemy_y e < Z.of_nat (length (gs_map cs)) ->
  exists st', enemyTurnStep cs st e i = Some st'.
Proof.
  intros Hp He. unfold V2.enemyTurnStep.
  set (dy := player_y (newPlayer st) - enemy_y e).
  pose proof (Z.sgn_spec dy) as Sy.
  assert (Hrow : forall x y, Z.min (enemy_y e) (player_y (newPlayer st)) <= y
                             <= Z.max (enemy_y e) (player_y (newPlayer st)) ->
                 exists tile, tileAtStrict (gs_map cs) x y = Some tile).
  { intros x y Hy. unfold tileAtStrict, index.
    destruct (Z.ltb_spec y 0); [lia|].
    destruct (_ !! _) eqn:Hl; [eexists; reflexivity|].
    apply lookup_ge_None in Hl. lia. }
  destruct (Z.abs _ >? Z.abs _);
    (destruct (samePos _ _ _ _);
     [destruct (canPoison _); [destruct (draw _)|]; eauto|]).
  - destruct (Hrow (enemy_x e + Z.sgn (player_x (newPlayer st) - enemy_x e)) (enemy_y e))
      as [tile ->]; [lia|].
    destruct (_ && _); eauto.
  - destruct (Hrow (enemy_x e) (enemy_y e + Z.sgn dy)) as [tile ->]; [subst dy; lia|].
    destruct (_ && _); eauto.
Qed.

(** The loop from [i] on. *)
Lemma enemyLoop_enemies cs px py n : forall i st st',
  enemyLoop cs n i st = Some st' ->
  player_x (newPlayer st) = px -> player_y (newPlayer st) = py ->
  length (newEnemies st') = length (newEnemies st)
  /\ (forall j e, newEnemies st !! j = Some e ->
        exists e', newEnemies st' !! j = Some e' /\ stepsOnto (gs_map cs) e e'
                   /\ ((j < i)%nat -> e' = e))
  /\ (NoDup (enemyTiles (newEnemies st)) -> NoDup (enemyTiles (newEnemies st')))
  /\ ((px, py) ∉ enemyTiles (newEnemies st) -> (px, py) ∉ enemyTiles (newEnemies st')).
Proof.
  induction n as [|n IH]; intros i st st'; cbn [V2.enemyLoop].
  - intros [= <-] _ _. repeat split; auto. intros j e He. exists e.
    split; [exact He|]. split; [left; reflexivity|auto].
  - destruct (newEnemies st !! i) as [e|] eqn:Hi.
    2:{ intros [= <-] _ _. repeat split; auto. intros j e He. exists e.
        split; [exact He|]. split; [left; reflexivity|auto]. }
    destruct (V2.enemyTurnStep _ _ _ _ _) as [st1|] eqn:Hs; [|discriminate].
    intros Hloop Hpx Hpy.
    destruct (enemyTurnStep_player _ _ _ _ _ Hs) as [Hh _].
    apply hurt_facts in Hh as (_ & Hx1 & Hy1 & _).
    destruct (IH _ _ _ Hloop (eq_trans Hx1 Hpx) (eq_trans Hy1 Hpy))
      as (Hlen & Hpt & Hnd & Hoff).
    destruct (enemyTurnStep_enemies _ _ _ _ _ Hs)
      as [Heq|(e1 & Heq & Hstep & Hfresh & Hnp & _)]; rewrite Heq in *.
    + split; [exact Hlen|]. split; [|split; assumption].
      intros j ej Hj. destruct (Hpt j ej Hj) as (e' & He' & Hst & Hlt).
      exists e'. split; [exact He'|]. split; [exact Hst|]. intros ?. apply Hlt. lia.
    + rewrite length_insert in Hlen. split; [exact Hlen|]. split; [|split].
      * intros j ej Hj. destruct (decide (i = j)) as [<-|Hne].
        -- assert (ej = e) as -> by congruence.
           destruct (Hpt i e1) as (e' & He' & _ & Hlt).
           { apply list_lookup_insert_eq. eapply lookup_lt_Some, Hi. }
           exists e'. split; [exact He'|]. rewrite (Hlt ltac:(lia)).
           split; [exact Hstep|lia].
        -- destruct (Hpt j ej) as (e' & He' & Hst & Hlt).
           { rewrite list_lookup_insert_ne by exact Hne. exact Hj. }
           exists e'. split; [exact He'|]. split; [exact Hst|]. intros ?. apply Hlt. lia.
      * intros Hd. apply Hnd. unfold enemyTiles. rewrite list_fmap_insert.
        apply NoDup_insert_fresh; assumption.
      * intros Hp. apply Hoff. unfold enemyTiles. rewrite list_fmap_insert.
        intros Hin. apply insert_elem in Hin as [Hin|Hin]; [|contradiction].
        apply Hnp. rewrite Hpx, Hpy. symmetry. exact Hin.
Qed.

Lemma enemyLoop_player cs n : forall i st st',
  enemyLoop cs n i st = Some st' ->
  hurt (newPlayer st) (newPlayer st')
  /\ (playerTookDamage st' = true
      <-> playerTookDamage st = true \/ hp (newPlayer st') < hp (newPlayer st)).
Proof.
  induction n as [|n IH]; intros i st st'; cbn [V2.enemyLoop].
  - intros [= <-]. split; [apply hurt_refl|]. split; auto. intros [H|H]; [exact H|lia].
  - destruct (newEnemies st !! i) as [e|].
    2:{ intros [= <-]. split; [apply hurt_refl|]. split; auto.
        intros [H|H]; [exact H|lia]. }
    destruct (V2.enemyTurnStep _ _ _ _ _) as [st1|] eqn:Hs; [|discriminate].
    intros Hloop.
    destruct (enemyTurnStep_player _ _ _ _ _ Hs) as [H1 D1].
    destruct (IH _ _ _ Hloop) as [H2 D2].
    split; [exact (hurt_trans _ _ _ H1 H2)|].
    apply hurt_facts in H1 as (L1 & _). apply hurt_facts in H2 as (L2 & _).
    rewrite D2, D1. split.
    + intros [[H|H]|H]; [left; exact H|right; lia|right; lia].
    + intros [H|H]; [left; left; exact H|].
      destruct (Z.lt_ge_cases (hp (newPlayer st')) (hp (newPlayer st1)));
        [right|left; right]; lia.
Qed.

Lemma enemyLoop_returns cs n : forall i st,
  0 <= player_y (newPlayer st) < Z.of_nat (length (gs_map cs)) ->
  Forall (fun e => 0 <= enemy_y e < Z.of_nat (length (gs_map cs))) (newEnemies st) ->
  exists st', enemyLoop cs n i st = Some st'.
Proof.
  induction n as [|n IH]; intros i st Hp He; cbn [V2.enemyLoop]; [eauto|].
  destruct (newEnemies st !! i) as [e|] eqn:Hi; [|eauto].
  assert (Hrow : 0 <= enemy_y e < Z.of_nat (length (gs_map cs))).
  { rewrite Forall_lookup in He. exact (He i e Hi). }
  destruct (enemyTurnStep_returns cs st e i Hp Hrow) as [st1 Hs]. rewrite Hs.
  destruct (enemyTurnStep_player _ _ _ _ _ Hs) as [Hh _].
  apply hurt_facts in Hh as (_ & _ & Hy1 & _).
  apply IH; [rewrite Hy1; exact Hp|].
  destruct (enemyTurnStep_enemies _ _ _ _ _ Hs)
    as [->|(e1 & -> & _ & _ & _ & Hy)]; [exact He|].
  apply Forall_insert; [exact He|]. lia.
Qed.

(** X15.  In an enemy turn of the later stage that returns, every enemy
    stays as it is or takes one step onto a floor tile; enemies that stood
    on different tiles still do, since each one looks at the array as the
    enemies before it left it; and no enemy steps onto the player's tile.
    The turn returns whenever the player and the enemies stand on rows of
    the map. *)
Theorem later_enemy_turn_keeps_enemies_apart (cs : GameState) (g : Rng) :
  (0 <= player_y (player cs) < Z.of_nat (length (gs_map cs)) ->
   Forall (fun e => 0 <= enemy_y e < Z.of_nat (length (gs_map cs))) (enemies cs) ->
   exists over g' ns, processEnemyTurn cs g = (over, g', Some ns))
  /\ forall over g' ns,
       processEnemyTurn cs g = (over, g', Some ns) ->
       Forall2 (stepsOnto (gs_map cs)) (enemies cs) (enemies ns)
       /\ (NoDup (enemyTiles (enemies cs)) -> NoDup (enemyTiles (enemies ns)))
       /\ ((player_x (player cs), player_y (player cs)) ∉ enemyTiles (enemies cs) ->
           (player_x (player ns), player_y (player ns)) ∉ enemyTiles (enemies ns)).
Proof.
  unfold V2.processEnemyTurn. split.
  - intros Hp He.
    destruct (enemyLoop_returns cs (length (enemies cs)) 0
                (mkEnemyLoop (enemies cs) (player cs) false g) Hp He) as [st' ->].
    eauto.
  - intros over g' ns.
    destruct (V2.enemyLoop _ _ _ _ _) as [st'|] eqn:Hloop; [|discriminate].
    intros [= _ _ <-].
    destruct (enemyLoop_enemies _ _ _ _ _ _ _ Hloop eq_refl eq_refl)
      as (Hlen & Hpt & Hnd & Hoff).
    destruct (enemyLoop_player _ _ _ _ _ Hloop) as [Hh _].
    apply hurt_facts in Hh as (_ & Hx & Hy & _).
    cbn in *. rewrite Hx, Hy. split; [|split; assumption].
    apply Forall2_same_length_lookup_2; [symmetry; exact Hlen|].
    intros j e e' He He'. destruct (Hpt j e He) as (e1 & He1 & Hst & _). congruence.
Qed.

Lemma processEnemyTurn_hurt (cs : GameState) (g : Rng)
    (over : bool) (g' : Rng) (ns : GameState) :
  processEnemyTurn cs g = (over, g', Some ns) ->
  hurt (player cs) (player ns)
  /\ (over = true -> hp (player ns) <= 0)
  /\ (hp (player ns) < hp (player cs) -> hp (player ns) <= 0 -> over = true).
Proof.
  unfold V2.processEnemyTurn.
  destruct (V2.enemyLoop _ _ _ _ _) as [st'|] eqn:Hloop; [|discriminate].
  intros [= <- _ <-].
  destruct (enemyLoop_player _ _ _ _ _ Hloop) as [Hh Hd]. cbn in *.
  split; [exact Hh|]. rewrite andb_true_iff, Z.leb_le. split; [tauto|].
  intros Hlt Hle. split; [|exact Hle]. apply Hd. right. exact Hlt.
Qed.

(** X16.  An enemy turn of the later stage that returns changes the player
    only by taking hit points and by poisoning, and leaves the map, the
    bombs and the items; it reports the game as over exactly when the
    player lost hit points in this turn and has none left. *)
Theorem later_enemy_turn_only_hurts (cs : GameState) (g : Rng)
    (over : bool) (g' : Rng) (ns : GameState) :
  processEnemyTurn cs g = (over, g', Some ns) ->
  hurt (player cs) (player ns)
  /\ (over = true <-> hp (player ns) < hp (player cs) /\ hp (player ns) <= 0)
  /\ gs_map ns = gs_map cs /\ bombs ns = bombs cs /\ items ns = items cs.
Proof.
  unfold V2.processEnemyTurn.
  destruct (V2.enemyLoop _ _ _ _ _) as [st'|] eqn:Hloop; [|discriminate].
  intros [= <- _ <-].
  destruct (enemyLoop_player _ _ _ _ _ Hloop) as [Hh Hd]. cbn in *.
  split; [exact Hh|]. split; [|repeat split].
  rewrite andb_true_iff, Hd, Z.leb_le. split; intros [H1 H2]; split; auto.
  destruct H1 as [H1|H1]; [discriminate|exact H1].
Qed.

End EnemyTurn.

(** ** The blast *)

Lemma zrange_elem lo n z : z ∈ zrange lo n <-> lo <= z < lo + Z.of_nat n.
Proof.
  unfold zrange. rewrite list_elem_of_In, in_map_iff. split.
  - intros (i & <- & Hi). apply in_seq in Hi. lia.
  - intros H. exists (Z.to_nat (z - lo)). split; [lia|]. apply in_seq. lia.
Qed.

Lemma collect_Some {A B} (f : A -> option (list B)) (l : list A) :
  (forall a, a ∈ l -> exists bs, f a = Some bs) ->
  exists r, collect f l = Some r
            /\ forall c, c ∈ r <-> exists a bs, a ∈ l /\ f a = Some bs /\ c ∈ bs.
Proof.
  induction l as [|a l IH]; intros Hf; cbn.
  - exists []. split; [reflexivity|]. intros c. split.
    + intros H. inversion H.
    + intros (a & bs & H & _). inversion H.
  - destruct (Hf a (list_elem_of_here _ _)) as [bs Hbs]. rewrite Hbs.
    destruct IH as (r & -> & Hr).
    { intros a' Ha'. apply Hf, list_elem_of_further, Ha'. }
    exists (bs ++ r). split; [reflexivity|]. intros c. rewrite elem_of_app, Hr. split.
    + intros [Hc|(a' & bs' & Ha' & Hfa' & Hc)].
      * exists a, bs. split; [apply list_elem_of_here|]. split; assumption.
      * exists a', bs'. split; [apply list_elem_of_further, Ha'|]. split; assumption.
    + intros (a' & bs' & Ha' & Hfa' & Hc). apply elem_of_cons in Ha' as [->|Ha'].
      * left. congruence.
      * right. exists a', bs'. split; [exact Ha'|]. split; assumption.
Qed.

Lemma square_bound (a b r : Z) : 0 <= r -> a * a + b * b <= r * r -> - r <= a <= r.
Proof. intros Hr H. nia. Qed.

Lemma range_covers (lo v d : Z) :
  - BOMB_RANGE <= d <= BOMB_RANGE -> v = lo + d ->
  v ∈ zrange (lo - BOMB_RANGE) (Z.to_nat (2 * BOMB_RANGE + 1)).
Proof. intros Hd ->. apply zrange_elem. unfold BOMB_RANGE in *. lia. Qed.

(** The cells of the map, whose width is that of its first row, that lie
    within [BOMB_RANGE] of the bomb. *)
Definition inDisc (m : GameMap) (bomb : Bomb) (c : Position) : Prop :=
  0 <= pos_x c < Z.of_nat (length (default [] (head m)))
  /\ 0 <= pos_y c < Z.of_nat (length m)
  /\ (pos_x c - bomb_x bomb) * (pos_x c - bomb_x bomb)
     + (pos_y c - bomb_y bomb) * (pos_y c - bomb_y bomb) <= BOMB_RANGE * BOMB_RANGE.

Lemma blastCell_spec row0 m bomb y x :
  exists bs, blastCell (row0 :: m) bomb y x = Some bs
             /\ forall c, c ∈ bs <-> c = mkPosition x y /\ inDisc (row0 :: m) bomb c.
Proof.
  unfold blastCell, inDisc. cbn [head default from_option id].
  destruct (Z.ltb_spec x 0) as [Hx|Hx].
  { exists []. split; [reflexivity|]. intros c. split; [intros H; inversion H|].
    intros (-> & H & _). cbn in H. lia. }
  destruct (_ && _) eqn:Hc; eexists; (split; [reflexivity|]); intros c.
  - repeat (apply andb_true_iff in Hc as [Hc ?]).
    rewrite list_elem_of_singleton. split; [|tauto]. intros ->. split; [reflexivity|].
    cbn [pos_x pos_y]. lia.
  - split; [intros H; inversion H|]. intros (-> & H1 & H2 & H3). cbn [pos_x pos_y] in *.
    repeat (apply andb_false_iff in Hc as [Hc|Hc]); lia.
Qed.

(** X17.  On a map that is not empty the blast of a bomb of the later stage
    is the disc of radius [BOMB_RANGE] around the bomb, cut to the map:
    a cell is in it exactly when it lies on the map and its distance to
    the bomb is at most the range.  Walls neither stop the blast nor are
    spared by it. *)
Theorem later_blast_is_a_disc (m : GameMap) (bomb : Bomb) :
  m <> [] ->
  exists cells, blastOf m bomb = Some cells /\ forall c, c ∈ cells <-> inDisc m bomb c.
Proof.
  intros Hm. destruct m as [|row0 m]; [contradiction|]. unfold blastOf.
  set (xs := zrange (bomb_x bomb - BOMB_RANGE) _).
  set (ys := zrange (bomb_y bomb - BOMB_RANGE) _).
  assert (Hrow : forall y, exists r,
             collect (blastCell (row0 :: m) bomb y) xs = Some r
             /\ forall c, c ∈ r <-> pos_y c = y /\ inDisc (row0 :: m) bomb c).
  { intros y.
    destruct (collect_Some (blastCell (row0 :: m) bomb y) xs) as (r & Hr & Hc).
    { intros x _. destruct (blastCell_spec row0 m bomb y x) as (bs & ? & _). eauto. }
    exists r. split; [exact Hr|]. intros c. rewrite Hc. split.
    - intros (x & bs & _ & Hbs & Hin).
      destruct (blastCell_spec row0 m bomb y x) as (bs' & Hbs' & Hspec).
      assert (bs' = bs) as -> by congruence.
      apply Hspec in Hin as [-> Hd]. split; [reflexivity|exact Hd].
    - intros [Hy Hd].
      destruct (blastCell_spec row0 m bomb y (pos_x c)) as (bs & Hbs & Hspec).
      exists (pos_x c), bs. split; [|split; [exact Hbs|]].
      + subst xs. destruct Hd as (_ & _ & Hd).
        apply (range_covers _ _ (pos_x c - bomb_x bomb)); [|lia].
        apply (square_bound _ (pos_y c - bomb_y bomb)); [unfold BOMB_RANGE; lia|exact Hd].
      + apply Hspec. split; [|exact Hd]. destruct c; cbn in *. congruence. }
  destruct (collect_Some (fun y => collect (blastCell (row0 :: m) bomb y) xs) ys)
    as (cells & Hcells & Hc).
  { intros y _. destruct (Hrow y) as (r & ? & _). eauto. }
  exists cells. split; [exact Hcells|]. intros c. rewrite Hc. split.
  - intros (y & r & _ & Hr & Hin). destruct (Hrow y) as (r' & Hr' & Hspec).
    assert (r' = r) as -> by congruence. apply Hspec in Hin. tauto.
  - intros Hd. destruct (Hrow (pos_y c)) as (r & Hr & Hspec).
    exists (pos_y c), r. split; [|split; [exact Hr|apply Hspec; tauto]].
    subst ys. destruct Hd as (_ & _ & Hd).
    apply (range_covers _ _ (pos_y c - bomb_y bomb)); [|lia].
    apply (square_bound _ (pos_x c - bomb_x bomb)); [unfold BOMB_RANGE; lia|lia].
Qed.

Lemma later_blast_is_a_disc_witness :
  exists cells,
    blastOf [[WALL; WALL; WALL]; [WALL; FLOOR; WALL]; [WALL; WALL; WALL]]
            (mkBomb 0 0 1 0) = Some cells
    /\ mkPosition 2 0 ∈ cells /\ mkPosition 1 1 ∈ cells /\ mkPosition 2 1 ∉ cells.
Proof.
  destruct (later_blast_is_a_disc
              [[WALL; WALL; WALL]; [WALL; FLOOR; WALL]; [WALL; WALL; WALL]]
              (mkBomb 0 0 1 0)) as (cells & Hc & Hin); [discriminate|].
  exists cells. split; [exact Hc|].
  rewrite !Hin. unfold inDisc. vm_compute.
  repeat split; try discriminate. intros (_ & _ & H). apply H. reflexivity.
Defined.

(** ** The player through a turn *)

Lemma processAugmentEffects_facts p :
  let p' := processAugmentEffects p in
  hp p' <= hp p /\ (0 < hp p -> 0 < hp p')
  /\ (maxHp p' = maxHp p \/ maxHp p' = Z.max 1 (maxHp p - 1))
  /\ (hp p <= maxHp p -> hp p' <= maxHp p')
  /\ player_x p' = player_x p /\ player_y p' = player_y p
  /\ stepsTaken p' = stepsTaken p /\ bombDamageBonus p' = bombDamageBonus p.
Proof.
  unfold processAugmentEffects. destruct (_ && _); cbn; repeat split; lia.
Qed.

Lemma later_poisonTick_facts p :
  let p' := poisonTick p in
  hp p' <= hp p /\ maxHp p' = maxHp p
  /\ player_x p' = player_x p /\ player_y p' = player_y p
  /\ stepsTaken p' = stepsTaken p
  /\ (hp p' < hp p ->
      isPoisoned p && (POISON_TICK_STEPS <=? poisonStepCounter p + 1) = true).
Proof.
  unfold poisonTick, POISON_DAMAGE. destruct (isPoisoned p); [|cbn; repeat split; lia].
  destruct (_ <=? _); cbn; repeat split; try lia; reflexivity.
Qed.

Section Turn.
Variable canPoison : EnemyType -> bool.

(** X18.  A turn of the later stage that returns puts the player on the
    requested tile and counts one step.  [maxHp] stays as it is or becomes
    the larger of 1 and [maxHp - 1], so a [maxHp] of at least 1 neither
    grows nor falls below 1.  A player who was alive is reported as defeated exactly
    when the turn leaves no hit points.  When the damage of a bomb,
    [20 + bombDamageBonus], is not negative, the turn does not raise the
    hit points, and hit points within [maxHp] stay within it. *)
Theorem later_turn_never_heals (gs : GameState) (pos : Position) (g : Rng)
    (ns : GameState) :
  returned (processTurn canPoison gs pos g) = Some ns ->
  let p := player gs in
  let p' := player ns in
  player_x p' = pos_x pos /\ player_y p' = pos_y pos
  /\ stepsTaken p' = stepsTaken p + 1
  /\ (maxHp p' = maxHp p \/ maxHp p' = Z.max 1 (maxHp p - 1))
  /\ (1 <= maxHp p -> 1 <= maxHp p' <= maxHp p)
  /\ (0 < hp p ->
      (gameOverSet (processTurn canPoison gs pos g) = true <-> hp p' <= 0))
  /\ (0 <= 20 + bombDamageBonus p ->
      hp p' <= hp p /\ (hp p <= maxHp p -> hp p' <= maxHp p')).
Proof.
  unfold processTurn.
  destruct (bombTicking _ _) as [[newBombs newBlasts]|]; [|discriminate].
  set (p0 := (player gs) <|F_player_x (pos_x pos)|> <|F_player_y (pos_y pos)|>
                         <|F_stepsTaken (stepsTaken (player gs) + 1)|>).
  destruct (processAugmentEffects_facts p0) as (A1 & A2 & A3 & A4 & A5 & A6 & A7 & A8).
  cbn zeta in *.
  change (hp p0) with (hp (player gs)) in *.
  change (maxHp p0) with (maxHp (player gs)) in *.
  change (player_x p0) with (pos_x pos) in *.
  change (player_y p0) with (pos_y pos) in *.
  change (stepsTaken p0) with (stepsTaken (player gs) + 1) in *.
  change (bombDamageBonus p0) with (bombDamageBonus (player gs)) in *.
  set (p1 := processAugmentEffects p0) in *. clearbody p1. clear p0.
  set (playerHit := negb _ && inBlast newBlasts _ _).
  set (p2 := if playerHit then _ else p1).
  destruct (later_poisonTick_facts p2) as (B1 & B2 & B3 & B4 & B5 & B6).
  cbn zeta in *.
  set (p3 := poisonTick p2) in *.
  set (newState := gs <|G_player p3|> <|G_bombs newBombs|> <|G_enemies _|>
                      <|G_activeBlasts newBlasts|>).
  destruct (V2.processEnemyTurn canPoison newState g) as [[over3 g'] res] eqn:He.
  cbn [returned gameOverSet]. intros ->.
  destruct (processEnemyTurn_hurt canPoison _ _ _ _ _ He) as (Hh & Hover & Hback).
  apply hurt_facts in Hh as (C1 & C2 & C3 & C4 & _ & C6).
  change (player newState) with p3 in *.
  assert (D : maxHp p2 = maxHp p1 /\ player_x p2 = player_x p1
              /\ player_y p2 = player_y p1 /\ stepsTaken p2 = stepsTaken p1
              /\ (playerHit = false -> hp p2 = hp p1)
              /\ (0 <= 20 + bombDamageBonus (player gs) -> hp p2 <= hp p1)).
  { subst p2. destruct playerHit; cbn; repeat split; try discriminate; lia. }
  destruct D as (D2 & D3 & D4 & D5 & D6 & D1).
  split; [congruence|]. split; [congruence|]. split; [congruence|].
  split; [lia|]. split; [lia|]. split.
  - intros Hlive. rewrite !orb_true_iff, !andb_true_iff, !Z.leb_le. split.
    + intros [[[_ H]|[_ H]]|H]; [lia|lia|]. exact (Hover H).
    + intros Hdead.
      destruct (Z.lt_ge_cases 0 (hp p2)) as [H2|H2].
      * destruct (Z.lt_ge_cases 0 (hp p3)) as [H3|H3].
        -- right. apply Hback; lia.
        -- left. right. split; [|exact H3].
           assert (Hp : hp p3 < hp p2) by lia.
           apply B6, andb_true_iff in Hp as [Hp Ht]. apply Z.leb_le in Ht.
           split; assumption.
      * left. left. split; [|exact H2].
        destruct playerHit; [reflexivity|]. specialize (D6 eq_refl). lia.
  - intros Hdmg. specialize (D1 Hdmg). split; lia.
Qed.

End Turn.

(** ** The altar *)

Lemma includes_false (a : AugmentId) (l : list AugmentId) :
  existsb (String.eqb a) l = false -> a ∉ l.
Proof.
  induction l as [|x l IH]; cbn; [intros _; apply not_elem_of_nil|].
  rewrite orb_false_iff. intros [Hx Hl]. apply not_elem_of_cons.
  split; [apply String.eqb_neq, Hx|exact (IH Hl)].
Qed.

Lemma setStat_keeps (stat : Stat) (v : Z) (q : Player) :
  activeAugments (q <|setStat stat v|>) = activeAugments q
  /\ isPoisoned (q <|setStat stat v|>) = isPoisoned q
  /\ playerClass (q <|setStat stat v|>) = playerClass q.
Proof. destruct stat; repeat split; reflexivity. Qed.

Lemma onAcquire_keeps (onAcquire : list (Stat * Z)) : forall q : Player,
  activeAugments (fold_left (fun q '(stat, value) =>
                               q <|setStat stat (getStat stat q + value)|>)
                            onAcquire q)
  = activeAugments q.
Proof.
  induction onAcquire as [|[stat value] l IH]; intros q; [reflexivity|].
  cbn [fold_left]. rewrite IH. apply setStat_keeps.
Qed.

Section Altar.
Variable ALTAR_EFFECTS : list AltarEffect.
Variable AUGMENTS : AugmentId -> option (list (Stat * Z)).

(** X19.  An altar that does not throw leaves the corruption at 100 at the
    most, whatever its tables hold.  It grants an augment only to a player
    who does not have it: the list of augments stays as it is or grows by
    one new entry at its end, so augments that were distinct stay
    distinct. *)
Theorem altar_caps_corruption_and_keeps_augments_distinct
    (r : Q) (p : Player) (augs : list AugmentId) (q : Player) :
  altarBlock ALTAR_EFFECTS AUGMENTS r p = (augs, Some q) ->
  corruption q <= 100
  /\ activeAugments q = augs
  /\ (augs = activeAugments p
      \/ exists a, (a ∉ activeAugments p) /\ augs = activeAugments p ++ [a])
  /\ (NoDup (activeAugments p) -> NoDup augs).
Proof.
  unfold altarBlock. destruct (index _ _) as [effect|]; [|discriminate].
  set (gained := corruptionGained effect). clearbody gained.
  destruct effect as [stat value c|a c].
  - intros [= <- <-]. split; [cbn; lia|].
    split; [|split; [left; reflexivity|exact id]].
    destruct stat; reflexivity.
  - destruct (existsb _ _) eqn:Hin.
    + intros [= <- <-]. split; [cbn; lia|].
      split; [reflexivity|]. split; [left; reflexivity|exact id].
    + apply includes_false in Hin.
      destruct (AUGMENTS a) as [onAcquire|]; [|discriminate].
      intros [= <- <-]. split; [cbn; lia|]. split; [|split].
      * cbn [activeAugments assign upd]. 
        change (activeAugments (_ <|F_corruption _|>))
          with (activeAugments (fold_left (fun q '(stat, value) =>
                                  q <|setStat stat (getStat stat q + value)|>)
                                onAcquire (p <|F_activeAugments (activeAugments p ++ [a])|>))).
        rewrite onAcquire_keeps. reflexivity.
      * right. exists a. split; [exact Hin|reflexivity].
      * intros Hd. apply NoDup_app. split; [exact Hd|]. split; [|apply NoDup_singleton].
        intros x Hx Hs. apply list_elem_of_singleton in Hs as ->. contradiction.
Qed.

End Altar.

Lemma altar_caps_corruption_and_keeps_augments_distinct_witness :
  let p := initialPlayer <|F_corruption 95|> in
  exists q,
    altarBlock altarEffectsTable augmentsTable (3 # 4) p
    = (["PIERCING_ARROWS"%string], Some q)
    /\ corruption q = 100 /\ NoDup (activeAugments q).
Proof.
  cbn zeta.
  destruct (altarBlock altarEffectsTable augmentsTable (3 # 4)
                       (initialPlayer <|F_corruption 95|>)) as [augs oq] eqn:Hb.
  pose proof Hb as Hv. vm_compute in Hv. injection Hv as <- <-.
  eexists. split; [reflexivity|].
  destruct (altar_caps_corruption_and_keeps_augments_distinct
              altarEffectsTable augmentsTable _ _ _ _ Hb) as (_ & Ha & _ & Hd).
  split; [reflexivity|]. rewrite Ha. apply Hd. apply NoDup_nil_2.
Defined.

(** ** The consumables *)

(** No count of the inventory is negative. *)
Definition stocked (p : Player) : Prop :=
  0 <= potions p /\ 0 <= antidotes p /\ 0 <= bombCount p /\ 0 <= arrows p.

(** X20.  The four handlers of the later stage that spend an item (a
    potion, an antidote, a bomb, an arrow) leave no count negative, do not
    lower the hit points and do not raise them past [maxHp], which they
    leave as it is.  A potion is refused under the augment IRON_WILL, and
    the one that is drunk heals by half of [maxHp], rounded down. *)
Theorem later_consumables_are_spent_soundly (now : Z) (a : App) :
  let p := player (gameState a) in
  stocked p -> 0 <= maxHp p -> hp p <= maxHp p ->
  (forall a', a' = usePotion a \/ a' = useAntidote a
              \/ a' = placeBomb now a \/ a' = fireArrow a ->
     let p' := player (gameState a') in
     stocked p' /\ hp p <= hp p' <= maxHp p' /\ maxHp p' = maxHp p
     /\ potions p' + antidotes p' + bombCount p' + arrows p'
        >= potions p + antidotes p + bombCount p + arrows p - 1)
  /\ (existsb (String.eqb "IRON_WILL") (activeAugments p) = true -> usePotion a = a)
  /\ (usePotion a <> a ->
      hp (player (gameState (usePotion a))) = Z.min (maxHp p) (hp p + maxHp p / 2)
      /\ potions (player (gameState (usePotion a))) = potions p - 1).
Proof.
  intros p (Hpo & Han & Hbo & Har) Hmax Hhp. subst p.
  assert (Hhalf : 0 <= maxHp (player (gameState a)) / 2) by (apply Z.div_pos; lia).
  split; [|split].
  - intros a' [ -> | [ -> | [ -> | -> ] ] ]; unfold stocked.
    + unfold usePotion. destruct (existsb _ _); [cbn zeta; lia|].
      destruct (Z.gtb_spec (potions (player (gameState a))) 0); cbn [andb]; [|cbn zeta; lia].
      destruct (_ <? _); cbn; lia.
    + unfold useAntidote.
      destruct (Z.gtb_spec (antidotes (player (gameState a))) 0); cbn [andb]; [|cbn zeta; lia].
      destruct (isPoisoned _); cbn; lia.
    + unfold placeBomb.
      destruct (Z.gtb_spec (bombCount (player (gameState a))) 0); cbn; lia.
    + unfold fireArrow. destruct (lastMoveDirection _); [|cbn zeta; lia].
      destruct (Z.gtb_spec (arrows (player (gameState a))) 0); cbn; lia.
  - unfold usePotion. intros ->. reflexivity.
  - unfold usePotion. destruct (existsb _ _); [congruence|].
    destruct (_ && _); [|congruence]. intros _. cbn. split; reflexivity.
Qed.

Lemma later_consumables_are_spent_soundly_witness :
  let a := mkApp (GAME_STATE <|G_player (initialPlayer <|F_hp 100|>)|>)
                 false false false false false false false None in
  hp (player (gameState (usePotion a))) = 120
  /\ potions (player (gameState (usePotion a))) = 0.
Proof.
  cbn zeta.
  destruct (later_consumables_are_spent_soundly 0
              (mkApp (GAME_STATE <|G_player (initialPlayer <|F_hp 100|>)|>)
                     false false false false false false false None))
    as (_ & _ & Hp); [vm_compute; repeat split; congruence..|].
  destruct Hp as [H1 H2]; [vm_compute; congruence|].
  rewrite H1, H2. vm_compute. split; reflexivity.
Defined.

(** ** The properties above at concrete states *)

(** The goblin of the corridor next to the player. *)
Definition ambush : GameState := chase [mkEnemy 1 0 1 GOBLIN 20 3 None].

Lemma later_enemy_turn_keeps_enemies_apart_witness :
  exists over g' ns,
    processEnemyTurnT (chase [goblin; skeleton]) [] = (over, g', Some ns)
    /\ Forall2 (stepsOnto corridor) [goblin; skeleton] (enemies ns)
    /\ NoDup (enemyTiles (enemies ns)).
Proof.
  destruct (later_enemy_turn_keeps_enemies_apart canPoisonTable
              (chase [goblin; skeleton]) []) as [Hret Hinv].
  destruct Hret as (over & g' & ns & Heq).
  { vm_compute. split; congruence. }
  { repeat constructor; vm_compute; congruence. }
  exists over, g', ns. split; [exact Heq|].
  destruct (Hinv over g' ns Heq) as (Hstep & Hnd & _).
  split; [exact Hstep|]. apply Hnd.
  change (NoDup [(3, 0); (4, 0)]).
  apply NoDup_cons. split; [|apply NoDup_singleton].
  intros H. apply list_elem_of_singleton in H. discriminate H.
Defined.

Lemma later_enemy_turn_only_hurts_witness :
  exists ns,
    processEnemyTurnT ambush [] = (false, [], Some ns)
    /\ hurt (player ambush) (player ns) /\ hp (player ns) = 117.
Proof.
  destruct (processEnemyTurnT ambush []) as [[over g'] res] eqn:He.
  pose proof He as Hv. vm_compute in Hv. injection Hv as <- <- <-.
  eexists. split; [reflexivity|]. split; [|reflexivity].
  exact (proj1 (later_enemy_turn_only_hurts canPoisonTable ambush [] _ _ _ He)).
Defined.

Lemma later_turn_never_heals_witness :
  exists ns,
    returned (processTurn canPoisonTable (chase [goblin]) (mkPosition 2 0) []) = Some ns
    /\ player_x (player ns) = 2 /\ stepsTaken (player ns) = 1
    /\ 1 <= maxHp (player ns) <= maxHp (player (chase [goblin]))
    /\ hp (player ns) <= hp (player (chase [goblin])).
Proof.
  destruct (returned (processTurn canPoisonTable (chase [goblin]) (mkPosition 2 0) []))
    as [ns|] eqn:Hr; [|vm_compute in Hr; discriminate].
  exists ns. split; [reflexivity|].
  destruct (later_turn_never_heals canPoisonTable (chase [goblin]) (mkPosition 2 0) [] ns Hr)
    as (Hx & _ & Hs & _ & Hm & _ & Hh).
  split; [exact Hx|]. split; [rewrite Hs; reflexivity|].
  split; [apply Hm|apply Hh]; vm_compute; congruence.
Defined.

Lemma arrow_lands_witness :
  let a := mkApp (chase [goblin]) false false true false false false false
                 (Some (mkArrow 0 0 true ArrowRight)) in
  exists n,
    arrowProjectile
      (flyOn xpGainedTable canPoisonTable splitsOnDeathTable slimeMiniEntry
             n (chase [goblin]) 0 (a, [TArrowTick], [])).1.1 = None.
Proof.
  cbn zeta.
  apply (arrow_lands xpGainedTable canPoisonTable splitsOnDeathTable slimeMiniEntry
           (chase [goblin]) 0 [] _ (mkArrow 0 0 true ArrowRight)); reflexivity.
Defined.

Lemma turn_ticks_bombs_witness :
  let gs := (chase []) <|G_bombs [mkBomb 3 0 1 1; mkBomb 4 0 2 3]|> in
  exists ns,
    returned (processTurn canPoisonTable gs (mkPosition 1 0) []) = Some ns
    /\ bombs ns = [mkBomb 4 0 2 2].
Proof.
  cbn zeta.
  destruct (returned (processTurn canPoisonTable ((chase []) <|G_bombs [mkBomb 3 0 1 1; mkBomb 4 0 2 3]|>)
                                   (mkPosition 1 0) []))
    as [ns|] eqn:Hr; [|vm_compute in Hr; discriminate].
  exists ns. split; [reflexivity|].
  rewrite (turn_ticks_bombs canPoisonTable _ _ _ _ Hr). vm_compute. reflexivity.
Defined.

(** ** The state an arrow leaves behind *)

Lemma stepsOnto_keeps (m : GameMap) (e e' : Enemy) :
  stepsOnto m e e' ->
  enemy_id e' = enemy_id e /\ enemy_hp e' = enemy_hp e
  /\ enemy_type e' = enemy_type e /\ enemy_attack e' = enemy_attack e.
Proof.
  intros [->|(-> & _)]; [repeat split; reflexivity|].
  destruct e; repeat split; reflexivity.
Qed.

Section ArrowHit.
Variable xpGained : EnemyType -> Z -> Z.
Variable canPoison splitsOnDeath : EnemyType -> bool.
Variable SLIME_MINI_DATA : Enemy.

(** Every enemy of the state a turn returns is an enemy of the state the
    turn started from, one step further at the most: a turn takes no hit
    points from an enemy. *)
Lemma processTurn_enemies (gs : GameState) (pos : Position) (g : Rng) (ns : GameState) :
  returned (processTurn canPoison gs pos g) = Some ns ->
  Forall (fun e' => exists e0, e0 ∈ enemies gs /\ stepsOnto (gs_map gs) e0 e')
         (enemies ns).
Proof.
  unfold processTurn.
  destruct (bombTicking _ _) as [[newBombs newBlasts]|]; [|discriminate].
  set (enemies1 := if negb _ then List.filter _ (enemies gs) else enemies gs).
  assert (Hsub : forall e, e ∈ enemies1 -> e ∈ enemies gs).
  { intros e He. subst enemies1. destruct (negb _); [|exact He].
    apply list_elem_of_In in He. apply filter_In in He as [He _].
    apply list_elem_of_In, He. }
  clearbody enemies1.
  set (newState := gs <|G_player _|> <|G_bombs newBombs|> <|G_enemies enemies1|>
                      <|G_activeBlasts newBlasts|>).
  unfold V2.processEnemyTurn.
  destruct (V2.enemyLoop _ _ _ _ _) as [st'|] eqn:Hloop; [|discriminate].
  cbn [returned]. intros [= <-].
  destruct (enemyLoop_enemies canPoison _ _ _ _ _ _ _ Hloop eq_refl eq_refl)
    as (Hlen & Hpt & _).
  cbn [newEnemies] in Hlen, Hpt.
  change (enemies newState) with enemies1 in *.
  change (gs_map newState) with (gs_map gs) in *.
  apply Forall_lookup. intros j e' He'.
  change (enemies (newState <|G_player (newPlayer st')|> <|G_enemies (newEnemies st')|>))
    with (newEnemies st') in He'.
  destruct (enemies1 !! j) as [e0|] eqn:H0.
  - destruct (Hpt j e0 H0) as (e1 & He1 & Hst & _).
    assert (e1 = e') as -> by congruence.
    exists e0. split; [|exact Hst]. apply Hsub. eapply list_elem_of_lookup_2, H0.
  - apply lookup_ge_None in H0. apply lookup_lt_Some in He'. lia.
Qed.

(** The tick of an arrow that enters a floor tile with an enemy ends in
    [setGameState(processTurn(...))]: when that turn returns, its state
    replaces what the updates queued before it made of the game. *)
Lemma arrowTick_hit_state closure now g a p e ns :
  arrowProjectile a = Some p -> arrow_visible p = true ->
  let t := stepDir (arrow_direction p) (arrow_x p) (arrow_y p) in
  tileAt (gs_map closure) t.1 t.2 = Some FLOOR ->
  List.find (fun e => samePos (enemy_x e) (enemy_y e) t.1 t.2) (enemies closure) = Some e ->
  returned (processTurn canPoison closure
              (mkPosition (player_x (player closure)) (player_y (player closure))) g)
  = Some ns ->
  gameState (arrowTick xpGained canPoison splitsOnDeath SLIME_MINI_DATA
                       closure now g a).1.1 = ns.
Proof.
  intros Hp Hv t Hf He Hr. subst t. unfold V2.arrowTick. rewrite Hp, Hv. cbn [negb].
  destruct (stepDir _ _ _) as [x y]; cbn [fst snd] in *.
  rewrite bool_decide_eq_true_2 by exact Hf. cbn [negb]. rewrite He. cbn [fst snd].
  apply (afterTurn_final xpGained splitsOnDeath SLIME_MINI_DATA closure now _
           (fun s => s) _ ns Hr).
Qed.

End ArrowHit.

End V2Facts.

(** * The two stages side by side *)

(** ** C3: the antidote *)

(** C3, as the code has it.  In both stages an antidote used while
    poisoned takes one antidote, clears [isPoisoned], and the poison block
    of a turn leaves the cured player as it is.  The later stage sets the
    step counter to 0; the first stage keeps the counter. *)
Theorem antidote_clears_poison :
  (forall a : V1.App,
     0 < V1.antidotes (V1.player (V1.gameState a)) ->
     V1.isPoisoned (V1.player (V1.gameState a)) = true ->
     let p := V1.player (V1.gameState a) in
     let p' := V1.player (V1.gameState (V1.handleUseAntidote a)) in
     V1.antidotes p' = V1.antidotes p - 1
     /\ V1.isPoisoned p' = false
     /\ V1.poisonStepCounter p' = V1.poisonStepCounter p
     /\ V1.poisonTick p' = p')
  /\ (forall a : V2.App,
        0 < V2.antidotes (V2.player (V2.gameState a)) ->
        V2.isPoisoned (V2.player (V2.gameState a)) = true ->
        let p := V2.player (V2.gameState a) in
        let p' := V2.player (V2.gameState (V2.useAntidote a)) in
        V2.antidotes p' = V2.antidotes p - 1
        /\ V2.isPoisoned p' = false
        /\ V2.poisonStepCounter p' = 0
        /\ V2.poisonTick p' = p').
Proof.
  split.
  - exact V1Facts.handleUseAntidote_cures.
  - exact V2Facts.useAntidote_cures.
Qed.

Lemma antidote_clears_poison_witness :
  (let p := V1.player (V1.gameState V1Facts.poisonedApp) in
   let p' := V1.player (V1.gameState (V1.handleUseAntidote V1Facts.poisonedApp)) in
   V1.antidotes p' = V1.antidotes p - 1
   /\ V1.isPoisoned p' = false
   /\ V1.poisonStepCounter p' = V1.poisonStepCounter p
   /\ V1.poisonTick p' = p')
  /\ (let p := V2.player (V2.gameState V2Facts.poisonedApp) in
      let p' := V2.player (V2.gameState (V2.useAntidote V2Facts.poisonedApp)) in
      V2.antidotes p' = V2.antidotes p - 1
      /\ V2.isPoisoned p' = false
      /\ V2.poisonStepCounter p' = 0
      /\ V2.poisonTick p' = p').
Proof.
  split.
  - apply (proj1 antidote_clears_poison V1Facts.poisonedApp);
      vm_compute; reflexivity.
  - apply (proj2 antidote_clears_poison V2Facts.poisonedApp);
      vm_compute; reflexivity.
Defined.

(** C3 as stated fails on the first stage: poisoned with the counter at 2
    and one antidote, the counter is still 2 after the antidote. *)
Lemma handleUseAntidote_keeps_counter :
  let a := V1Facts.poisonedApp in
  V1.isPoisoned (V1.player (V1.gameState a)) = true
  /\ V1.antidotes (V1.player (V1.gameState a)) = 1
  /\ V1.poisonStepCounter (V1.player (V1.gameState (V1.handleUseAntidote a))) = 2
  /\ V1.poisonStepCounter (V1.player (V1.gameState (V1.handleUseAntidote a))) <> 0.
Proof. vm_compute. repeat split; try reflexivity. discriminate. Qed.

(** ** C8: moving into a wall *)

(** C8, as the code has it.  A move into a wall schedules nothing and takes
    no draw.  The later stage leaves the component as it is; the first
    stage, when the input is not locked, records the direction as
    [lastMoveDirection] and changes nothing else. *)
Theorem wall_rejects_move :
  (forall (xpGained : V1.EnemyType -> Z -> Z) (d : Direction) (g : Rng) (a : V1.App),
     tileAt (V1.gs_map (V1.gameState a))
            (V1Facts.target d a).1 (V1Facts.target d a).2 = Some WALL ->
     V1.handleMove xpGained d g a
     = (if V1.inputLocked a then a
        else a <|V1.A_gameState
                   ((V1.gameState a)
                      <|V1.G_player ((V1.player (V1.gameState a))
                                       <|V1.F_lastMoveDirection (Some d)|>)|>)|>,
        [], g))
  /\ (forall (xpGained : V2.EnemyType -> Z -> Z)
             (canPoison splitsOnDeath : V2.EnemyType -> bool) (mini : V2.Enemy)
             (w h : Z) (effects : list V2.AltarEffect)
             (augments : AugmentId -> option (list (V2.Stat * Z)))
             (d : Direction) (now : Z) (g : Rng) (a : V2.App),
        tileAt (V2.gs_map (V2.gameState a))
               (V2Facts.target d a).1 (V2Facts.target d a).2 = Some WALL ->
        V2.handleMove xpGained canPoison splitsOnDeath mini w h effects augments d now g a
        = (a, [], g)).
Proof.
  split.
  - intros xpGained d g a Hw. exact (V1Facts.handleMove_wall xpGained d g a Hw).
  - intros. apply V2Facts.later_handleMove_wall. assumption.
Qed.

(** The player of the later [GAME_STATE], walled in at (1, 1). *)
Definition walledApp2 : V2.App :=
  V2.mkApp V2.GAME_STATE false false false false false false false None.

Lemma wall_rejects_move_witness :
  V1.handleMove (fun _ _ => 0) ArrowLeft [] V1Facts.walledApp
  = (V1Facts.walledApp
       <|V1.A_gameState
           ((V1.gameState V1Facts.walledApp)
              <|V1.G_player ((V1.player (V1.gameState V1Facts.walledApp))
                               <|V1.F_lastMoveDirection (Some ArrowLeft)|>)|>)|>,
     [], [])
  /\ V2.handleMoveT ArrowLeft 0 [] walledApp2 = (walledApp2, [], []).
Proof.
  split.
  - apply (proj1 wall_rejects_move (fun _ _ => 0) ArrowLeft [] V1Facts.walledApp).
    vm_compute. reflexivity.
  - apply (proj2 wall_rejects_move). vm_compute. reflexivity.
Defined.

(** C8 as stated fails on the first stage: the player who has not moved
    yet bumps into the wall on the left and faces left afterwards. *)
Lemma bump_changes_lastMoveDirection :
  let a := V1Facts.walledApp in
  let a' := (V1.handleMove (fun _ _ => 0) ArrowLeft [] a).1.1 in
  tileAt (V1.gs_map (V1.gameState a)) 0 1 = Some WALL
  /\ V1.lastMoveDirection (V1.player (V1.gameState a)) = None
  /\ V1.lastMoveDirection (V1.player (V1.gameState a')) = Some ArrowLeft
  /\ V1.lastMoveDirection (V1.player (V1.gameState a'))
     <> V1.lastMoveDirection (V1.player (V1.gameState a)).
Proof. vm_compute. repeat split; try reflexivity. discriminate. Qed.

(** ** C4: gold *)

(** A walled room on dungeon level 3 with a gold item right of the player. *)
Definition goldRoom2 : V2.App :=
  V2.mkApp (V2.GAME_STATE <|V2.G_gs_map V1Facts.room|> <|V2.G_gs_level 3|>
                          <|V2.G_items [mkItem 2 1 GOLD]|>)
           false false false false false false false None.

Definition goldRoom1 : V1.App :=
  V1.mkApp (V1.GAME_STATE <|V1.G_gs_map V1Facts.room|> <|V1.G_gs_level 3|>
                          <|V1.G_items [mkItem 2 1 GOLD]|>)
           false false false false false false false None.

(** C4, as the code has it.  A step onto a gold item whose position is not
    in the picked-up set puts the position into the set and adds gold: in
    the first stage 5 plus the dungeon level, when the tile is neither the
    wizard's nor the exit; in the later stage 10 whatever the level, when
    the tile is neither an altar nor the exit and the turn returns.  A step
    onto a position that is in the set adds nothing. *)
Theorem gold_pickup_once :
  (forall (xpGained : V1.EnemyType -> Z -> Z) (closure : V1.GameState)
          (pos : Position) (a : V1.App) (it : Item),
     V1.animating a = false ->
     atOpt (V1.wizard (V1.gameState a)) (pos_x pos) (pos_y pos) = false ->
     atOpt (V1.exit (V1.gameState a)) (pos_x pos) (pos_y pos) = false ->
     List.find (fun i => samePos (item_x i) (item_y i) (pos_x pos) (pos_y pos))
               (V1.items (V1.gameState a)) = Some it ->
     item_type it = GOLD ->
     let a' := (V1.processTurn xpGained closure pos a).1 in
     (itemKey it ∉ V1.pickedUpItems (V1.gameState a) ->
      V1.gold (V1.player (V1.gameState a'))
      = V1.gold (V1.player (V1.gameState a)) + (5 + V1.gs_level (V1.gameState a))
      /\ itemKey it ∈ V1.pickedUpItems (V1.gameState a'))
     /\ (itemKey it ∈ V1.pickedUpItems (V1.gameState a) ->
         V1.gold (V1.player (V1.gameState a')) = V1.gold (V1.player (V1.gameState a))))
  /\ (forall (xpGained : V2.EnemyType -> Z -> Z)
             (canPoison splitsOnDeath : V2.EnemyType -> bool) (mini : V2.Enemy)
             (w h : Z) (effects : list V2.AltarEffect)
             (augments : AugmentId -> option (list (V2.Stat * Z)))
             (d : Direction) (now : Z) (g : Rng) (a : V2.App)
             (tile : option TileType) (ns : V2.GameState) (it : Item),
        let gs := V2.gameState a in
        let t := stepDir d (V2.player_x (V2.player gs)) (V2.player_y (V2.player gs)) in
        V2.animating a = false -> V2.isPaused a = false ->
        tileAtStrict (V2.gs_map gs) t.1 t.2 = Some tile -> tile <> Some WALL ->
        List.find (fun e => samePos (V2.enemy_x e) (V2.enemy_y e) t.1 t.2)
                  (V2.enemies gs) = None ->
        V2.returned (V2.processTurn canPoison gs (mkPosition t.1 t.2) g) = Some ns ->
        List.find (fun i => samePos (item_x i) (item_y i) t.1 t.2) (V2.items gs) = Some it ->
        List.find (fun p => samePos (pos_x p) (pos_y p) t.1 t.2) (V2.altars gs) = None ->
        atOpt (V2.exit gs) t.1 t.2 = false ->
        item_type it = GOLD ->
        let a' := (V2.handleMove xpGained canPoison splitsOnDeath mini w h effects
                                 augments d now g a).1.1 in
        (itemKey it ∉ V2.pickedUpItems gs ->
         V2.gold (V2.player (V2.gameState a')) = V2.gold (V2.player gs) + 10
         /\ itemKey it ∈ V2.pickedUpItems (V2.gameState a'))
        /\ (itemKey it ∈ V2.pickedUpItems gs ->
            V2.gold (V2.player (V2.gameState a')) = V2.gold (V2.player gs))).
Proof.
  split.
  - intros xpGained closure pos a it Han Hw He Hf Hg a'. split; intros Hk.
    + exact (V1Facts.processTurn_gold_new xpGained closure pos a it Han Hw He Hf Hg Hk).
    + exact (V1Facts.processTurn_gold_again xpGained closure pos a it Han Hw He Hf Hk).
  - intros xpGained canPoison splitsOnDeath mini w h effects augments d now g a
           tile ns it gs t Han Hpa Htile Hnw Hen Hret Hit Halt Hex Hg a'.
    pose proof (V2Facts.handleMove_pickup xpGained canPoison splitsOnDeath mini w h
                  effects augments d now g a tile ns it Han Hpa Htile Hnw Hen Hret
                  Hit Halt Hex) as H.
    cbn zeta in H. fold gs in H. fold t in H. fold a' in H.
    split; intros Hk.
    + rewrite bool_decide_eq_false_2 in H by exact Hk. destruct H as [H1 H2].
      rewrite H1, H2, Hg. split; [reflexivity|].
      apply elem_of_union_l, elem_of_singleton. reflexivity.
    + rewrite bool_decide_eq_true_2 in H by exact Hk. exact (proj1 H).
Qed.

Lemma gold_pickup_once_witness :
  (let a' := (V1.processTurn (fun _ _ => 0) (V1.gameState goldRoom1)
                             (mkPosition 2 1) goldRoom1).1 in
   V1.gold (V1.player (V1.gameState a'))
   = V1.gold (V1.player (V1.gameState goldRoom1)) + (5 + V1.gs_level (V1.gameState goldRoom1))
   /\ itemKey (mkItem 2 1 GOLD) ∈ V1.pickedUpItems (V1.gameState a'))
  /\ (let a' := (V2.handleMoveT ArrowRight 0 [] goldRoom2).1.1 in
      V2.gold (V2.player (V2.gameState a')) = V2.gold (V2.player (V2.gameState goldRoom2)) + 10
      /\ itemKey (mkItem 2 1 GOLD) ∈ V2.pickedUpItems (V2.gameState a')).
Proof.
  split.
  - apply (proj1 gold_pickup_once (fun _ _ => 0) (V1.gameState goldRoom1)
             (mkPosition 2 1) goldRoom1 (mkItem 2 1 GOLD));
      try (vm_compute; reflexivity).
    vm_compute. intros H. discriminate H.
  - refine (proj1 (proj2 gold_pickup_once V2.xpGainedTable V2.canPoisonTable
              V2.splitsOnDeathTable V2.slimeMiniEntry V2.viewportWidthTable
              V2.viewportHeightTable V2.altarEffectsTable V2.augmentsTable
              ArrowRight 0 [] goldRoom2 (Some FLOOR)
              (default V2.GAME_STATE
                 (V2.returned (V2.processTurnT (V2.gameState goldRoom2) (mkPosition 2 1) [])))
              (mkItem 2 1 GOLD) _ _ _ _ _ _ _ _ _ _) _);
      try (vm_compute; reflexivity); try discriminate.
Defined.

(** C4 as stated fails on the later stage: on dungeon level 3 the step
    onto the gold adds 10, not 8.  A second step onto the tile adds
    nothing. *)
Lemma gold_is_ten_on_level_three :
  let a1 := (V2.handleMoveT ArrowRight 0 [] goldRoom2).1.1 in
  let a2 := (V2.handleMoveT ArrowLeft 0 [] a1).1.1 in
  let a3 := (V2.handleMoveT ArrowRight 0 [] a2).1.1 in
  V2.gs_level (V2.gameState goldRoom2) = 3
  /\ V2.gold (V2.player (V2.gameState goldRoom2)) = 0
  /\ V2.gold (V2.player (V2.gameState a1)) = 10
  /\ V2.gold (V2.player (V2.gameState a1)) <> 0 + (5 + 3)
  /\ V2.player_x (V2.player (V2.gameState a3)) = 2
  /\ V2.gold (V2.player (V2.gameState a3)) = 10.
Proof. vm_compute. repeat split; try reflexivity. discriminate. Qed.

(** ** C5: the order of the enemies in the later stage *)

(** C5 as stated fails on the later stage.  With the goblin first it moves
    from 3 to 2 and the skeleton behind it follows onto 3, the tile the
    goblin held before the turn; with the skeleton first, the skeleton finds
    that tile taken and stays on 4. *)
Lemma enemy_order_matters_in_later_stage :
  let r1 := (V2.processEnemyTurnT (V2Facts.chase [V2Facts.goblin; V2Facts.skeleton]) []).2 in
  let r2 := (V2.processEnemyTurnT (V2Facts.chase [V2Facts.skeleton; V2Facts.goblin]) []).2 in
  option_map V2.enemies r1
  = Some [V2Facts.goblin <|V2.E_enemy_x 2|>; V2Facts.skeleton <|V2.E_enemy_x 3|>]
  /\ option_map V2.enemies r2
     = Some [V2Facts.skeleton; V2Facts.goblin <|V2.E_enemy_x 2|>]
  /\ ~ Permutation [V2Facts.goblin <|V2.E_enemy_x 2|>; V2Facts.skeleton <|V2.E_enemy_x 3|>]
                   [V2Facts.skeleton; V2Facts.goblin <|V2.E_enemy_x 2|>].
Proof.
  split; [vm_compute; reflexivity|]. split; [vm_compute; reflexivity|].
  intros H.
  assert (Hin : In (V2Facts.skeleton <|V2.E_enemy_x 3|>)
                   [V2Facts.skeleton; V2Facts.goblin <|V2.E_enemy_x 2|>]).
  { eapply Permutation_in; [exact H|]. right. left. reflexivity. }
  destruct Hin as [Hin|[Hin|[]]]; vm_compute in Hin; discriminate Hin.
Qed.

(** ** C6: bombs on one tile *)

(** C6, as the first stage has it.  [handleDropBomb] leaves the component
    as it is when a bomb lies on the player's tile, and along every sequence
    of events that stays in the level no two bombs share a tile if none did
    at its start. *)
Theorem one_bomb_per_tile_in_first_stage :
  (forall (now : Z) (a : V1.App),
     existsb (fun b => samePos (bomb_x b) (bomb_y b)
                               (V1.player_x (V1.player (V1.gameState a)))
                               (V1.player_y (V1.player (V1.gameState a))))
             (V1.bombs (V1.gameState a)) = true ->
     V1.handleDropBomb now a = a)
  /\ (forall (generateDungeon : Z -> V1.GameState) (xpGained : V1.EnemyType -> Z -> Z)
             (evs : list (V1.Event * Rng)) (a : V1.App),
        Forall (fun eg => V1.leavesLevel eg.1 = false) evs ->
        NoDup (V1.bombTiles (V1.bombs (V1.gameState a))) ->
        NoDup (V1.bombTiles (V1.bombs (V1.gameState
                 (V1.run generateDungeon xpGained evs a))))).
Proof.
  split.
  - intros now a H. unfold V1.handleDropBomb. rewrite H.
    destruct (_ || _); reflexivity.
  - intros. apply V1Facts.run_NoDup; assumption.
Qed.

Lemma one_bomb_per_tile_witness :
  V1.handleDropBomb 8 (V1.handleDropBomb 7 V1Facts.sapperApp)
  = V1.handleDropBomb 7 V1Facts.sapperApp
  /\ NoDup (V1.bombTiles (V1.bombs (V1.gameState
              (V1.run (fun _ => V1.GAME_STATE) (fun _ _ => 0)
                      ((V1.EDropBomb 7, []) :: V1Facts.turnTo ArrowRight
                       ++ [(V1.EDropBomb 8, [])])
                      V1Facts.sapperApp)))).
Proof.
  split.
  - apply (proj1 one_bomb_per_tile_in_first_stage 8 (V1.handleDropBomb 7 V1Facts.sapperApp)).
    vm_compute. reflexivity.
  - apply (proj2 one_bomb_per_tile_in_first_stage).
    + repeat constructor.
    + vm_compute. constructor.
Defined.

(** C6 as stated fails on the later stage: a second bomb placed without
    moving lies on the tile of the first, and both are taken from the bag. *)
Lemma placeBomb_stacks_bombs :
  let a := V2.placeBomb 8 (V2.placeBomb 7 V2Facts.sapperApp) in
  V2.bombs (V2.gameState a)
  = [mkBomb 1 1 7 V2.BOMB_FUSE_STEPS; mkBomb 1 1 8 V2.BOMB_FUSE_STEPS]
  /\ V2.bombCount (V2.player (V2.gameState V2Facts.sapperApp)) = 3
  /\ V2.bombCount (V2.player (V2.gameState a)) = 1.
Proof. vm_compute. repeat split; reflexivity. Qed.

(** ** C7: fuses and melee turns *)

(** The sapper in the walled room next to a skeleton of 100 hit points, and
    the same fight in the corridor of the later stage. *)
Definition brawl1 : V1.App :=
  V1.mkApp (V1.GAME_STATE <|V1.G_gs_map V1Facts.room|>
              <|V1.G_player (spread V1.initialPlayer (V1.PLAYER_CLASSES Sapper))|>
              <|V1.G_enemies [V1.mkEnemy 2 1 1 V1.SKELETON 100 3 None]|>)
           false false false false false false false None.

Definition brawl2 : V2.App :=
  V2.mkApp ((V2Facts.chase [V2.mkEnemy 1 0 1 V2.SKELETON 100 3 None])
              <|V2.G_player (V2.initialPlayer <|V2.F_player_x 0|> <|V2.F_player_y 0|>
                               <|V2.F_bombCount 1|>)|>)
           false false false false false false false None.

(** A melee turn of the first stage: the attack, the timer that runs the
    enemy turn, and the timer that releases the input lock. *)
Definition meleeTurn : list (V1.Event * Rng) :=
  [ (V1.EMove ArrowRight, []); (V1.ETimer (V1.TAfterMelee true), []);
    (V1.ETimer V1.TUnlock, []) ].

Definition sixMelees : list (V1.Event * Rng) :=
  meleeTurn ++ meleeTurn ++ meleeTurn ++ meleeTurn ++ meleeTurn ++ meleeTurn.

(** C7 fails in the first stage on melee turns.  The sapper drops a bomb
    and attacks the skeleton six times; each attack lands and is answered,
    and the enemy turn follows, so six turns are consumed: the skeleton
    goes from 100 to 40 hit points, the sapper from 100 to 64.  The bomb
    still has its full fuse of [BOMB_FUSE_STEPS], nothing has gone off and
    no blast is recorded, since the melee branch of [handleMove] never
    runs [processTurn].  Six steps on free tiles after the same drop do set
    the bomb off, and in the later stage one melee turn takes a step from
    the fuse. *)
Theorem melee_turns_do_not_tick_fuses :
  let run1 := V1.run (fun _ => V1.GAME_STATE) (fun _ _ => 0) in
  let a0 := V1.handleDropBomb 7 brawl1 in
  let a6 := run1 sixMelees a0 in
  let b0 := V2.placeBomb 7 brawl2 in
  let b1 := (V2.handleMoveT ArrowRight 8 [] b0).1.1 in
  V1.bombs (V1.gameState a0) = [mkBomb 1 1 7 V1.BOMB_FUSE_STEPS]
  /\ map V1.enemy_hp (V1.enemies (V1.gameState a0)) = [100]
  /\ V1.hp (V1.player (V1.gameState a0)) = 100
  /\ map V1.enemy_hp (V1.enemies (V1.gameState a6)) = [40]
  /\ V1.hp (V1.player (V1.gameState a6)) = 64
  /\ V1.bombs (V1.gameState a6) = [mkBomb 1 1 7 V1.BOMB_FUSE_STEPS]
  /\ V1.activeBlasts (V1.gameState a6) = []
  /\ V1.bombs (V1.gameState (run1 V1Facts.sixTurns (V1.handleDropBomb 7 V1Facts.sapperApp)))
     = []
  /\ V2.bombs (V2.gameState b0) = [mkBomb 0 0 7 V2.BOMB_FUSE_STEPS]
  /\ V2.bombs (V2.gameState b1) = [mkBomb 0 0 7 (V2.BOMB_FUSE_STEPS - 1)]
  /\ map V2.enemy_hp (V2.enemies (V2.gameState b1)) = [86]
  /\ V2.player_x (V2.player (V2.gameState b1)) = 0.
Proof. vm_compute. repeat split; reflexivity. Qed.

(** ** C9: the damage of an arrow *)

(** C9.  In the first stage an arrow that enters a tile with a living
    enemy takes [floor((attack + arrowDamageBonus) * 0.8)] plus a bonus
    between 0 and 3 from that enemy, and is gone with no further run
    scheduled.  In the later stage the arrow is gone with no further tick
    pending, but the damage does not reach the state: the tick ends by
    setting the state that [processTurn] computes from the game of the
    render, so when that turn returns, the state after the tick is that
    state, whatever the hit had queued, and every enemy in it has the hit
    points it had in the game of the render. *)
Theorem arrow_hit_damages_only_in_first_stage :
  (forall (xpGained : V1.EnemyType -> Z -> Z) (closure : V1.GameState)
          (d : Direction) (x y : Z) (g : Rng) (a : V1.App) (i : nat) (e : V1.Enemy),
     let t := stepDir d x y in
     tileAt (V1.gs_map closure) t.1 t.2 <> Some WALL ->
     V1.findIndex (fun e => (V1.enemy_x e =? t.1) && (V1.enemy_y e =? t.2)
                            && (V1.enemy_hp e >? 0)) (V1.enemies closure) = Some i ->
     V1.enemies (V1.gameState a) !! i = Some e ->
     (0 <= (draw g).1)%Q -> ((draw g).1 < 1)%Q ->
     exists bonus : Z,
       0 <= bonus <= 3
       /\ let damage := (4 * (V1.attack (V1.player closure)
                              + V1.arrowDamageBonus (V1.player closure))) / 5 + bonus in
          let '(a', ts, _) := V1.moveArrow xpGained closure d x y g a in
          V1.enemies (V1.gameState a')
          = <[i := e <|V1.E_enemy_hp (V1.enemy_hp e - damage)|> <|V1.E_isHit (Some true)|>]>
              (V1.enemies (V1.gameState a))
          /\ V1.arrowProjectile a' = None
          /\ ts = [V1.TClearHit])
  /\ (forall (xpGained : V2.EnemyType -> Z -> Z)
             (canPoison splitsOnDeath : V2.EnemyType -> bool) (mini : V2.Enemy)
             (closure : V2.GameState) (now : Z) (g : Rng) (a : V2.App)
             (p : ArrowProjectile) (e : V2.Enemy) (ns : V2.GameState),
        V2.arrowProjectile a = Some p -> arrow_visible p = true ->
        let t := stepDir (arrow_direction p) (arrow_x p) (arrow_y p) in
        tileAt (V2.gs_map closure) t.1 t.2 = Some FLOOR ->
        List.find (fun e => samePos (V2.enemy_x e) (V2.enemy_y e) t.1 t.2)
                  (V2.enemies closure) = Some e ->
        V2.returned (V2.processTurn canPoison closure
                       (mkPosition (V2.player_x (V2.player closure))
                                   (V2.player_y (V2.player closure))) g) = Some ns ->
        let r := V2.arrowTick xpGained canPoison splitsOnDeath mini closure now g a in
        V2.arrowProjectile r.1.1 = None
        /\ r.1.2 = []
        /\ V2.gameState r.1.1 = ns
        /\ Forall (fun e' => exists e0, e0 ∈ V2.enemies closure
                                        /\ V2.enemy_id e' = V2.enemy_id e0
                                        /\ V2.enemy_hp e' = V2.enemy_hp e0)
                  (V2.enemies (V2.gameState r.1.1))).
Proof.
  split.
  - intros xpGained closure d x y g a i e t Hw Hi He H0 H1.
    exists (randInt 4 (draw g).1). split.
    + pose proof (V1Facts.randInt_bounds 4 _ H0 H1). lia.
    + pose proof (V1Facts.moveArrow_hit xpGained closure d x y g a i e Hw Hi He) as H.
      cbn zeta in H. cbn zeta.
      destruct (V1.moveArrow xpGained closure d x y g a) as [[a' ts] g'].
      destruct H as (Hen & Har & Hts & _). repeat split; assumption.
  - intros xpGained canPoison splitsOnDeath mini closure now g a p e ns Hp Hv t Hf He Hr r.
    destruct (V2Facts.arrowTick_hit xpGained canPoison splitsOnDeath mini
                closure now g a p e Hp Hv Hf He) as [H1 H2].
    pose proof (V2Facts.arrowTick_hit_state xpGained canPoison splitsOnDeath mini
                  closure now g a p e ns Hp Hv Hf He Hr) as H3.
    split; [exact H1|]. split; [exact H2|]. split; [exact H3|].
    subst r. rewrite H3.
    eapply Forall_impl; [exact (V2Facts.processTurn_enemies canPoison _ _ _ _ Hr)|].
    intros e' (e0 & Hin & Hst). exists e0. split; [exact Hin|].
    destruct (V2Facts.stepsOnto_keeps _ _ _ Hst) as (Hid & Hhp & _). split; assumption.
Qed.

(** A player of attack 20 in the corridor with a goblin of 30 hit points
    two tiles to the right, the arrow one tile short of the goblin, in the
    first stage and in the later stage. *)
Definition shot1 : V1.App :=
  V1.mkApp (V1.GAME_STATE <|V1.G_gs_map V1Facts.corridor|>
              <|V1.G_player (V1.initialPlayer <|V1.F_player_x 0|> <|V1.F_player_y 0|>
                               <|V1.F_attack 20|>)|>
              <|V1.G_enemies [V1.mkEnemy 2 0 1 V1.GOBLIN 30 3 None]|>)
           false false false false false false false
           (Some (mkArrow 1 0 true ArrowRight)).

Definition shot2 : V2.App :=
  V2.mkApp (V2.GAME_STATE <|V2.G_gs_map V2Facts.corridor|>
              <|V2.G_player (V2.initialPlayer <|V2.F_player_x 0|> <|V2.F_player_y 0|>
                               <|V2.F_attack 20|>)|>
              <|V2.G_enemies [V2.mkEnemy 2 0 1 V2.GOBLIN 30 3 None]|>)
           false false false false false false false
           (Some (mkArrow 1 0 true ArrowRight)).

(** The shot at the goblin: the first stage takes 16 + 2 of its 30 hit
    points; the later stage, whose hit would take 10, leaves it with 30,
    one step nearer to the player. *)
Lemma arrow_hit_damages_only_in_first_stage_witness :
  (exists bonus : Z,
     0 <= bonus <= 3
     /\ let damage := (4 * (20 + 0)) / 5 + bonus in
        let '(a', ts, _) := V1.moveArrow (fun _ _ => 0) (V1.gameState shot1)
                                         ArrowRight 1 0 [(1 # 2)%Q] shot1 in
        V1.enemies (V1.gameState a')
        = [V1.mkEnemy 2 0 1 V1.GOBLIN (30 - damage) 3 (Some true)]
        /\ V1.arrowProjectile a' = None
        /\ ts = [V1.TClearHit])
  /\ (let r := V2.arrowTick V2.xpGainedTable V2.canPoisonTable V2.splitsOnDeathTable
                            V2.slimeMiniEntry (V2.gameState shot2) 0 [] shot2 in
      V2.arrowDamage (V2.gameState shot2) = 10
      /\ V2.arrowProjectile r.1.1 = None
      /\ r.1.2 = []
      /\ V2.enemies (V2.gameState r.1.1) = [V2.mkEnemy 1 0 1 V2.GOBLIN 30 3 None]).
Proof.
  split.
  - apply (proj1 arrow_hit_damages_only_in_first_stage (fun _ _ => 0) (V1.gameState shot1)
             ArrowRight 1 0 [(1 # 2)%Q] shot1 0%nat (V1.mkEnemy 2 0 1 V1.GOBLIN 30 3 None));
      try (vm_compute; reflexivity); vm_compute; discriminate.
  - cbn zeta. split; [reflexivity|].
    destruct (V2.returned (V2.processTurn V2.canPoisonTable (V2.gameState shot2)
                (mkPosition (V2.player_x (V2.player (V2.gameState shot2)))
                            (V2.player_y (V2.player (V2.gameState shot2)))) []))
      as [ns|] eqn:Hr; [|vm_compute in Hr; discriminate].
    destruct (proj2 arrow_hit_damages_only_in_first_stage V2.xpGainedTable
                V2.canPoisonTable V2.splitsOnDeathTable V2.slimeMiniEntry
                (V2.gameState shot2) 0 [] shot2 (mkArrow 1 0 true ArrowRight)
                (V2.mkEnemy 2 0 1 V2.GOBLIN 30 3 None) ns)
      as (H1 & H2 & H3 & _); try (vm_compute; reflexivity); [exact Hr|].
    split; [exact H1|]. split; [exact H2|].
    rewrite H3. vm_compute in Hr. injection Hr as <-. reflexivity.
Defined.
